(* ===== verification/_CoqProject ===== *)
-Q . S2P
Prelude.v
PyStr.v
PyPath.v
PyGlob.v
PySlice.v
PyInt.v
Cli.v
JobSource.v
JobBuilder.v
Interleave.v
Dispatcher.v
Scheduler.v
Main.v
Program.v
LogText.v
