(* ===== verification/Prelude.v ===== *)
(** * Verification of the cwas-analysis batch dispatchers

    The repository's core (src/scripts/annotate_mp.py and
    src/scripts/categorize_mp.py) is two near-identical [main()]
    functions.  Each turns a directory of VCF files into one shell
    command per file and runs the commands, one after the other or on a
    [multiprocessing] pool.  Data flows through five parts:

      directory --JobSource--> sorted input paths --RangeSelector-->
      window [start_idx:end_idx] --JobBuilder--> shell commands
      --Dispatcher--> [os.system] calls and log lines

    and [main] glues them together with the path configuration, after
    [argparse] has read the settings from the command line.

    ** Files, and what they model

    - [Prelude] (this file): the Python state-and-exception monad [PyM]
      (an exception keeps the effects done before it, as in Python),
      the labelled transition closure [lstar], the tactic
      [decide_by_eval], the hint databases [cwas]/[cwas_rw], and
      generic lemmas on strings, lists and permutations.
    - [PyStr] (Module [PyStr]): the [str] operations the scripts call:
      the code-point order behind [sorted] ([str_leb], proved a total
      order), [endswith], [startswith], [in] ([contains]) and
      [str.replace] ([py_replace]: every non-overlapping occurrence,
      scanning left to right, as CPython does).
    - [PyPath] (Module [PyPath]): [os.path.basename], [os.path.split] and
      [os.path.join] of CPython's posixpath.
    - [PyGlob] (Module [PyGlob]): [glob.glob] and [fnmatch.fnmatch] of
      CPython 3.11 on POSIX.  [translate] follows [fnmatch.translate]
      step by step: bracket chunks at hyphens, empty ranges dropped,
      then [re]'s reading of the class.  [iglob] is [_iglob]: a
      directory part with wildcards is globbed for directories first,
      then [_glob1] or [_glob0] runs in each.  The file system is a
      [gmap] from a path to the entries [os.scandir] lists there.
    - [PySlice] (Module [PySlice]): [l[start:stop]] on a list with integer
      ([Z]) bounds, following [PySlice_AdjustIndices] (the RangeSelector,
      line 41 / 39).
    - [PyInt] (Module [PyInt]): [int(s)], the conversion of [type=int]
      (lines 21, 26, 28 / 21, 24, 26), as CPython 3.11's
      [PyLong_FromString] with base 10 does it: ASCII whitespace, a sign,
      digits in groups joined by single underscores, at most 4300 digits
      ([int_max_str_digits]).  [py_str] is [str(n)].
    - [Cli] (Module [Cli]): the two parsers of lines 17-29 / 17-27 and
      [parser.parse_args()] (line 30 / 28) of CPython 3.11's
      [argparse]: each string is classified ([parse_optional]: exact
      options, [--opt=value], unique prefixes of long options, [-xVALUE],
      negative numbers, the separator ["--"]), then consumed left to
      right ([consume]: one argument per store action, [-hX] chains of
      one-letter options, [_get_values] dropping a ["--"] argument,
      [int()] through [PyInt]), then the required actions are checked
      and unrecognized strings refused.  The result is a namespace
      ([gmap] of attributes), the help exit (status 0) or an error exit
      (status 2) with its message.
    - [JobSource] (Module [JobSource]):
      [sorted(glob(f'{in_dir}/*.vcf'))] (line 40 / 38) with [PyGlob]'s
      [glob].  For an [in_dir] without wildcards it lists the directory
      (an error gives no entries), drops hidden names, keeps the names
      ending in [.vcf] and joins them back ([glob_vcf_literal]).
    - [JobBuilder] (Module [JobBuilder]): the output path
      [f'{out_dir}/{basename(p).replace(".vcf", ext)}'] and the command
      f-string of each script (lines 42-49 / 41-48).  [script] says which
      script runs, with the [--vep] value for annotation.
    - [Interleave]: the abstract contract of a dispatcher.
      [interleaving ls tr] holds when [tr] merges the lists [ls], each
      exactly once and in its own order.  It has a [Proper] instance for
      permutations of [ls].
    - [Dispatcher] (Module [Dispatcher]): [execute_cmd] (CMD line,
      [os.system], Progress line), the sequential loop [run_sequential]
      (state passing in [PyM] over a clock and an event log), and
      [mp.Pool(p).map(execute_cmd, cmds)] as a labelled step relation
      [pool_step].  The pool state holds the queue of chunks
      ([Pool._get_tasks] with [Pool.map]'s chunk size), [p] workers and
      the clock.  Any idle worker may take the next chunk, and any busy
      worker may act next.  The record [dispatcher] states the contract
      (every run is an interleaving, at non-decreasing times; some run
      exists).  [sequential_dispatcher] and [pool_dispatcher] implement
      it.
    - [Scheduler] (Module [Scheduler]): facts about the pool beyond the
      contract.  These are the chunks [Pool.map] makes, the run in which
      worker [0] takes every chunk in turn, and an executable schedule
      of [pool_step].  In that schedule, [sched_step] lets the first busy
      worker move, or else worker [0] take a chunk, and [pool_exec]
      iterates it with fuel.
    - [Main] (Module [Main]): [main()] of both scripts: [load_conf] and
      [dict_getitem] (the YAML configuration; [FileNotFoundError],
      [KeyError]), [main_prefix] (the jobs, and [os.makedirs] for
      categorization), [select_dispatcher] ([num_proc == 1], or
      [mp.Pool], which raises [ValueError] below 1), and the relation
      [main_sem] for a whole run, ending with the categorization script's
      [Done] line.  [main] sees the dispatcher only through the
      [dispatcher] contract.
    - [Program] (Module [Program]): the two entry points from their
      command line: [parse_args], then [main_sem] on the settings read
      from the namespace ([classify_ns]); usage errors and help end the
      program before any effect.  A setting holding the list [[]] (an
      argument ["--"]) is written ["[]"] where [main] formats it, and
      raises [TypeError] where [main] slices, creates a directory or
      starts a pool with it ([type_fault], [fault_run]), after the
      configuration is read.
    - [LogText] (Module [LogText]): the text printed to standard
      output.  [render] writes each output item with the f-strings of
      [execute_cmd] (lines 62-65) and of the final [print] (line 60 of
      categorize_mp.py), [stdout_text] adds [print]'s newlines.
      [get_curr_time] is a parameter (a Section [Variable]).
      [read_log] is a reader of the spec's log format: it splits the
      text at newlines and parses each line ([parse_line]).

    ** What the theorems show

    - Dispatcher: the pool refines the contract ([pool_refines_spec]):
      each command reaches [os.system] exactly once, with its lines in
      order.  No run of the pool is infinite ([pool_step_wf]) and
      [pool.map] can always return ([pool_map_returns]).  The events
      [run_sequential] records are the jobs' actions in list order, at
      non-decreasing times ([run_sequential_in_order]), and exit
      statuses are ignored ([run_sequential_ignores_status]).
    - Scheduler: [Pool.map] makes at most [4 * p] chunks, none empty
      and none longer than the chunk size ([pool_map_chunks]).  The
      events of the sequential loop are one complete run of the pool
      ([pool_runs_sequential]).  At every point of every run of
      [mp.Pool(p)], at most [p] commands have started without their
      [Progress] line ([pool_bounded_parallelism], from the invariant
      [workers_ok] and a count of running workers that each step keeps
      equal to the calls started minus the lines printed).  [pool_exec]
      returns a complete run within [pool_measure s + 1] steps.
    - JobSource: for every [in_dir], wildcards included, the inputs
      are sorted and duplicate-free, and they do not depend on the order
      of the directory listings ([in_vcf_paths_deterministic]).  For an
      [in_dir] without wildcards, membership is characterised.
      [in_dir] is a pattern: [-i 'data[1]'] reads the directory [data1]
      and never one named [data[1]] ([bracket_in_dir_reads_data1]).
    - PyGlob: [fnmatch(n, '*' + s)] is [n.endswith(s)] for a literal
      [s] ([fnmatch_star_literal]).  [_iglob]'s fuel is enough
      ([iglob_fuel_enough]).  On listings of distinct names, [_iglob]
      yields no path twice, also when it globs the directory part level
      by level ([iglob_distinct], in Section [Distinct]).  File systems
      whose listings differ only in order ([fs_equiv], decidable) give
      the same [glob] up to order: [Proper] instances carry [fs_equiv]
      through [listdir], [iterdir], [_glob1], [_glob0], [_iglob] and
      [glob] ([glob_proper]), so the proofs rewrite with it.
    - RangeSelector: the window's length formula, consecutive windows
      partitioning the list, and a negative start counting from the end.
    - JobBuilder: [.vcf] is replaced everywhere in the base name, not
      only as a suffix.  For simple names the output path is injective
      in both scripts.  In the annotation script it is injective for
      every name ([out_path_injective_annotate]): the scan can never
      copy the text [.annot.vcf] from its input.  The categorization
      script can send two inputs to one output file (a
      counterexample).
    - Main: a run returns normally and executes exactly the window's
      commands.  The error paths are covered: [KeyError] before any
      effect; [ValueError] for [num_proc < 1], after [os.makedirs].
      Missing inputs are silently empty.  The spec's scenario 1 is
      proved.
    - PyInt: [int(str(z)) == z] for every integer of at most 4300
      digits ([py_int_py_str]); no string parses to an integer of more
      digits ([py_int_bound]).
    - Cli: for [--option=value] command lines the order of the options
      does not matter ([parse_args_long_perm], by a permutation argument
      on the namespace); on a consistent parser every attribute of a
      returned namespace has its declared type ([parse_args_typed], from
      the invariant [inv] of the parser state that [consume] preserves).
      An unambiguous prefix of an option is read as the option itself
      ([parse_args_abbrev], argparse's [allow_abbrev]).
    - Program: the settings written as [--option=value] are read back
      exactly ([render_argv_roundtrip]); the spec's scenario 1 runs from
      its real command line ([program_scenario_window]); [--in_dir=--]
      stores the list [[]], and [main] then globs the pattern ["[]"]
      ([dashdash_in_dir], a gap in the spec).  A command line that
      omits a required option exits with status 2, naming it, before
      any effect ([program_missing_required]).  Every command line has
      a behaviour ([program_total]).  A [[]] process count or slice
      bound always ends the program with an exception, before any
      command runs and with nothing printed ([program_list_int]); a
      [[]] output directory stops the categorization script at
      [os.makedirs] with nothing created ([program_dashdash_out_dir]).
      [-h] first exits with status 0 before the required options are
      checked ([program_help_first]).
    - LogText: the printed text reads back as the printed entries, in
      order, when timestamps hold no comma or newline and commands no
      newline ([read_log_stdout]).  In the spec's scenario 2 ([-p 4],
      ten inputs) the printed text reports every command done exactly
      once, whatever the schedule, and ends with [Done]
      ([scenario2_log]).  A command with a newline (from a file name)
      splits its log line, so the reader's condition is needed.

    ** Bounds and fuel

    [Pool._get_tasks] is written with fuel [length l].  Each round with a
    positive chunk size consumes an item, so the fuel is enough
    ([get_tasks_concat]).  Termination of the pool is proved by the
    measure [pool_measure], not by fuel.  The executable schedule
    [pool_exec] takes fuel, and [pool_measure s + 1] is enough because
    each of its steps is a [pool_step], which decreases the measure.
    [glob]'s recursion on the directory part takes fuel
    [length pathname + 1], enough because each call is on a proper
    prefix of the path ([iglob_fuel_eq]); [fnmatch.translate] takes
    fuel [length pat] and consumes a character a round.  Python [int]s
    (indices, process counts) are [Z], with no width, as Python's are;
    the only bound on them is [int()]'s limit of 4300 digits, which the
    model keeps.
    [str(n)] is computed with fuel [N.size_nat n + 1], enough since
    dividing by ten removes a bit ([N_digits_go_spec]).  [argparse]'s
    loop over the strings is structural: an option and the argument it
    takes are consumed together.

    ** Not modelled

    - [argparse]'s usage and help text, [fromfile_prefix_chars],
      mutually exclusive groups and sub-parsers (the scripts use none),
      and non-ASCII digits or whitespace in [int()] (strings are byte
      strings).
    - Parsing the YAML file: the parsed dictionary is an input.
    - The external tools behind [os.system]: each command's duration is
      a parameter; its exit status is a parameter, and is discarded.
    - The format of the time stamps ([utils.get_curr_time]): a time is
      a number read from the clock, written by a parameter function.
    - [glob]'s [recursive], [root_dir] and [dir_fd] options (the
      scripts use none), and path aliases ([.], [..], doubled
      separators) as keys of the file system: a path is its string.
    - Output buffering of the worker processes: the text is modelled
      line by line, as on a terminal, where [print] writes each line
      in one call; the child processes' own output is not modelled.
    - [os.makedirs] failures.
    - [utils.execute_cmd] (used by categorize_mp.py and outside src/) is
      taken to do what the local [execute_cmd] of annotate_mp.py does,
      as the spec's log format says. *)

From Stdlib Require Import ZArith String Ascii Wf_nat.
From stdpp Require Import base list strings sorting.

(* stdpp makes [String.append] opaque to [simpl]; the proofs here compute with it. *)
#[local] Arguments String.append : simpl nomatch.

Declare Scope cwas_scope.
Delimit Scope cwas_scope with cwas.

(** ** The Python state-and-exception monad

    A statement of the scripts reads or changes the process state [S]
    (the file system, standard output, the commands started) and may
    raise a Python exception of type [E].  An exception leaves the
    effects already performed in place, exactly as in Python. *)
Definition PyM (S E A : Type) : Type := S -> (E + A) * S.

Definition py_ret {S E A} (a : A) : PyM S E A := fun s => (inr a, s).
Definition py_bind {S E A B} (m : PyM S E A) (k : A -> PyM S E B) : PyM S E B :=
  fun s => match m s with
           | (inl e, s') => (inl e, s')
           | (inr a, s') => k a s'
           end.
Definition py_raise {S E A} (e : E) : PyM S E A := fun s => (inl e, s).
Definition py_modify {S E} (f : S -> S) : PyM S E unit := fun s => (inr tt, f s).
Definition py_gets {S E A} (f : S -> A) : PyM S E A := fun s => (inr (f s), s).

#[export] Instance py_mret {S E} : MRet (PyM S E) := fun A => @py_ret S E A.
#[export] Instance py_mbind {S E} : MBind (PyM S E) := fun A B k m => @py_bind S E A B m k.

Lemma py_bind_ret_l {S E A B} (a : A) (k : A -> PyM S E B) s :
  py_bind (py_ret a) k s = k a s.
Proof. reflexivity. Qed.

Lemma py_bind_raise {S E A B} (e : E) (k : A -> PyM S E B) s :
  py_bind (py_raise e) k s = (inl e, s).
Proof. reflexivity. Qed.

Lemma py_mbind_bind {S E A B} (m : PyM S E A) (k : A -> PyM S E B) : (m ≫= k) = py_bind m k.
Proof. reflexivity. Qed.

Lemma py_bind_inr {S E A B} (m : PyM S E A) (k : A -> PyM S E B) s a s' :
  m s = (inr a, s') -> py_bind m k s = k a s'.
Proof. unfold py_bind. by intros ->. Qed.

Lemma py_bind_inl {S E A B} (m : PyM S E A) (k : A -> PyM S E B) s e s' :
  m s = (inl e, s') -> py_bind m k s = (inl e, s').
Proof. unfold py_bind. by intros ->. Qed.

(** ** Tactics and hints *)
Create HintDb cwas.
Create Rewrite HintDb cwas_rw.


(** ** Generic lemmas on strings *)

Lemma str_app_assoc (a b c : string) : ((a ++ b) ++ c = a ++ (b ++ c))%string.
Proof. induction a; simpl; congruence. Qed.

Lemma str_app_nil_r (a : string) : (a ++ "" = a)%string.
Proof. induction a; simpl; congruence. Qed.

Lemma str_length_app (a b : string) :
  String.length (a ++ b) = String.length a + String.length b.
Proof. induction a; simpl; congruence. Qed.

#[export] Hint Rewrite str_app_assoc str_app_nil_r str_length_app : cwas_rw.

Lemma str_app_inv_l (a b c : string) : (a ++ b = a ++ c)%string -> b = c.
Proof. induction a; simpl; [done|]. intros H. injection H. auto. Qed.

Lemma str_app_inv_r (a b c : string) : (a ++ c = b ++ c)%string -> a = b.
Proof.
  revert b; induction a as [|x a IH]; intros [|y b] E; simpl in E; [done| | |].
  - apply (f_equal String.length) in E. simpl in E. autorewrite with cwas_rw in E. lia.
  - apply (f_equal String.length) in E. simpl in E. autorewrite with cwas_rw in E. lia.
  - injection E as -> E. f_equal. by apply IH.
Qed.

Lemma str_app_nonempty (a b : string) : a <> EmptyString -> (a ++ b)%string <> EmptyString.
Proof. destruct a; simpl; congruence. Qed.

(** Two decompositions of one string: one of the left parts extends the other. *)
Lemma str_app_eq_app (a b c d : string) :
  (a ++ b = c ++ d)%string ->
  (exists m, c = (a ++ m)%string /\ b = (m ++ d)%string) \/
  (exists m, a = (c ++ m)%string /\ d = (m ++ b)%string).
Proof.
  revert c; induction a as [|x a IH]; intros [|y c]; simpl; intros H.
  - left. by exists "".
  - left. by exists (String y c).
  - right. exists (String x a). by rewrite <- H.
  - injection H as -> H. destruct (IH c H) as [[m [-> ->]]|[m [-> ->]]].
    + left. by exists m.
    + right. by exists m.
Qed.

Lemma prefix_iff (a b : string) :
  String.prefix a b = true <-> exists r, b = (a ++ r)%string.
Proof.
  revert b; induction a as [|x a IH]; intros [|y b]; simpl.
  - split; [by exists ""|done].
  - split; [by exists (String y b)|done].
  - split; [done|]. intros [r Hr]; discriminate.
  - destruct (Ascii.ascii_dec x y) as [->|Hne].
    + rewrite IH. split; intros [r Hr]; exists r; congruence.
    + split; [done|]. intros [r Hr]. injection Hr. congruence.
Qed.


(** ** Generic lemmas on lists *)

Lemma Permutation_filter_bool {A} (f : A -> bool) (l1 l2 : list A) :
  l1 ≡ₚ l2 -> List.filter f l1 ≡ₚ List.filter f l2.
Proof.
  induction 1 as [| x l1 l2 _ IH | x y l | l1 l2 l3 _ IH1 _ IH2]; simpl.
  - done.
  - destruct (f x); by rewrite IH.
  - destruct (f x), (f y); by try constructor.
  - by rewrite IH1, IH2.
Qed.

#[export] Instance filter_bool_Permutation {A} (f : A -> bool) :
  Proper ((≡ₚ) ==> (≡ₚ)) (List.filter f).
Proof. intros l1 l2 Hl. by apply Permutation_filter_bool. Qed.

(** Concatenating the lists of permuted keys, each list permuted. *)
Lemma mjoin_fmap_Permutation {A B} (F G : A -> list B) (l1 l2 : list A) :
  l1 ≡ₚ l2 -> (forall x, F x ≡ₚ G x) -> mjoin (F <$> l1) ≡ₚ mjoin (G <$> l2).
Proof.
  intros Hl HF. transitivity (mjoin (F <$> l2)).
  - induction Hl as [|x l1 l2 _ IH|x y l|l1 l2 l3 _ IH1 _ IH2]; cbn; [done|by rewrite IH| |by etrans].
    rewrite !app_assoc. by rewrite (Permutation_app_comm (F y) (F x)).
  - clear Hl. induction l2 as [|x l2 IH]; cbn; [done|]. by rewrite HF, IH.
Qed.

(** Replacing the element at [i] changes the number of elements a
    test accepts by the tests of the old and the new element. *)
Lemma filter_insert_count {A} (f : A -> bool) (l : list A) i x y :
  l !! i = Some x ->
  length (List.filter f (<[i := y]> l)) + Nat.b2n (f x) = length (List.filter f l) + Nat.b2n (f y).
Proof.
  induction l as [|a l IH] in i |- *; [done|]. destruct i as [|i]; cbn.
  - intros [= ->]. by destruct (f x), (f y); cbn; lia.
  - intros Hi. specialize (IH i Hi). destruct (f a); cbn; [f_equal; exact IH|exact IH].
Qed.

Lemma elem_of_filter_bool {A} (f : A -> bool) (l : list A) x :
  x ∈ List.filter f l <-> x ∈ l /\ f x = true.
Proof. rewrite !list_elem_of_In. apply filter_In. Qed.

Lemma NoDup_map_on {A B} (f : A -> B) (l : list A) :
  (forall x y, x ∈ l -> y ∈ l -> f x = f y -> x = y) -> NoDup l -> NoDup (map f l).
Proof.
  rewrite !NoDup_ListNoDup. intros Hinj Hl.
  apply Finite.Injective_map_NoDup_in; [|done].
  intros x y Hx Hy. apply Hinj; by apply list_elem_of_In.
Qed.

Lemma NoDup_filter_bool {A} (f : A -> bool) (l : list A) :
  NoDup l -> NoDup (List.filter f l).
Proof. rewrite !NoDup_ListNoDup. apply List.NoDup_filter. Qed.

(** The concatenation of lists indexed by distinct keys has no
    duplicates when each list has none and no two keys share an element. *)
Lemma NoDup_mjoin_fmap {A B} (F : A -> list B) (l : list A) :
  NoDup l -> (forall a, a ∈ l -> NoDup (F a)) ->
  (forall a1 a2 x, a1 ∈ l -> a2 ∈ l -> x ∈ F a1 -> x ∈ F a2 -> a1 = a2) ->
  NoDup (mjoin (F <$> l)).
Proof.
  induction 1 as [|a l Ha Hl IH]; intros HF Hdis; [constructor|]. cbn.
  apply NoDup_app. split_and!; [by apply HF, list_elem_of_here| |].
  - intros x Hx (y & Hy & (b & -> & Hb)%list_elem_of_fmap)%list_elem_of_join.
    assert (a = b) as -> by (eapply Hdis; eauto using list_elem_of_here, list_elem_of_further).
    contradiction.
  - apply IH; [eauto using list_elem_of_further|].
    intros a1 a2 x ? ?. eapply Hdis; by apply list_elem_of_further.
Qed.

(** Close a decidable goal on concrete data by evaluation. *)
Ltac decide_by_eval := apply (bool_decide_unpack _); vm_compute; reflexivity.

(** ** Labelled transition sequences

    [lstar step s tr s'] : from [s], steps of [step] reach [s'] and
    emit the labels [tr]; a step labelled [None] is silent. *)
Section LStar.
Context {S L : Type} (step : S -> option L -> S -> Prop).

Inductive lstar : S -> list L -> S -> Prop :=
| lstar_refl s : lstar s [] s
| lstar_silent s s' tr s'' : step s None s' -> lstar s' tr s'' -> lstar s tr s''
| lstar_label s l s' tr s'' : step s (Some l) s' -> lstar s' tr s'' -> lstar s (l :: tr) s''.

Lemma lstar_trans s1 tr1 s2 tr2 s3 :
  lstar s1 tr1 s2 -> lstar s2 tr2 s3 -> lstar s1 (tr1 ++ tr2) s3.
Proof.
  induction 1 as [s|s s' tr s'' Hs _ IH|s l s' tr s'' Hs _ IH]; intros H2; simpl.
  - exact H2.
  - eapply lstar_silent; eauto.
  - eapply lstar_label; eauto.
Qed.
End LStar.
#[export] Hint Constructors lstar : cwas.

Lemma insert_Permutation {A} (l : list A) i x y :
  l !! i = Some x -> <[i:=y]> l ≡ₚ y :: delete i l.
Proof.
  intros H. assert (i < length l) by (by eapply lookup_lt_Some).
  rewrite insert_take_drop, delete_take_drop by done. by rewrite <- Permutation_middle.
Qed.

(** Induction on a natural-number measure. *)
Lemma measure_ind {A} (m : A -> nat) (P : A -> Prop) :
  (forall x, (forall y, m y < m x -> P y) -> P x) -> forall x, P x.
Proof. intros H. apply (well_founded_induction (well_founded_ltof A m)). exact H. Qed.
