(* ===== verification/PyStr.v ===== *)
(** Python [str] operations the scripts rely on: the code-point order
    used by [sorted], [str.endswith]/[str.startswith] (the [fnmatch]
    pattern ["*.vcf"] and the hidden-file test of [glob]), and
    [str.replace].  Strings are byte strings ([String.string]); the
    order of Python's [str] on code points is the order of
    [Ascii.N_of_ascii] on these characters. *)

From stdpp Require Import base list strings sorting.
From Stdlib Require Import ZArith String Ascii.
From S2P Require Import Prelude.

(* stdpp makes [String.append] opaque to [simpl]; the proofs here compute with it. *)
#[local] Arguments String.append : simpl nomatch.

Local Open Scope string_scope.

Module PyStr.

(** [a <= b] on Python strings: lexicographic on code points, a proper
    prefix is smaller ([unicode_compare] in CPython). *)
Fixpoint str_leb (a b : string) : bool :=
  match a, b with
  | EmptyString, _ => true
  | String _ _, EmptyString => false
  | String x a', String y b' =>
      if Ascii.eqb x y then str_leb a' b'
      else (N_of_ascii x <? N_of_ascii y)%N
  end.

Definition str_le (a b : string) : Prop := str_leb a b = true.

#[export] Instance str_le_dec : RelDecision str_le :=
  fun a b => decide (str_leb a b = true).

Lemma N_of_ascii_inj x y : N_of_ascii x = N_of_ascii y -> x = y.
Proof.
  intros H. rewrite <- (ascii_N_embedding x), <- (ascii_N_embedding y), H.
  reflexivity.
Qed.

(** Case analysis on the character comparison of [str_leb]. *)
Ltac char_cases x y :=
  destruct (Ascii.eqb_spec x y); subst;
  [rewrite ?Ascii.eqb_refl | rewrite ?(proj2 (Ascii.eqb_neq x y)) by done].

Lemma str_leb_refl a : str_leb a a = true.
Proof. induction a as [|x a IH]; simpl; [done|]. by rewrite Ascii.eqb_refl. Qed.

Lemma str_leb_antisym a b : str_leb a b = true -> str_leb b a = true -> a = b.
Proof.
  revert b; induction a as [|x a IH]; intros [|y b]; simpl; try done.
  char_cases x y.
  - intros H1 H2. f_equal. by apply IH.
  - rewrite (proj2 (Ascii.eqb_neq y x)) by congruence.
    rewrite !N.ltb_lt. lia.
Qed.

Lemma str_leb_trans a b c :
  str_leb a b = true -> str_leb b c = true -> str_leb a c = true.
Proof.
  revert b c; induction a as [|x a IH]; intros [|y b] [|z c]; simpl; try done.
  destruct (Ascii.eqb_spec x y), (Ascii.eqb_spec y z), (Ascii.eqb_spec x z);
    subst; rewrite ?N.ltb_lt; try done; try (by eauto); try congruence; lia.
Qed.

Lemma str_leb_total a b : str_leb a b = true \/ str_leb b a = true.
Proof.
  revert b; induction a as [|x a IH]; intros [|y b]; simpl; auto.
  char_cases x y; [by apply IH|].
  rewrite (proj2 (Ascii.eqb_neq y x)) by congruence.
  rewrite !N.ltb_lt.
  destruct (N.lt_trichotomy (N_of_ascii x) (N_of_ascii y)) as [?|[E|?]]; auto.
  apply N_of_ascii_inj in E. congruence.
Qed.

#[export] Instance str_le_refl : Reflexive str_le := str_leb_refl.
#[export] Instance str_le_trans : Transitive str_le.
Proof. intros a b c. apply str_leb_trans. Qed.
#[export] Instance str_le_antisym : AntiSymm eq str_le.
Proof. intros a b. apply str_leb_antisym. Qed.
#[export] Instance str_le_total : Total str_le.
Proof. intros a b. apply str_leb_total. Qed.

(** ** Substring tests *)

(** [s.startswith(pre)]. *)
Definition startswith (s pre : string) : bool := String.prefix pre s.

(** [s.endswith(suf)]. *)
Fixpoint endswith (s suf : string) : bool :=
  String.eqb s suf ||
  match s with
  | EmptyString => false
  | String _ s' => endswith s' suf
  end.

(** [sub in s]. *)
Fixpoint contains (s sub : string) : bool :=
  String.prefix sub s ||
  match s with
  | EmptyString => false
  | String _ s' => contains s' sub
  end.

(** ** [str.replace(old, new)]

    CPython replaces every occurrence of [old], scanning left to right
    and never overlapping two occurrences.  [replace_from old new k s]
    is that scan on [s] when the first [k] characters of [s] still
    belong to the occurrence just replaced. *)
Fixpoint replace_from (old new : string) (skip : nat) (s : string) : string :=
  match s with
  | EmptyString => EmptyString
  | String c s' =>
      match skip with
      | S k => replace_from old new k s'
      | O =>
          if String.prefix old s
          then new ++ replace_from old new (String.length old - 1) s'
          else String c (replace_from old new 0 s')
      end
  end.

(** With an empty [old], CPython inserts [new] before every character
    and at the end. *)
Fixpoint replace_empty (new s : string) : string :=
  match s with
  | EmptyString => new
  | String c s' => new ++ String c (replace_empty new s')
  end.

Definition py_replace (s old new : string) : string :=
  if String.eqb old "" then replace_empty new s else replace_from old new 0 s.

(** ** Lemmas on the substring tests *)

Lemma endswith_iff s suf : endswith s suf = true <-> exists stem, s = (stem ++ suf)%string.
Proof.
  induction s as [|c s IH]; cbn -[String.eqb]; rewrite orb_true_iff, String.eqb_eq.
  - split; [intros [<-|?]; [by exists ""|done]|].
    intros [[|x stem] Hs]; [by left|discriminate].
  - rewrite IH. split.
    + intros [<-|[stem ->]]; [by exists ""|by exists (String c stem)].
    + intros [[|x stem] Hs]; [by left|]. injection Hs as -> ->. right; eauto.
Qed.

Lemma contains_iff s sub :
  contains s sub = true <-> exists a b, s = (a ++ sub ++ b)%string.
Proof.
  induction s as [|c s IH]; cbn -[String.prefix]; rewrite orb_true_iff, prefix_iff.
  - split; [intros [[r Hr]|?]; [by exists "", r|done]|].
    intros [[|x a] [b Hs]]; [left; by exists b|discriminate].
  - rewrite IH. split.
    + intros [[r Hr]|[a [b ->]]]; [by exists "", r|by exists (String c a), b].
    + intros [[|x a] [b Hs]]; [left; by exists b|].
      injection Hs as -> ->. right; eauto.
Qed.

(** ** Lemmas on [replace_from] *)
Lemma replace_from_cons old new c s :
  replace_from old new 0 (String c s) =
  if String.prefix old (String c s)
  then (new ++ replace_from old new (String.length old - 1) s)%string
  else String c (replace_from old new 0 s).
Proof. reflexivity. Qed.

Lemma replace_from_skip old new x s :
  replace_from old new (String.length x) (x ++ s) = replace_from old new 0 s.
Proof. induction x; simpl; auto. Qed.

Lemma replace_from_old old new s :
  old <> EmptyString ->
  replace_from old new 0 (old ++ s) = (new ++ replace_from old new 0 s)%string.
Proof.
  intros Hne.
  assert (Hp : String.prefix old (old ++ s) = true) by (apply prefix_iff; eauto).
  destruct old as [|c o]; [done|].
  cbn -[String.prefix] in Hp |- *. rewrite Hp, Nat.sub_0_r.
  by rewrite replace_from_skip.
Qed.

(** No occurrence of [old] starts inside [s1]: the scan copies [s1]. *)
Lemma replace_from_app_copy old new s1 s2 :
  (forall t u, s1 = (t ++ u)%string -> u <> EmptyString ->
               String.prefix old (u ++ s2) = false) ->
  replace_from old new 0 (s1 ++ s2) = (s1 ++ replace_from old new 0 s2)%string.
Proof.
  induction s1 as [|c s1 IH]; intros Hno; [done|].
  assert (Hc := Hno "" (String c s1) eq_refl ltac:(done)).
  cbn -[String.prefix replace_from] in Hc |- *.
  rewrite replace_from_cons, Hc. f_equal.
  apply IH. intros t u -> Hu. by apply (Hno (String c t) u).
Qed.

Lemma replace_from_nomatch old new s :
  contains s old = false -> replace_from old new 0 s = s.
Proof.
  intros Hc. rewrite <- (str_app_nil_r s) at 1.
  rewrite replace_from_app_copy; [by rewrite str_app_nil_r|].
  intros t u -> Hu. rewrite str_app_nil_r.
  destruct (String.prefix old u) eqn:Hp; [|done].
  apply prefix_iff in Hp as [r ->].
  assert (contains (t ++ old ++ r) old = true) as Hin
    by (apply contains_iff; eauto).
  congruence.
Qed.

(** [old] has no proper suffix that is also a prefix of it (no border),
    so two occurrences of [old] can never overlap.  True of [".vcf"]. *)
Definition unbordered (old : string) : Prop :=
  forall t u, t <> EmptyString -> u <> EmptyString -> old = (t ++ u)%string ->
              String.prefix u old = false.

Lemma prefix_of_app_shorter (m old s2 r : string) :
  (old ++ s2 = m ++ r)%string -> String.length m < String.length old ->
  String.prefix m old = true.
Proof.
  intros E Hlt. apply prefix_iff.
  destruct (str_app_eq_app _ _ _ _ E) as [[m' [Hm _]]|[m' [Ho _]]].
  - subst m. rewrite str_length_app in Hlt. lia.
  - by exists m'.
Qed.

(** An occurrence of [old] right after a stem free of [old] is the
    first one the scan meets, when [old] is unbordered. *)
Lemma replace_from_stem old new stem s2 :
  unbordered old -> old <> EmptyString -> contains stem old = false ->
  replace_from old new 0 (stem ++ old ++ s2) =
  (stem ++ new ++ replace_from old new 0 s2)%string.
Proof.
  intros Hub Hne Hc.
  rewrite replace_from_app_copy; [by rewrite replace_from_old|].
  intros t u -> Hu. destruct (String.prefix old (u ++ old ++ s2)) eqn:Hp; [|done].
  apply prefix_iff in Hp as [r Hr].
  destruct (str_app_eq_app _ _ _ _ Hr) as [[m [Ho Hm]]|[m [-> _]]].
  - destruct m as [|x m].
    + rewrite str_app_nil_r in Ho. subst u.
      assert (contains (t ++ old) old = true)
        by (apply contains_iff; exists t, ""; by rewrite str_app_nil_r).
      congruence.
    + assert (String.prefix (String x m) old = true) as Hb.
      { eapply prefix_of_app_shorter; [exact Hm|].
        rewrite Ho, str_length_app. destruct u; [done|]. simpl; lia. }
      by rewrite (Hub u (String x m)) in Hb.
  - assert (contains (t ++ old ++ m) old = true) by (apply contains_iff; eauto).
    congruence.
Qed.

End PyStr.
