(* ===== verification/PyPath.v ===== *)
(** The [posixpath] functions the scripts call: [os.path.basename]
    (building output names), [os.path.join] and [os.path.split] (inside
    [glob]).  Each follows CPython's [Lib/posixpath.py]. *)

From stdpp Require Import base list strings.
From Stdlib Require Import ZArith String Ascii.
From S2P Require Import Prelude PyStr.

(* stdpp makes [String.append] opaque to [simpl]; the proofs here compute with it. *)
#[local] Arguments String.append : simpl nomatch.

Local Open Scope string_scope.

Module PyPath.
Import PyStr.

Definition sep : string := "/".

(** [os.path.basename(p)] is [p[p.rfind('/') + 1:]]: the part after
    the last separator. *)
Fixpoint basename (p : string) : string :=
  match p with
  | EmptyString => EmptyString
  | String c p' =>
      if contains p' sep then basename p'
      else if Ascii.eqb c "/" then p' else p
  end.

(** [p[:p.rfind('/') + 1]]: everything up to and including the last
    separator. *)
Fixpoint dirhead (p : string) : string :=
  match p with
  | EmptyString => EmptyString
  | String c p' =>
      if contains p' sep then String c (dirhead p')
      else if Ascii.eqb c "/" then sep else EmptyString
  end.

(** [s.rstrip('/')]. *)
Fixpoint rstrip_sep (s : string) : string :=
  match s with
  | EmptyString => EmptyString
  | String c s' =>
      let r := rstrip_sep s' in
      if String.eqb r "" && Ascii.eqb c "/" then EmptyString else String c r
  end.

(** [head == '/' * len(head)]. *)
Fixpoint all_sep (s : string) : bool :=
  match s with
  | EmptyString => true
  | String c s' => Ascii.eqb c "/" && all_sep s'
  end.

(** [os.path.split(p)]: trailing separators are stripped from the head
    unless the head consists of separators only. *)
Definition split (p : string) : string * string :=
  let head := dirhead p in
  let head := if negb (String.eqb head "") && negb (all_sep head)
              then rstrip_sep head else head in
  (head, basename p).

(** [os.path.join(a, b)]. *)
Definition join (a b : string) : string :=
  if startswith b sep then b
  else if String.eqb a "" || endswith a sep then a ++ b
  else a ++ sep ++ b.

(** ** Lemmas *)

(** A directory entry never contains the separator. *)
Definition entry_name (n : string) : Prop := contains n sep = false.

Lemma entry_name_cons c n : entry_name (String c n) -> Ascii.eqb c "/" = false /\ entry_name n.
Proof.
  unfold entry_name. cbn -[String.prefix]. rewrite orb_false_iff.
  intros [Hp Hc]. split; [|done].
  destruct (Ascii.eqb_spec c "/") as [->|]; [by destruct n|reflexivity].
Qed.

Lemma basename_cons c p :
  basename (String c p) =
  if contains p sep then basename p else if Ascii.eqb c "/" then p else String c p.
Proof. reflexivity. Qed.

Lemma basename_entry n : entry_name n -> basename n = n.
Proof.
  destruct n as [|c n]; [done|]. intros H. simpl.
  destruct (entry_name_cons c n H) as [-> Hn]. by rewrite Hn.
Qed.

Lemma contains_sep_app x n : contains (x ++ sep ++ n) sep = true.
Proof. apply contains_iff. by exists x, n. Qed.

Lemma basename_sep_app x n : entry_name n -> basename (x ++ sep ++ n) = n.
Proof.
  intros Hn. induction x as [|c x IH].
  - simpl. by rewrite Hn.
  - cbn [String.append]. by rewrite basename_cons, contains_sep_app.
Qed.

Lemma startswith_entry n : entry_name n -> startswith n sep = false.
Proof.
  unfold startswith. destruct n as [|c n]; [done|].
  intros H. destruct (entry_name_cons c n H) as [Hc _].
  unfold sep. cbn [String.prefix].
  destruct (Ascii.ascii_dec "/" c) as [<-|]; [by rewrite Ascii.eqb_refl in Hc|done].
Qed.

(** [os.path.join(d, n)] puts [n] after [d] and at most one separator. *)
Lemma join_entry d n :
  entry_name n ->
  exists pre, join d n = (pre ++ n)%string /\ (pre = d \/ pre = d ++ sep)%string.
Proof.
  intros Hn. unfold join. rewrite startswith_entry by done.
  destruct (String.eqb d "" || endswith d sep).
  - exists d. auto.
  - exists (d ++ sep)%string. rewrite str_app_assoc. auto.
Qed.

Lemma basename_join d n : entry_name n -> basename (join d n) = n.
Proof.
  intros Hn. unfold join. rewrite startswith_entry by done.
  destruct (String.eqb_spec d "") as [->|Hd]; simpl; [by apply basename_entry|].
  destruct (endswith d sep) eqn:He.
  - apply endswith_iff in He as [d' ->].
    rewrite str_app_assoc. by apply basename_sep_app.
  - by apply basename_sep_app.
Qed.

Lemma join_inj d n1 n2 :
  entry_name n1 -> entry_name n2 -> join d n1 = join d n2 -> n1 = n2.
Proof.
  intros H1 H2. unfold join. rewrite !startswith_entry by done.
  destruct (String.eqb d "" || endswith d sep); intros E.
  - by apply str_app_inv_l in E.
  - apply str_app_inv_l in E. by apply str_app_inv_l in E.
Qed.

(** ** The head of [os.path.split] *)

Lemma dirhead_sep_app x n : entry_name n -> dirhead (x ++ sep ++ n) = (x ++ sep)%string.
Proof.
  intros Hn. induction x as [|c x IH]; cbn [String.append dirhead].
  - unfold entry_name in Hn. cbn. by rewrite Hn.
  - by rewrite contains_sep_app, IH.
Qed.

Lemma dirhead_prefix p : exists r, p = (dirhead p ++ r)%string.
Proof.
  induction p as [|c p [r Hr]]; [by exists ""|]. cbn [dirhead].
  destruct (contains p sep); [exists r; cbn; by f_equal|].
  destruct (Ascii.eqb_spec c "/") as [->|]; [by exists p|by exists (String c p)].
Qed.

Lemma rstrip_sep_prefix s : exists r, s = (rstrip_sep s ++ r)%string.
Proof.
  induction s as [|c s [r Hr]]; [by exists ""|]. cbn [rstrip_sep].
  destruct (String.eqb (rstrip_sep s) "" && Ascii.eqb c "/"); [by exists (String c s)|].
  exists r. cbn. by f_equal.
Qed.

Lemma rstrip_sep_nil s : rstrip_sep s = "" -> all_sep s = true.
Proof.
  induction s as [|c s IH]; [done|]. cbn [rstrip_sep all_sep].
  destruct (String.eqb_spec (rstrip_sep s) "") as [E|]; cbn.
  - destruct (Ascii.eqb c "/"); [|done]. intros _. by apply IH.
  - done.
Qed.

(** The head [os.path.split] gives is a prefix of the path, so a
    head other than the path is shorter. *)
Lemma split_fst_prefix p : exists r, p = (fst (split p) ++ r)%string.
Proof.
  unfold split. cbn [fst]. destruct (dirhead_prefix p) as [r Hr].
  destruct (negb (String.eqb (dirhead p) "") && negb (all_sep (dirhead p))); [|by exists r].
  destruct (rstrip_sep_prefix (dirhead p)) as [r' Hr']. exists (r' ++ r)%string.
  by rewrite <- str_app_assoc, <- Hr'.
Qed.

Lemma split_sep_app x n :
  entry_name n -> split (x ++ sep ++ n) = (fst (split (x ++ sep ++ n)), n) /\
  fst (split (x ++ sep ++ n)) <> "".
Proof.
  intros Hn. unfold split. rewrite basename_sep_app, dirhead_sep_app by done. split; [done|].
  cbn [fst]. destruct (String.eqb_spec (x ++ sep) "") as [E|Hne].
  { destruct x; discriminate. }
  destruct (all_sep (x ++ sep)) eqn:Ha; cbn; [done|].
  intros E. apply rstrip_sep_nil in E. congruence.
Qed.

(** ** Paths that do not end with a separator *)

Lemma endswith_cons_sep c r : r <> "" -> endswith (String c r) sep = endswith r sep.
Proof.
  intros Hr. destruct r as [|a r]; [done|]. cbn [endswith].
  replace (String.eqb (String c (String a r)) sep) with false; [done|].
  symmetry. apply String.eqb_neq. unfold sep. congruence.
Qed.

Lemma rstrip_sep_end s : endswith (rstrip_sep s) sep = false.
Proof.
  induction s as [|c s IH]; [done|]. cbn [rstrip_sep].
  destruct (String.eqb_spec (rstrip_sep s) "") as [E|Hne]; cbn [andb].
  - destruct (Ascii.eqb_spec c "/") as [->|Hc]; [done|]. rewrite E. cbn.
    destruct (Ascii.eqb_spec c "/"); [done|]. reflexivity.
  - rewrite endswith_cons_sep by done. exact IH.
Qed.

Lemma all_sep_magic_free s : all_sep s = true -> forall c, c ∈ list_ascii_of_string s -> c = "/"%char.
Proof.
  induction s as [|x s IH]; cbn; [intros _ c Hc; by apply elem_of_nil in Hc|].
  rewrite andb_true_iff. intros [Hx Hs] c [->|Hc]%elem_of_cons; [by apply Ascii.eqb_eq|auto].
Qed.

(** The head [os.path.split] gives, when it is not empty and not all
    separators, does not end with a separator. *)
Lemma split_fst_end p :
  fst (split p) <> "" -> all_sep (fst (split p)) = false -> endswith (fst (split p)) sep = false.
Proof.
  unfold split. cbn [fst].
  destruct (String.eqb_spec (dirhead p) "") as [E|Hne]; cbn [negb andb]; [by rewrite E|].
  destruct (all_sep (dirhead p)) eqn:Ha; cbn [negb andb]; [intros _ Hf; by rewrite Ha in Hf|].
  intros _ _. apply rstrip_sep_end.
Qed.

Lemma endswith_entry_app x n : n <> "" -> entry_name n -> endswith (x ++ n) sep = false.
Proof.
  intros Hn He. destruct (endswith (x ++ n) sep) eqn:E; [|done]. exfalso.
  apply endswith_iff in E as [stem E].
  destruct (str_app_eq_app _ _ _ _ E) as [[m [_ ->]]|[m [_ Hm]]].
  - assert (contains (m ++ sep) sep = true) by (apply contains_iff; by exists m, "").
    unfold entry_name in He. congruence.
  - destruct m as [|a m].
    + cbn in Hm. subst n. vm_compute in He. discriminate.
    + unfold sep in Hm. cbn in Hm. injection Hm as _ Hm. destruct m, n; done.
Qed.

(** [os.path.join(d, n)] for a name [n]: it ends with [n]. *)
Lemma join_end d n : n <> "" -> entry_name n -> endswith (join d n) sep = false /\ join d n <> "".
Proof.
  intros Hn He. unfold join. rewrite startswith_entry by done.
  destruct (String.eqb d "" || endswith d sep).
  - split; [by apply endswith_entry_app|]. destruct d, n; done.
  - split; [rewrite <- str_app_assoc; by apply endswith_entry_app|]. by destruct d.
Qed.

Lemma join_plain d n :
  d <> "" -> endswith d sep = false -> entry_name n -> join d n = (d ++ sep ++ n)%string.
Proof.
  intros Hd He Hn. unfold join. rewrite startswith_entry, He by done.
  by destruct (String.eqb_spec d "").
Qed.

Lemma basename_nil x : basename x = "" -> x = "" \/ endswith x sep = true.
Proof.
  induction x as [|c x IH]; [by left|]. rewrite basename_cons.
  destruct (contains x sep) eqn:Hc.
  - intros Hb. right. destruct (IH Hb) as [->|Hx]; [done|]. cbn [endswith]. by rewrite Hx, orb_true_r.
  - destruct (Ascii.eqb_spec c "/") as [->|]; intros Hb; [|done]. subst x. right. reflexivity.
Qed.

Lemma basename_entry_name p : entry_name (basename p).
Proof.
  induction p as [|c p IH]; [done|]. rewrite basename_cons.
  destruct (contains p sep) eqn:Hc; [done|].
  destruct (Ascii.eqb_spec c "/") as [|Hne]; [done|]. unfold entry_name.
  cbn -[String.prefix]. rewrite Hc, orb_false_r. unfold sep. cbn [String.prefix].
  by destruct (Ascii.ascii_dec "/" c) as [<-|].
Qed.

(** A path with a base name is not empty and does not end with a separator. *)
Lemma basename_plain p : basename p <> "" -> p <> "" /\ endswith p sep = false.
Proof.
  intros Hb. split; [by intros ->|].
  destruct (endswith p sep) eqn:E; [|done]. exfalso. apply Hb.
  apply endswith_iff in E as [x ->]. by apply (basename_sep_app x "").
Qed.

End PyPath.
