(* ===== verification/PyGlob.v ===== *)
(** [glob.glob] and [fnmatch.fnmatch] of CPython 3.11 on POSIX, as
    [sorted(glob(f'{args.in_dir}/*.vcf'))] calls them (line 40 of
    [src/scripts/annotate_mp.py], line 38 of [categorize_mp.py]).

    [fnmatch] follows [fnmatch.translate] step by step, down to the
    way it cuts a bracket expression into chunks at its hyphens and
    drops empty ranges, and the way [re] then reads the class it
    builds.  [glob] is [_iglob] with its recursion on a directory part
    that holds wildcards, [_glob1], [_glob0] and [_listdir] over a file
    system given as the listing of each directory. *)

From Stdlib Require Import String Ascii Lia.
From stdpp Require Import base list strings gmap.
From S2P Require Import Prelude PyStr PyPath.

#[local] Arguments String.append : simpl nomatch.

Module PyGlob.
Import PyStr PyPath.

(** ** [fnmatch] *)

(** [magic_check = re.compile('([*?[])')]. *)
Definition is_magic (c : ascii) : bool :=
  bool_decide (c = "*"%char) || bool_decide (c = "?"%char) || bool_decide (c = "["%char).

(** [has_magic(s)]. *)
Definition has_magic (s : string) : bool := existsb is_magic (list_ascii_of_string s).

(** The pieces of the regular expression [fnmatch.translate] builds. *)
Inductive ptok :=
| PStar                                        (** [*]: [.*] *)
| PAny                                         (** [?], or the class [[!]]: [.] *)
| PNever                                       (** an empty class: [(?!)] *)
| PLit (c : ascii)                             (** [re.escape(c)] *)
| PClass (neg : bool) (items : list (ascii * ascii)). (** [[...]], as ranges [lo-hi] *)

#[export] Instance ptok_eq_dec : EqDecision ptok.
Proof. solve_decision. Defined.

(** The text of a class as [re] reads it: a character, or an unescaped
    hyphen, which [translate] writes only between two chunks. *)
Inductive ctok := CChar (c : ascii) | CRange.

#[export] Instance ctok_eq_dec : EqDecision ctok.
Proof. solve_decision. Defined.

(** [pat.find(c, k)] on a list: the first index [>= k] holding [c]. *)
Fixpoint find_from (c : ascii) (k : nat) (l : list ascii) : option nat :=
  match l with
  | [] => None
  | x :: r =>
      match k with
      | S k' => S <$> find_from c k' r
      | O => if bool_decide (x = c) then Some 0 else S <$> find_from c 0 r
      end
  end.

(** The loop [k = pat.find('-', k, j); chunks.append(pat[i:k]);
    i = k+1; k = k+3]: the chunks before each hyphen found, and the
    text after the last one.  Each round drops a character. *)
Fixpoint chunks_go (fuel : nat) (cur : list ascii) (skip : nat) : list (list ascii) * list ascii :=
  match fuel with
  | O => ([], cur)
  | S f =>
      match find_from "-" skip cur with
      | Some k => let '(cs, rest) := chunks_go f (drop (S k) cur) 2 in (take k cur :: cs, rest)
      | None => ([], cur)
      end
  end.

(** The chunks of a class text [stuff] (at least one hyphen in it):
    the search starts after the first character, or after [!] and the
    next; an empty last chunk adds its hyphen to the chunk before. *)
Definition class_chunks (stuff : list ascii) : list (list ascii) :=
  let skip := if bool_decide (head stuff = Some "!"%char) then 2 else 1 in
  let '(cs, rest) := chunks_go (length stuff) stuff skip in
  match rest with
  | [] => match cs with
          | [] => [["-"%char]]
          | _ => removelast cs ++ [List.last cs [] ++ ["-"%char]]
          end
  | _ => cs ++ [rest]
  end.

(** [for k in range(len(chunks)-1, 0, -1): if chunks[k-1][-1] >
    chunks[k][0]: chunks[k-1] = chunks[k-1][:-1] + chunks[k][1:];
    del chunks[k]], from the right. *)
Fixpoint remove_empty (cs : list (list ascii)) : list (list ascii) :=
  match cs with
  | [] => []
  | c :: r =>
      match remove_empty r with
      | [] => [c]
      | d :: r' =>
          match head (reverse c), head d with
          | Some x, Some y =>
              if bool_decide (N_of_ascii y < N_of_ascii x)%N
              then (removelast c ++ tail d) :: r' else c :: d :: r'
          | _, _ => c :: d :: r'
          end
      end
  end.

(** ['-'.join(chunks)], the hyphens unescaped. *)
Fixpoint join_range (cs : list (list ascii)) : list ctok :=
  match cs with
  | [] => []
  | [c] => CChar <$> c
  | c :: r => (CChar <$> c) ++ CRange :: join_range r
  end.

Definition class_ctoks (stuff : list ascii) : list ctok :=
  if bool_decide ("-"%char ∈ stuff) then join_range (remove_empty (class_chunks stuff))
  else CChar <$> stuff.

Definition ctok_char (t : ctok) : ascii := match t with CChar c => c | CRange => "-"%char end.

(** [re]'s reading of a class: [x-y] is a range, a hyphen elsewhere
    is itself, and a hyphen before the closing bracket too. *)
Fixpoint class_items (ts : list ctok) : list (ascii * ascii) :=
  match ts with
  | [] => []
  | t :: CRange :: t' :: r => (ctok_char t, ctok_char t') :: class_items r
  | [t; CRange] => [(ctok_char t, ctok_char t); ("-"%char, "-"%char)]
  | t :: r => (ctok_char t, ctok_char t) :: class_items r
  end.

(** [if not stuff: add('(?!)')], [elif stuff == '!': add('.')], a
    leading [!] negates. *)
Definition class_tok (stuff : list ascii) : ptok :=
  match class_ctoks stuff with
  | [] => PNever
  | t :: r =>
      if bool_decide (t = CChar "!"%char) then
        match r with [] => PAny | _ => PClass true (class_items r) end
      else PClass false (class_items (t :: r))
  end.

(** The text after [[] up to the closing bracket, and what follows it:
    a [!] and then a [] right after the bracket belong to the class. *)
Definition bracket_end (r : list ascii) : option (list ascii * list ascii) :=
  let j0 := if bool_decide (head r = Some "!"%char) then 1 else 0 in
  let j1 := if bool_decide (r !! j0 = Some "]"%char) then S j0 else j0 in
  (fun j => (take j r, drop (S j) r)) <$> find_from "]" j1 r.

(** [fnmatch.translate(pat)], one character or bracket expression at
    a time ([*] runs are not merged: [.*.*] and [.*] match alike). *)
Fixpoint translate (fuel : nat) (p : list ascii) : list ptok :=
  match fuel, p with
  | O, _ | _, [] => []
  | S f, c :: r =>
      if bool_decide (c = "*"%char) then PStar :: translate f r
      else if bool_decide (c = "?"%char) then PAny :: translate f r
      else if bool_decide (c = "["%char) then
        match bracket_end r with
        | Some (stuff, r') => class_tok stuff :: translate f r'
        | None => PLit "["%char :: translate f r
        end
      else PLit c :: translate f r
  end.

Definition tok_ok (t : ptok) (c : ascii) : bool :=
  match t with
  | PStar | PAny => true
  | PNever => false
  | PLit d => bool_decide (c = d)
  | PClass neg items =>
      xorb neg (existsb (fun '(lo, hi) =>
                  bool_decide (N_of_ascii lo <= N_of_ascii c <= N_of_ascii hi)%N) items)
  end.

(** [re.match] of the translated pattern, anchored at both ends. *)
Fixpoint pmatch (ts : list ptok) (s : list ascii) {struct ts} : bool :=
  match ts with
  | [] => bool_decide (s = [])
  | PStar :: ts' =>
      (fix star (s : list ascii) : bool :=
         pmatch ts' s || match s with [] => false | _ :: s' => star s' end) s
  | t :: ts' =>
      match s with
      | [] => false
      | c :: s' => tok_ok t c && pmatch ts' s'
      end
  end.

(** [fnmatch.fnmatch(name, pat)] ([os.path.normcase] is the identity
    on POSIX). *)
Definition fnmatch (name pat : string) : bool :=
  pmatch (translate (String.length pat) (list_ascii_of_string pat)) (list_ascii_of_string name).

(** ** Lemmas on [fnmatch] *)

Lemma list_ascii_of_string_app (a b : string) :
  list_ascii_of_string (a ++ b)%string = list_ascii_of_string a ++ list_ascii_of_string b.
Proof. induction a as [|c a IH]; simpl; [done|]. by rewrite IH. Qed.

(** A pattern without wildcards translates to its characters. *)
Lemma translate_lits f l :
  length l <= f -> forallb (fun c => negb (is_magic c)) l = true -> translate f l = PLit <$> l.
Proof.
  induction l as [|c l IH] in f |- *; intros Hf Hm; destruct f as [|f]; cbn in *; try done; [lia|].
  apply andb_prop in Hm as [Hc Hm]. unfold is_magic in Hc.
  repeat (case_bool_decide; [subst c; by vm_compute in Hc|]). rewrite IH by (done || lia). done.
Qed.

(** [*] unfolds into: the rest here, or one character consumed. *)
Lemma pmatch_star ts s :
  pmatch (PStar :: ts) s = pmatch ts s || match s with [] => false | _ :: s' => pmatch (PStar :: ts) s' end.
Proof. by destruct s. Qed.

Lemma pmatch_lits l s : pmatch (PLit <$> l) s = bool_decide (s = l).
Proof.
  induction l as [|c l IH] in s |- *; destruct s as [|x s]; cbn; try done.
  rewrite IH. repeat case_bool_decide; naive_solver.
Qed.

Lemma pmatch_star_lits l s : pmatch (PStar :: (PLit <$> l)) s = true <-> exists pre, s = pre ++ l.
Proof.
  induction s as [|x s IH]; rewrite pmatch_star, orb_true_iff, pmatch_lits, bool_decide_eq_true.
  - split; [intros [E|E]; [subst; by exists []|done]|]. intros [[|? pre] E]; [by left|done].
  - rewrite IH. split.
    + intros [->|(pre & ->)]; [by exists []|by exists (x :: pre)].
    + intros [[|y pre] E]; [by left|]. injection E as -> ->. right. eauto.
Qed.

Lemma has_magic_false s :
  has_magic s = false -> forallb (fun c => negb (is_magic c)) (list_ascii_of_string s) = true.
Proof.
  unfold has_magic. induction (list_ascii_of_string s) as [|c l IH]; cbn; [done|].
  destruct (is_magic c); cbn; [done|]. exact IH.
Qed.

Lemma length_list_ascii_of_string s : length (list_ascii_of_string s) = String.length s.
Proof. induction s as [|c s IH]; cbn; [done|]. by rewrite IH. Qed.

Lemma list_ascii_of_string_inj a b : list_ascii_of_string a = list_ascii_of_string b -> a = b.
Proof.
  intros E. by rewrite <- (string_of_list_ascii_of_string a), E, string_of_list_ascii_of_string.
Qed.

Lemma fnmatch_star_lit n s : has_magic s = false -> fnmatch n ("*" ++ s) = endswith n s.
Proof.
  intros Hm. unfold fnmatch. rewrite list_ascii_of_string_app. cbn [String.length String.append].
  cbn [list_ascii_of_string app translate]. rewrite bool_decide_true by done.
  rewrite translate_lits; [|rewrite length_list_ascii_of_string; lia|by apply has_magic_false].
  apply Bool.eq_true_iff_eq. rewrite pmatch_star_lits, endswith_iff. split.
  - intros [pre E]. exists (string_of_list_ascii pre). apply list_ascii_of_string_inj.
    by rewrite list_ascii_of_string_app, list_ascii_of_string_of_list_ascii.
  - intros [stem ->]. exists (list_ascii_of_string stem). by rewrite list_ascii_of_string_app.
Qed.

(** A star-free pattern of literals then one token matches the
    literals and one character that token accepts. *)
Lemma pmatch_lits_last l t s :
  t <> PStar -> pmatch ((PLit <$> l) ++ [t]) s = true ->
  exists c, s = l ++ [c] /\ tok_ok t c = true.
Proof.
  intros Ht. induction l as [|x l IH] in s |- *; destruct s as [|y s]; cbn.
  - by destruct t.
  - destruct t; try done; (rewrite andb_true_iff, bool_decide_eq_true; intros [Hc ->]; by exists y).
  - done.
  - rewrite andb_true_iff, bool_decide_eq_true. intros [-> Hs].
    destruct (IH s Hs) as (c & -> & Hc). by exists c.
Qed.

(** C37: [fnmatch(n, '*' + s)] for a suffix [s] without wildcards is
    [n.endswith(s)]: the [*.vcf] of the scripts keeps exactly the names
    ending in [.vcf]. *)
Theorem fnmatch_star_literal n s : has_magic s = false -> fnmatch n ("*" ++ s) = endswith n s.
Proof. apply fnmatch_star_lit. Qed.

Example fnmatch_star_literal_witness : fnmatch "a.vcf" ("*" ++ ".vcf") = endswith "a.vcf" ".vcf".
Proof. apply fnmatch_star_literal. reflexivity. Defined.

(** ** [glob] *)

(** The directories of the file system and their entries, in the order
    [os.scandir] lists them, by path; the current directory is [""].
    A path with no listing is missing, not a directory, or
    unreadable. *)
Abbreviation FileSystem := (gmap string (list string)).

(** [os.scandir(d)]; an [OSError] yields no names. *)
Definition listdir (fs : FileSystem) (d : string) : list string :=
  match fs !! d with Some ns => ns | None => [] end.

Definition is_dir (fs : FileSystem) (p : string) : bool := bool_decide (is_Some (fs !! p)).

(** [_iterdir(dirname, None, dironly)]: with [dironly], only the
    entries that are directories ([entry.is_dir()]). *)
Definition iterdir (fs : FileSystem) (d : string) (dironly : bool) : list string :=
  if dironly then List.filter (fun n => is_dir fs (join d n)) (listdir fs d) else listdir fs d.

(** [_ishidden(path)]: [path[0] == '.']. *)
Definition is_hidden (n : string) : bool := startswith n ".".

(** [os.path.lexists(p)]: a directory, or an entry of its directory. *)
Definition lexists (fs : FileSystem) (p : string) : bool :=
  is_dir fs p || bool_decide (basename p ∈ listdir fs (fst (split p))).

(** [_join(dirname, basename)]: [dirname or basename] when one is
    empty, else [os.path.join]. *)
Definition join_ (a b : string) : string :=
  if String.eqb a "" then b else if String.eqb b "" then a else join a b.

(** [_glob1(dirname, pattern, None, dironly)]: the names [fnmatch]
    accepts, hidden names dropped unless the pattern is hidden. *)
Definition glob1 (fs : FileSystem) (d pat : string) (dironly : bool) : list string :=
  let names := iterdir fs d dironly in
  let names := if is_hidden pat then names else List.filter (fun x => negb (is_hidden x)) names in
  List.filter (fun n => fnmatch n pat) names.

(** [_glob0(dirname, basename, None, dironly)]: a literal name that
    exists, or a directory for an empty name. *)
Definition glob0 (fs : FileSystem) (d b : string) : list string :=
  if String.eqb b "" then (if is_dir fs d then [b] else [])
  else if lexists fs (join_ d b) then [b] else [].

(** [_iglob(pathname, '', None, False, dironly)]: a directory part with
    wildcards is itself globbed for directories first.  The recursion
    is on the directory part, a proper prefix of the path. *)
Fixpoint iglob (fuel : nat) (fs : FileSystem) (pathname : string) (dironly : bool) : list string :=
  match fuel with
  | O => []
  | S f =>
      let '(dirname, base) := split pathname in
      if negb (has_magic pathname) then
        if String.eqb base "" then (if is_dir fs dirname then [pathname] else [])
        else if lexists fs pathname then [pathname] else []
      else if String.eqb dirname "" then glob1 fs "" base dironly
      else
        let dirs := if negb (String.eqb dirname pathname) && has_magic dirname
                    then iglob f fs dirname true else [dirname] in
        mjoin ((fun d => join d <$> (if has_magic base then glob1 fs d base dironly
                                       else glob0 fs d base)) <$> dirs)
  end.

(** [glob.glob(pathname)]: [list(iglob(pathname))], whose first result
    is skipped when it is empty and the pattern is too. *)
Definition glob (fs : FileSystem) (pathname : string) : list string :=
  let r := iglob (S (String.length pathname)) fs pathname false in
  if String.eqb pathname "" then match r with "" :: r' => r' | _ => r end else r.

(** ** Lemmas on [glob] *)

(** The fuel of [iglob]: each recursive call is on a head of
    [os.path.split] other than the path, a proper prefix of it. *)
Lemma iglob_fuel_eq f1 f2 fs p d :
  String.length p < f1 -> String.length p < f2 -> iglob f1 fs p d = iglob f2 fs p d.
Proof.
  induction f1 as [|f1 IH] in f2, p, d |- *; intros H1 H2; [lia|]. destruct f2 as [|f2]; [lia|].
  cbn [iglob]. destruct (split_fst_prefix p) as [r Hr].
  destruct (split p) as [dn bn]. cbn [fst] in Hr.
  destruct (has_magic p), (String.eqb dn ""); try done.
  destruct (String.eqb_spec dn p) as [E|Hne]; cbn [negb andb]; [done|].
  destruct (has_magic dn); [|done].
  assert (String.length dn < String.length p).
  { rewrite Hr, str_length_app. destruct r; [by rewrite str_app_nil_r in Hr|cbn; lia]. }
  rewrite (IH f2) by lia. done.
Qed.

(** [length pathname + 1] rounds are enough for [_iglob]: with
    any more fuel it returns the same paths, so [glob] is [_iglob]
    run to completion. *)
Theorem iglob_fuel_enough f fs p d :
  String.length p < f -> iglob f fs p d = iglob (S (String.length p)) fs p d.
Proof. intros Hf. apply iglob_fuel_eq; lia. Qed.

Example iglob_fuel_enough_witness :
  iglob 50 (<["" := ["d1"; "d2"]]> (<["d1" := ["x.vcf"]]> ∅)) "d*/*.vcf" false =
  iglob (S (String.length "d*/*.vcf")) (<["" := ["d1"; "d2"]]> (<["d1" := ["x.vcf"]]> ∅)) "d*/*.vcf" false.
Proof. apply iglob_fuel_enough. cbn. lia. Defined.

(** ** Distinct results

    On a file system whose listings have no duplicates and hold names
    (non-empty, no separator), [_iglob] never yields a path twice, and
    every path it yields ends with a name. *)

Definition plain_path (x : string) : Prop := x <> "" /\ endswith x sep = false.

Definition name_ok (n : string) : Prop := n <> "" /\ entry_name n.

Lemma join_plain_inj d1 d2 n1 n2 :
  plain_path d1 -> plain_path d2 -> entry_name n1 -> entry_name n2 ->
  join d1 n1 = join d2 n2 -> d1 = d2.
Proof.
  intros [? ?] [? ?] Hn1 Hn2. rewrite !join_plain by done. intros E.
  assert (n1 = n2) as <-.
  { by rewrite <- (basename_sep_app d1 n1), <- (basename_sep_app d2 n2), E. }
  by apply str_app_inv_r in E.
Qed.

(** The head of [os.path.split] with wildcards has a base name. *)
Lemma split_fst_basename p :
  fst (split p) <> "" -> has_magic (fst (split p)) = true -> basename (fst (split p)) <> "".
Proof.
  intros Hne Hm Hb. destruct (basename_nil _ Hb) as [|He]; [done|].
  destruct (all_sep (fst (split p))) eqn:Ha.
  - unfold has_magic in Hm. apply existsb_exists in Hm as [c [Hc Hmc]].
    apply list_elem_of_In, (all_sep_magic_free _ Ha) in Hc as ->. discriminate.
  - by rewrite split_fst_end in He.
Qed.

Section Distinct.
Context (fs : FileSystem).
Context (Hnd : forall d, NoDup (listdir fs d)).
Context (Hnames : forall d, Forall name_ok (listdir fs d)).

Lemma glob1_sub d pat dm x : x ∈ glob1 fs d pat dm -> x ∈ listdir fs d.
Proof.
  unfold glob1, iterdir. intros [Hx _]%elem_of_filter_bool.
  destruct (is_hidden pat); [|apply elem_of_filter_bool in Hx as [Hx _]];
    destruct dm; try apply elem_of_filter_bool in Hx as [Hx _]; done.
Qed.

Lemma glob1_NoDup d pat dm : NoDup (glob1 fs d pat dm).
Proof.
  unfold glob1, iterdir. apply NoDup_filter_bool.
  destruct (is_hidden pat); [|apply NoDup_filter_bool]; destruct dm;
    try apply NoDup_filter_bool; apply Hnd.
Qed.

Lemma glob1_names d pat dm : Forall name_ok (glob1 fs d pat dm).
Proof.
  apply Forall_forall. intros x Hx%glob1_sub. by eapply Forall_forall; [apply Hnames|].
Qed.

(** The names [_glob1] or [_glob0] give for a base name. *)
Lemma base_names_ok d b dm :
  name_ok b ->
  let ns := if has_magic b then glob1 fs d b dm else glob0 fs d b in
  NoDup ns /\ Forall name_ok ns.
Proof.
  intros [Hb He]. cbn zeta. destruct (has_magic b); [split; auto using glob1_NoDup, glob1_names|].
  unfold glob0. rewrite (proj2 (String.eqb_neq _ _) Hb).
  destruct (lexists fs (join_ d b)); (split; [auto using NoDup_nil_2, NoDup_singleton|by repeat constructor]).
Qed.

Lemma join_names d ns :
  NoDup ns -> Forall name_ok ns -> NoDup (join d <$> ns) /\ Forall plain_path (join d <$> ns).
Proof.
  intros Hns Hok. rewrite Forall_forall in Hok. split.
  - apply NoDup_map_on; [|done]. intros x y Hx Hy. apply join_inj; [apply Hok..]; done.
  - apply Forall_fmap, Forall_forall. intros n Hn. destruct (Hok n Hn) as [H1 H2].
    destruct (join_end d n H1 H2). by split.
Qed.

Lemma iglob_distinct f p dm :
  basename p <> "" -> NoDup (iglob f fs p dm) /\ Forall plain_path (iglob f fs p dm).
Proof.
  induction f as [|f IH] in p, dm |- *; intros Hb; [split; constructor|]. cbn [iglob].
  destruct (split p) as [dn bn] eqn:Hs.
  assert (bn = basename p) as -> by (change (basename p) with (snd (split p)); by rewrite Hs).
  assert (dn = fst (split p)) as Hdn by (by rewrite Hs).
  assert (Hbn : name_ok (basename p)) by (split; [done|apply basename_entry_name]).
  destruct (has_magic p); cbn [negb].
  2: { rewrite (proj2 (String.eqb_neq _ _) Hb). destruct (lexists fs p); [|split; constructor].
       split; [apply NoDup_singleton|]. constructor; [by apply basename_plain|constructor]. }
  destruct (String.eqb_spec dn "") as [->|Hdn0].
  { split; [apply glob1_NoDup|]. eapply Forall_impl; [apply glob1_names|].
    intros n [Hn He]. split; [done|exact (endswith_entry_app "" n Hn He)]. }
  pose proof (fun d => base_names_ok d (basename p) dm Hbn) as Hns. cbn zeta in Hns.
  split.
  - apply NoDup_mjoin_fmap; [| |].
    + destruct (negb (String.eqb dn p) && has_magic dn) eqn:Hc; [|apply NoDup_singleton].
      apply andb_true_iff in Hc as [_ Hm]. subst dn. by apply IH, split_fst_basename.
    + intros d _. apply join_names; apply Hns.
    + intros d1 d2 x Hd1 Hd2 (n1 & -> & Hn1)%list_elem_of_fmap (n2 & E & Hn2)%list_elem_of_fmap.
      destruct (negb (String.eqb dn p) && has_magic dn) eqn:Hc.
      * apply andb_true_iff in Hc as [_ Hm]. subst dn.
        destruct (IH (fst (split p)) true) as [_ Hpl]; [by apply split_fst_basename|].
        rewrite Forall_forall in Hpl.
        pose proof (proj1 (Forall_forall _ _) (proj2 (Hns d1)) n1 Hn1) as [_ He1].
        pose proof (proj1 (Forall_forall _ _) (proj2 (Hns d2)) n2 Hn2) as [_ He2].
        apply (join_plain_inj d1 d2 n1 n2); auto.
      * apply list_elem_of_singleton in Hd1, Hd2. congruence.
  - apply Forall_join, Forall_fmap, Forall_forall. intros d _. apply join_names; apply Hns.
Qed.

End Distinct.

(** ** Listings up to order

    Two file systems are equivalent when they have the same directories
    and each directory lists the same entries, in any order: [os.scandir]
    promises no order.  [glob] gives the same paths on both, up to order. *)

Definition fs_equiv (fs1 fs2 : FileSystem) : Prop :=
  map_relation (fun _ (l1 l2 : list string) => l1 ≡ₚ l2) (fun _ _ => False) (fun _ _ => False) fs1 fs2.

#[export] Instance fs_equiv_dec : RelDecision fs_equiv.
Proof. unfold fs_equiv. apply _. Defined.

#[export] Instance fs_equiv_equivalence : Equivalence fs_equiv.
Proof.
  unfold fs_equiv, map_relation, option_relation. split.
  - intros fs d. by destruct (fs !! d).
  - intros fs1 fs2 H d. specialize (H d). by destruct (fs1 !! d), (fs2 !! d).
  - intros fs1 fs2 fs3 H1 H2 d. specialize (H1 d). specialize (H2 d).
    destruct (fs1 !! d), (fs2 !! d), (fs3 !! d); try done. by etrans.
Qed.

#[export] Instance listdir_proper : Proper (fs_equiv ==> eq ==> (≡ₚ)) listdir.
Proof.
  intros fs1 fs2 H d ? <-. specialize (H d). unfold option_relation in H. unfold listdir.
  by destruct (fs1 !! d), (fs2 !! d).
Qed.

#[export] Instance is_dir_proper : Proper (fs_equiv ==> eq ==> eq) is_dir.
Proof.
  intros fs1 fs2 H d ? <-. specialize (H d). unfold option_relation in H. unfold is_dir.
  apply bool_decide_ext. destruct (fs1 !! d), (fs2 !! d); try done; split; eauto.
Qed.

#[export] Instance iterdir_proper : Proper (fs_equiv ==> eq ==> eq ==> (≡ₚ)) iterdir.
Proof.
  intros fs1 fs2 H d ? <- dm ? <-. unfold iterdir. destruct dm; [|by rewrite H].
  rewrite (List.filter_ext (fun n => is_dir fs1 (join d n)) (fun n => is_dir fs2 (join d n)))
    by (intros n; by rewrite H).
  by rewrite H.
Qed.

#[export] Instance lexists_proper : Proper (fs_equiv ==> eq ==> eq) lexists.
Proof.
  intros fs1 fs2 H p ? <-. unfold lexists. f_equal; [by rewrite H|].
  apply bool_decide_ext. by rewrite H.
Qed.

#[export] Instance glob1_proper : Proper (fs_equiv ==> eq ==> eq ==> eq ==> (≡ₚ)) glob1.
Proof.
  intros fs1 fs2 H d ? <- pat ? <- dm ? <-. unfold glob1.
  by destruct (is_hidden pat); rewrite H.
Qed.

#[export] Instance glob0_proper : Proper (fs_equiv ==> eq ==> eq ==> eq) glob0.
Proof.
  intros fs1 fs2 H d ? <- b ? <-. unfold glob0.
  by rewrite (is_dir_proper _ _ H d d eq_refl), (lexists_proper _ _ H (join_ d b) _ eq_refl).
Qed.

#[export] Instance iglob_proper f : Proper (fs_equiv ==> eq ==> eq ==> (≡ₚ)) (iglob f).
Proof.
  intros fs1 fs2 H p ? <- dm ? <-. induction f as [|f IH] in p, dm |- *; [done|]. cbn [iglob].
  destruct (split p) as [dn bn]. destruct (has_magic p); cbn [negb].
  - destruct (String.eqb dn ""); [by rewrite H|]. apply mjoin_fmap_Permutation.
    + destruct (negb (String.eqb dn p) && has_magic dn); [apply IH|done].
    + intros d. destruct (has_magic bn); [by rewrite H|]. by rewrite (glob0_proper _ _ H d d eq_refl bn bn eq_refl).
  - by rewrite (is_dir_proper _ _ H dn dn eq_refl), (lexists_proper _ _ H p p eq_refl).
Qed.

#[export] Instance glob_proper : Proper (fs_equiv ==> eq ==> (≡ₚ)) glob.
Proof.
  intros fs1 fs2 H p ? <-. unfold glob.
  destruct (String.eqb_spec p "") as [->|Hp]; [|by rewrite H].
  cbn. by rewrite (is_dir_proper _ _ H "" "" eq_refl).
Qed.

End PyGlob.
