(* ===== verification/PySlice.v ===== *)
(** Python list slicing [l[start:stop]] with step 1 and integer bounds
    (arbitrary-precision [int], hence [Z]), as CPython's
    [PySlice_AdjustIndices] computes it: a negative bound counts from the
    end, and both bounds are clamped into [0, len(l)].  The scripts apply
    it to the sorted input paths ([in_vcf_paths[args.start_idx:args.end_idx]]). *)

From stdpp Require Import base list sorting.
From Stdlib Require Import ZArith Lia.
From S2P Require Import Prelude.

Local Open Scope Z_scope.

Module PySlice.

(** [PySlice_AdjustIndices] for one bound, step 1. *)
Definition adjust_index (i n : Z) : Z :=
  if i <? 0 then (if i + n <? 0 then 0 else i + n)
  else if n <=? i then n else i.

Definition py_slice {A} (l : list A) (start stop : Z) : list A :=
  let n := Z.of_nat (length l) in
  let s := adjust_index start n in
  let e := adjust_index stop n in
  if s <? e then take (Z.to_nat (e - s)) (drop (Z.to_nat s) l) else [].

(** ** Lemmas *)

Lemma take_min_length {A} (l : list A) k : take (min k (length l)) l = take k l.
Proof.
  destruct (Nat.le_ge_cases k (length l)).
  - by rewrite Nat.min_l.
  - rewrite Nat.min_r, take_ge by done. by rewrite take_ge.
Qed.

Lemma adjust_index_bounds i n : 0 <= n -> 0 <= adjust_index i n <= n.
Proof.
  unfold adjust_index. intros Hn.
  destruct (Z.ltb_spec i 0), (Z.ltb_spec (i + n) 0), (Z.leb_spec n i); lia.
Qed.

Lemma adjust_index_nonneg i n : 0 <= i -> adjust_index i n = Z.min i n.
Proof.
  unfold adjust_index. intros Hi.
  destruct (Z.ltb_spec i 0), (Z.leb_spec n i); lia.
Qed.

Lemma adjust_index_neg i n : i < 0 -> adjust_index i n = Z.max 0 (i + n).
Proof.
  unfold adjust_index. intros Hi.
  destruct (Z.ltb_spec i 0), (Z.ltb_spec (i + n) 0); lia.
Qed.

(** Every slice is [take]/[drop] at the adjusted bounds. *)
Lemma py_slice_take_drop {A} (l : list A) start stop :
  py_slice l start stop =
  take (Z.to_nat (adjust_index stop (Z.of_nat (length l)))
        - Z.to_nat (adjust_index start (Z.of_nat (length l))))%nat
       (drop (Z.to_nat (adjust_index start (Z.of_nat (length l)))) l).
Proof.
  unfold py_slice.
  pose proof (adjust_index_bounds start (Z.of_nat (length l)) ltac:(lia)).
  pose proof (adjust_index_bounds stop (Z.of_nat (length l)) ltac:(lia)).
  destruct (Z.ltb_spec (adjust_index start (Z.of_nat (length l)))
                       (adjust_index stop (Z.of_nat (length l)))).
  - f_equal. lia.
  - replace (_ - _)%nat with 0%nat by lia. done.
Qed.

Lemma py_slice_nonneg {A} (l : list A) start stop :
  0 <= start -> 0 <= stop ->
  py_slice l start stop = take (Z.to_nat stop - Z.to_nat start) (drop (Z.to_nat start) l).
Proof.
  intros Hs He. rewrite py_slice_take_drop, !adjust_index_nonneg by done.
  rewrite !Z2Nat.inj_min, !Nat2Z.id.
  destruct (Nat.le_ge_cases (length l) (Z.to_nat start)).
  - rewrite (Nat.min_r (Z.to_nat start)), !drop_ge by lia. by rewrite !take_nil.
  - rewrite (Nat.min_l (Z.to_nat start)) by lia.
    rewrite <- (take_min_length (drop _ l) (Z.to_nat stop - _)), length_drop.
    rewrite <- take_min_length, length_drop. f_equal. lia.
Qed.

Lemma py_slice_nil {A} start stop : py_slice (@nil A) start stop = [].
Proof. unfold py_slice. destruct (_ <? _); [by rewrite drop_nil, take_nil|done]. Qed.

Lemma py_slice_infix {A} (l : list A) start stop :
  exists pre post, l = pre ++ py_slice l start stop ++ post.
Proof.
  rewrite py_slice_take_drop.
  generalize (Z.to_nat (adjust_index start (Z.of_nat (length l)))) as i.
  generalize (Z.to_nat (adjust_index stop (Z.of_nat (length l)))) as j.
  intros j i. exists (take i l), (drop (j - i) (drop i l)).
  by rewrite take_drop, take_drop.
Qed.

(** The window of the sorted list is a contiguous run of it, so it
    keeps its order and its absence of duplicates. *)
Lemma py_slice_sorted {A} (R : relation A) (l : list A) start stop :
  StronglySorted R l -> StronglySorted R (py_slice l start stop).
Proof.
  intros Hl. destruct (py_slice_infix l start stop) as (pre & post & E).
  rewrite E in Hl.
  by apply StronglySorted_app_1_r, StronglySorted_app_1_l in Hl.
Qed.

Lemma py_slice_NoDup {A} (l : list A) start stop :
  NoDup l -> NoDup (py_slice l start stop).
Proof.
  intros Hl. destruct (py_slice_infix l start stop) as (pre & post & E).
  rewrite E in Hl. apply NoDup_app in Hl as (_ & _ & Hl).
  by apply NoDup_app in Hl as (Hl & _).
Qed.

Lemma py_slice_incl {A} (l : list A) start stop x :
  x ∈ py_slice l start stop -> x ∈ l.
Proof.
  destruct (py_slice_infix l start stop) as (pre & post & E).
  intros Hx. rewrite E, !elem_of_app. auto.
Qed.

(** ** Properties of the window *)

(** C11: with non-negative bounds, the window [l[start:stop]] holds
    [min(stop, len l) - min(start, len l)] elements (0 when that is
    negative): out-of-range bounds clamp instead of raising. *)
Theorem py_slice_length {A} (l : list A) start stop :
  0 <= start -> 0 <= stop ->
  length (py_slice l start stop) =
  (Z.to_nat (Z.min stop (Z.of_nat (length l))) - Z.to_nat (Z.min start (Z.of_nat (length l))))%nat.
Proof.
  intros Hs He. rewrite py_slice_nonneg by done.
  rewrite length_take, length_drop, !Z2Nat.inj_min, !Nat2Z.id. lia.
Qed.

Example py_slice_length_witness :
  length (py_slice [10; 11; 12]%nat 1 10000) = 2%nat.
Proof. rewrite (py_slice_length [10; 11; 12]%nat 1 10000); [reflexivity | lia | lia]. Defined.

(** C12: consecutive windows [l[a:b]] and [l[b:c]] (non-negative,
    [a <= b <= c]) partition [l[a:c]]: running the script over shards
    [0:k], [k:m], ... processes every input exactly once. *)
Theorem py_slice_shards {A} (l : list A) a b c :
  0 <= a <= b -> b <= c ->
  py_slice l a b ++ py_slice l b c = py_slice l a c.
Proof.
  intros Hab Hbc. rewrite !py_slice_nonneg by lia.
  assert (drop (Z.to_nat b) l = drop (Z.to_nat b - Z.to_nat a) (drop (Z.to_nat a) l)) as ->.
  { rewrite drop_drop. f_equal. lia. }
  rewrite take_take_drop. f_equal. lia.
Qed.

Example py_slice_shards_witness :
  py_slice [1; 2; 3; 4; 5]%nat 0 2 ++ py_slice [1; 2; 3; 4; 5]%nat 2 10000 = [1; 2; 3; 4; 5]%nat.
Proof. rewrite (py_slice_shards _ 0 2 10000); [reflexivity | lia | lia]. Defined.

(** C13: a negative start is not rejected: it counts from the end of
    the list, [l[start:stop] = l[max(0, len l + start):stop]]. *)
Theorem py_slice_negative_start {A} (l : list A) start stop :
  start < 0 ->
  py_slice l start stop = py_slice l (Z.max 0 (start + Z.of_nat (length l))) stop.
Proof.
  intros Hs. unfold py_slice.
  rewrite (adjust_index_neg start), (adjust_index_nonneg (Z.max _ _)) by lia.
  replace (Z.min (Z.max 0 (start + Z.of_nat (length l))) (Z.of_nat (length l)))
    with (Z.max 0 (start + Z.of_nat (length l))) by lia.
  reflexivity.
Qed.

Example py_slice_negative_start_witness :
  py_slice [1; 2; 3]%nat (-1) 10000 = [3]%nat.
Proof. rewrite (py_slice_negative_start _ (-1) 10000); [reflexivity | lia]. Defined.

End PySlice.
