(* ===== verification/PyInt.v ===== *)
(** Python's [int(s)] on a [str], the conversion [argparse] applies to
    [--num_proc], [--start_idx] and [--end_idx] ([type=int]), as
    CPython 3.11's [PyLong_FromString] does it with base 10: leading and
    trailing ASCII whitespace is skipped, one optional sign, then decimal
    digits in groups separated by single underscores, at most
    [sys.get_int_max_str_digits()] = 4300 of them.  Anything else raises
    [ValueError], here [None].  [py_str] is [str(n)], the decimal form
    used to write an integer on a command line. *)

From Stdlib Require Import ZArith String Ascii Lia.
From stdpp Require Import base list strings.
From S2P Require Import Prelude.

#[local] Arguments String.append : simpl nomatch.

Module PyInt.

(** [_PY_LONG_DEFAULT_MAX_STR_DIGITS]. *)
Definition int_max_str_digits : nat := 4300.

(** The loop skipping leading whitespace with [Py_ISSPACE], which
    is stdpp's [Ascii.is_space]: HT, LF, VT, FF, CR and space. *)
Fixpoint lstrip (s : string) : string :=
  match s with
  | String c r => if Ascii.is_space c then lstrip r else s
  | EmptyString => EmptyString
  end.

(** The trailing-whitespace test after the digits. *)
Fixpoint all_space (s : string) : bool :=
  match s with
  | String c r => Ascii.is_space c && all_space r
  | EmptyString => true
  end.

(** The digit loop of [long_from_string_base]: it accumulates the
    value and counts the digits; an underscore must follow a digit and
    be followed by one.  [prev] is the previous character (NUL at the
    start).  It returns the value, the digit count and the rest. *)
Fixpoint scan_digits (s : string) (prev : ascii) (acc : N) (nd : nat)
    : option (N * nat * string) :=
  match s with
  | String c r =>
      match Ascii.is_nat c with
      | Some d => scan_digits r c (acc * 10 + N.of_nat d)%N (S nd)
      | None =>
          if Ascii.eqb c "_" then
            (if Ascii.eqb prev "_" then None else scan_digits r c acc nd)
          else if Ascii.eqb prev "_" then None else Some (acc, nd, s)
      end
  | EmptyString => if Ascii.eqb prev "_" then None else Some (acc, nd, s)
  end.

(** The sign. *)
Definition take_sign (s : string) : bool * string :=
  match s with
  | String "+" r => (false, r)
  | String "-" r => (true, r)
  | _ => (false, s)
  end.

(** The digits after the sign: at least one and at most
    [int_max_str_digits] of them, only whitespace after them. *)
Definition int_digits_scan (neg : bool) (s2 : string) : option Z :=
  match scan_digits s2 "000" 0%N 0 with
  | None => None
  | Some (v, nd, rest) =>
      if Nat.eqb nd 0 then None
      else if Nat.ltb int_max_str_digits nd then None
      else if all_space rest then Some (if neg then Z.opp (Z.of_N v) else Z.of_N v)
      else None
  end.

(** The part of [PyLong_FromString] after the sign; a leading
    underscore is refused first. *)
Definition int_digits (neg : bool) (s2 : string) : option Z :=
  match s2 with
  | String "_" _ => None
  | _ => int_digits_scan neg s2
  end.

(** [int(s)]: [PyLong_FromString(s, NULL, 10)]. *)
Definition py_int (s : string) : option Z :=
  let '(neg, s2) := take_sign (lstrip s) in int_digits neg s2.

(** ** [str(n)] *)

Definition digit_char (d : nat) : ascii := ascii_of_nat (48 + d).

(** The decimal digits of [n], most significant first; the fuel is the
    bit length of [n] plus one, which [N_digits_go_spec] shows enough. *)
Fixpoint N_digits_go (fuel : nat) (n : N) (acc : list nat) : list nat :=
  match fuel with
  | O => acc
  | S f =>
      if (n <? 10)%N then N.to_nat n :: acc
      else N_digits_go f (n / 10)%N (N.to_nat (n mod 10) :: acc)
  end.

Definition N_digits (n : N) : list nat := N_digits_go (S (N.size_nat n)) n [].

Definition digits_string (ds : list nat) : string :=
  fold_right (fun d s => String (digit_char d) s) EmptyString ds.

Definition py_str (z : Z) : string :=
  match z with
  | Zneg p => String "-" (digits_string (N_digits (Npos p)))
  | _ => digits_string (N_digits (Z.to_N z))
  end.

(** The value of a digit list read from the left onto [acc]. *)
Definition digits_value (ds : list nat) (acc : N) : N :=
  fold_left (fun a d => a * 10 + N.of_nat d)%N ds acc.

(** ** Lemmas *)

Ltac digit_cases d := do 10 (destruct d as [|d]; [reflexivity|]); lia.

Lemma is_nat_digit_char d : d < 10 -> Ascii.is_nat (digit_char d) = Some d.
Proof. intros Hd. digit_cases d. Qed.

Lemma digit_char_not_us d : d < 10 -> Ascii.eqb (digit_char d) "_" = false.
Proof. intros Hd. digit_cases d. Qed.

Lemma digit_char_not_space d : d < 10 -> Ascii.is_space (digit_char d) = false.
Proof. intros Hd. digit_cases d. Qed.

(** The digit loop reads back a digit string written by [digits_string]. *)
Lemma scan_digits_string ds prev acc nd :
  Forall (fun d => d < 10) ds -> Ascii.eqb prev "_" = false ->
  scan_digits (digits_string ds) prev acc nd =
  Some (digits_value ds acc, nd + length ds, EmptyString).
Proof.
  induction ds as [|d ds IH] in prev, acc, nd |- *; intros Hds Hp; cbn -[digit_char].
  - rewrite Hp. do 3 f_equal. lia.
  - inversion Hds as [|? ? Hd Hds']; subst.
    rewrite is_nat_digit_char by done.
    rewrite IH by auto using digit_char_not_us. do 3 f_equal. lia.
Qed.

Lemma digits_value_app ds1 ds2 acc :
  digits_value (ds1 ++ ds2) acc = digits_value ds2 (digits_value ds1 acc).
Proof. apply fold_left_app. Qed.

Lemma N_size_nat_le a b : (a <= b)%N -> (N.size_nat a <= N.size_nat b)%nat.
Proof.
  intros Hab. destruct a as [|p], b as [|q]; simpl; try lia.
  destruct (Pos.lt_total p q) as [Hlt|[->|Hgt]]; [by apply Pos.size_nat_monotone|lia|lia].
Qed.

(** Dividing by ten removes at least one bit, so the fuel of [N_digits]
    decreases with the number. *)
Lemma size_nat_div10 n : (10 <= n)%N -> (N.size_nat (n / 10) < N.size_nat n)%nat.
Proof.
  intros Hn. pose proof (N.Div0.mul_div_le n 10) as Hle.
  destruct (n / 10)%N as [|q] eqn:Hq.
  - pose proof (N.div_str_pos n 10 ltac:(lia)). lia.
  - assert (H2 : (Npos (xO q) <= n)%N) by (change (Npos (xO q)) with (2 * Npos q)%N; lia).
    apply N_size_nat_le in H2. simpl in H2 |- *. lia.
Qed.

Lemma N_digits_go_spec f n acc :
  (N.size_nat n < f)%nat ->
  exists ds, N_digits_go f n acc = ds ++ acc /\ ds <> [] /\
    Forall (fun d => d < 10) ds /\ digits_value ds 0 = n /\
    (n < 10 ^ N.of_nat (length ds))%N /\
    (length ds = 1 \/ (10 ^ N.of_nat (length ds - 1) <= n)%N).
Proof.
  induction f as [|f IH] in n, acc |- *; intros Hf; [lia|]. simpl.
  destruct (N.ltb_spec n 10) as [Hn|Hn].
  - exists [N.to_nat n]. simpl. repeat split; auto; try lia.
    constructor; [lia|constructor].
  - destruct (IH (n / 10)%N (N.to_nat (n mod 10) :: acc)) as (ds & Heq & Hne & Hds & Hv & Hlt & Hge).
    { pose proof (size_nat_div10 n Hn). lia. }
    pose proof (N.div_mod n 10 ltac:(lia)) as Hdm. pose proof (N.mod_lt n 10 ltac:(lia)) as Hm.
    exists (ds ++ [N.to_nat (n mod 10)]).
    rewrite Heq, <- app_assoc. split; [done|].
    rewrite length_app, digits_value_app, Hv. cbn [length digits_value fold_left].
    assert (Hk : length ds <> 0) by (destruct ds; simpl; done).
    replace (length ds + 1 - 1) with (length ds) by lia.
    rewrite Nat.add_1_r, Nat2N.inj_succ, N.pow_succ_r'.
    repeat split.
    + by destruct ds.
    + apply Forall_app; split; [done|]. constructor; [lia|constructor].
    + lia.
    + lia.
    + right. destruct Hge as [Hl|Hge].
      * rewrite Hl. simpl. lia.
      * replace (length ds) with (S (length ds - 1)) at 1 by lia.
        rewrite Nat2N.inj_succ, N.pow_succ_r'.
        pose proof (N.Div0.mul_div_le n 10). clear Hdm. lia.
Qed.

Lemma N_digits_spec n :
  exists ds, N_digits n = ds /\ ds <> [] /\ Forall (fun d => d < 10) ds /\
    digits_value ds 0 = n /\ (n < 10 ^ N.of_nat (length ds))%N /\
    (length ds = 1 \/ (10 ^ N.of_nat (length ds - 1) <= n)%N).
Proof.
  destruct (N_digits_go_spec (S (N.size_nat n)) n [] ltac:(lia)) as (ds & Heq & H).
  rewrite app_nil_r in Heq. exists ds. unfold N_digits. by rewrite Heq.
Qed.

Lemma is_nat_lt c d : Ascii.is_nat c = Some d -> d < 10.
Proof. destruct c as [[] [] [] [] [] [] [] []]; cbn; intros H; inversion H; lia. Qed.

(** The digit loop never reads more value than its digits can hold. *)
Lemma scan_digits_bound s prev acc nd v nd' rest :
  scan_digits s prev acc nd = Some (v, nd', rest) ->
  nd <= nd' /\ (v < (acc + 1) * 10 ^ N.of_nat (nd' - nd))%N.
Proof.
  induction s as [|c s IH] in prev, acc, nd |- *; cbn.
  - destruct (Ascii.eqb prev "_"); intros H; inversion H; subst.
    rewrite Nat.sub_diag. simpl. lia.
  - destruct (Ascii.is_nat c) as [d|] eqn:Hd.
    + intros H. destruct (IH _ _ _ H) as [Hle Hlt]. apply is_nat_lt in Hd.
      split; [lia|].
      replace (nd' - nd) with (S (nd' - S nd)) by lia.
      rewrite Nat2N.inj_succ, N.pow_succ_r'.
      set (P := (10 ^ N.of_nat (nd' - S nd))%N) in *.
      assert (acc * 10 + N.of_nat d + 1 <= (acc + 1) * 10)%N by lia.
      pose proof (N.mul_le_mono_r _ _ P H0). nia.
    + destruct (Ascii.eqb c "_"); [destruct (Ascii.eqb prev "_"); [done|]|];
        [intros H; destruct (IH _ _ _ H); lia|].
      destruct (Ascii.eqb prev "_"); intros H; inversion H; subst.
      rewrite Nat.sub_diag. simpl. lia.
Qed.

(** The head of a digit string is neither whitespace, a sign nor an
    underscore. *)
Lemma py_int_digit_head d r :
  d < 10 -> py_int (String (digit_char d) r) = int_digits false (String (digit_char d) r).
Proof. intros Hd. digit_cases d. Qed.

Lemma int_digits_digit_head neg d r :
  d < 10 -> int_digits neg (String (digit_char d) r) = int_digits_scan neg (String (digit_char d) r).
Proof. intros Hd. digit_cases d. Qed.

(** A digit string of at most [int_max_str_digits] digits reads back as
    its value. *)
Lemma int_digits_string neg ds :
  ds <> [] -> Forall (fun d => d < 10) ds -> length ds <= int_max_str_digits ->
  int_digits neg (digits_string ds) =
  Some (if neg then Z.opp (Z.of_N (digits_value ds 0)) else Z.of_N (digits_value ds 0)).
Proof.
  intros Hne Hds Hlen. destruct ds as [|d ds']; [done|].
  inversion Hds; subst.
  change (digits_string (d :: ds')) with (String (digit_char d) (digits_string ds')).
  rewrite int_digits_digit_head by done. unfold int_digits_scan.
  change (String (digit_char d) (digits_string ds')) with (digits_string (d :: ds')).
  rewrite scan_digits_string by done. rewrite Nat.add_0_l. cbn [length Nat.eqb] in *.
  destruct (Nat.ltb_spec int_max_str_digits (S (length ds'))); [lia|reflexivity].
Qed.

(** At most [k] digits when the number is below [10 ^ k]. *)
Lemma digits_length_bound (ds : list nat) n k :
  (n < 10 ^ N.of_nat k)%N -> ds <> [] -> 1 <= k ->
  (length ds = 1 \/ (10 ^ N.of_nat (length ds - 1) <= n)%N) -> length ds <= k.
Proof.
  intros Hn Hne Hk [Hl|Hge]; [lia|].
  assert (Hlt : (10 ^ N.of_nat (length ds - 1) < 10 ^ N.of_nat k)%N) by lia.
  apply N.pow_lt_mono_r_iff in Hlt; [|lia]. destruct ds; [done|]. simpl in *. lia.
Qed.

Lemma py_int_neg x : py_int (String "-" x) = int_digits true x.
Proof. reflexivity. Qed.

Lemma py_int_digits_string ds :
  ds <> [] -> Forall (fun d => d < 10) ds -> length ds <= int_max_str_digits ->
  py_int (digits_string ds) = Some (Z.of_N (digits_value ds 0)).
Proof.
  intros Hne Hds Hlen. destruct ds as [|d ds']; [done|]. inversion Hds; subst.
  change (digits_string (d :: ds')) with (String (digit_char d) (digits_string ds')).
  rewrite py_int_digit_head by done. by apply (int_digits_string false (d :: ds')).
Qed.

(** What a successful [int_digits] read. *)
Lemma int_digits_some neg s2 z :
  int_digits neg s2 = Some z ->
  exists v nd rest, scan_digits s2 "000" 0%N 0 = Some (v, nd, rest) /\
    nd <= int_max_str_digits /\ z = (if neg then Z.opp (Z.of_N v) else Z.of_N v).
Proof.
  intros H. assert (Hk : int_digits_scan neg s2 = Some z).
  { destruct s2 as [|c s2']; [done|]. by destruct c as [[] [] [] [] [] [] [] []]. }
  unfold int_digits_scan in Hk. destruct (scan_digits s2 "000" 0%N 0) as [[[v nd] rest]|]; [|done].
  destruct (Nat.eqb nd 0); [done|]. destruct (Nat.ltb_spec int_max_str_digits nd); [done|].
  destruct (all_space rest); [|done]. injection Hk as <-. by exists v, nd, rest.
Qed.

(** The round trip, used by the command-line model. *)
Lemma py_int_of_py_str z :
  (Z.abs_N z < 10 ^ N.of_nat int_max_str_digits)%N -> py_int (py_str z) = Some z.
Proof.
  intros Hz. destruct (N_digits_spec (Z.abs_N z)) as (ds & Hd & Hne & Hds & Hv & Hlt & Hge).
  pose proof (digits_length_bound ds _ _ Hz Hne ltac:(cbv; lia) Hge) as Hlen.
  destruct z as [|p|p]; cbn [py_str Z.to_N Z.abs_N] in *; rewrite Hd.
  - by rewrite py_int_digits_string, Hv.
  - by rewrite py_int_digits_string, Hv.
  - by rewrite py_int_neg, int_digits_string, Hv.
Qed.

(** C22: [int(str(z)) == z] for every integer whose decimal form has at
    most 4300 digits ([sys.int_info.default_max_str_digits]): the
    printed form of a number parses back to it. *)
Theorem py_int_py_str z :
  (Z.abs_N z < 10 ^ N.of_nat int_max_str_digits)%N -> py_int (py_str z) = Some z.
Proof. apply py_int_of_py_str. Qed.

Example py_int_py_str_witness :
  (Z.abs_N (-305) < 10 ^ N.of_nat int_max_str_digits)%N /\ py_int (py_str (-305)) = Some (-305)%Z.
Proof.
  assert (H : (Z.abs_N (-305) < 10 ^ N.of_nat int_max_str_digits)%N) by (vm_compute; reflexivity).
  split; [exact H|]. exact (py_int_py_str (-305) H).
Defined.

(** C23: [int()] never returns an integer of more than 4300 digits: any
    value it parses is below [10 ^ 4300] in absolute value, whatever the
    string. *)
Theorem py_int_bound s z :
  py_int s = Some z -> (Z.abs_N z < 10 ^ N.of_nat int_max_str_digits)%N.
Proof.
  unfold py_int. destruct (take_sign (lstrip s)) as [neg s2].
  intros (v & nd & rest & Hs & Hnd & ->)%int_digits_some.
  destruct (scan_digits_bound _ _ _ _ _ _ _ Hs) as [_ Hv]. rewrite Nat.sub_0_r in Hv.
  assert (Hp : (10 ^ N.of_nat nd <= 10 ^ N.of_nat int_max_str_digits)%N)
    by (apply N.pow_le_mono_r; lia).
  destruct neg; lia.
Qed.

Example py_int_bound_witness :
  py_int " -0_42 " = Some (-42)%Z /\ (Z.abs_N (-42) < 10 ^ N.of_nat int_max_str_digits)%N.
Proof.
  assert (H : py_int " -0_42 " = Some (-42)%Z) by (vm_compute; reflexivity).
  split; [exact H|]. exact (py_int_bound _ _ H).
Defined.

End PyInt.
