(* ===== verification/Cli.v ===== *)
(** The command line: [argparse.ArgumentParser.parse_args] (CPython
    3.11, [Lib/argparse.py]) on the two parsers the scripts build
    ([annotate_mp.py] lines 17-30, [categorize_mp.py] lines 17-28).
    Every [add_argument] of the scripts is a store action with one
    argument ([nargs=None]); [ArgumentParser] adds [-h/--help].  The
    model follows [_parse_known_args]: each argument string is first
    classified ([_parse_optional], [_get_option_tuples], with
    [allow_abbrev]), then the strings are consumed left to right
    ([consume_optional], [take_action], [_get_values], [_get_value]),
    then the required actions are checked and the unrecognized strings
    refused ([parse_args]).  The result is the namespace, the help exit,
    or the [error] exit with its message. *)

From Stdlib Require Import ZArith String Ascii Lia.
From stdpp Require Import base list strings fin_maps gmap.
From S2P Require Import Prelude PyStr PyInt.

#[local] Arguments String.append : simpl nomatch.

Module Cli.

Import PyStr PyInt.

(** The values [parse_args] stores: a [str], an [int], the empty list
    [[]] that [_get_values] produces when the only argument was ["--"],
    and [None], the default of an option without one. *)
Inductive value := VStr (s : string) | VInt (z : Z) | VNil | VNone.

#[export] Instance value_eq_dec : EqDecision value.
Proof. solve_decision. Defined.

(** [type=str] or [type=int]. *)
Inductive arg_type := TStr | TInt.

#[export] Instance arg_type_eq_dec : EqDecision arg_type.
Proof. solve_decision. Defined.

(** [_HelpAction] ([nargs=0]) or [_StoreAction] ([nargs=None]). *)
Inductive action_kind :=
| AHelp
| AStore (dest : string) (ty : arg_type) (required : bool) (default : value).

#[export] Instance action_kind_eq_dec : EqDecision action_kind.
Proof. solve_decision. Defined.

Record action := Action { option_strings : list string; kind : action_kind }.

#[export] Instance action_eq_dec : EqDecision action.
Proof. solve_decision. Defined.

Definition parser := list action.

(** [_get_action_name]: the option strings joined by ["/"]. *)
Fixpoint join_slash (l : list string) : string :=
  match l with
  | [] => ""
  | [s] => s
  | s :: r => s ++ "/" ++ join_slash r
  end.

Definition action_name (a : action) : string := join_slash (option_strings a).

(** The parsers of the scripts, in the order of their [add_argument]
    calls after the automatic [-h/--help]. *)
Definition help_action : action := Action ["-h"; "--help"] AHelp.

Definition in_dir_action : action := Action ["-i"; "--in_dir"] (AStore "in_dir" TStr true VNone).
Definition out_dir_action : action := Action ["-o"; "--out_dir"] (AStore "out_dir" TStr true VNone).
Definition num_proc_action : action :=
  Action ["-p"; "--num_proc"] (AStore "num_proc" TInt false (VInt 1)).
Definition vep_action : action := Action ["--vep"] (AStore "vep_script" TStr false (VStr "vep")).
Definition start_idx_action : action :=
  Action ["--start_idx"] (AStore "start_idx" TInt false (VInt 0)).
Definition end_idx_action : action :=
  Action ["--end_idx"] (AStore "end_idx" TInt false (VInt 10000)).

Definition annotate_parser : parser :=
  [help_action; in_dir_action; out_dir_action; num_proc_action; vep_action;
   start_idx_action; end_idx_action].

Definition categorize_parser : parser :=
  [help_action; in_dir_action; out_dir_action; num_proc_action;
   start_idx_action; end_idx_action].

(** [self._option_string_actions], a dict in insertion order. *)
Definition option_table (p : parser) : list (string * action) :=
  List.concat (map (fun a => map (fun o => (o, a)) (option_strings a)) p).

(** [o in self._option_string_actions] and the lookup. *)
Fixpoint assoc_option (o : string) (t : list (string * action)) : option action :=
  match t with
  | [] => None
  | (k, a) :: r => if bool_decide (k = o) then Some a else assoc_option o r
  end.

Definition lookup_option (p : parser) (o : string) : option action :=
  assoc_option o (option_table p).

(** ** Classifying the argument strings *)

(** [s.split(sep, 1)] when [s] holds [sep]. *)
Fixpoint split_char (sep : ascii) (s : string) : option (string * string) :=
  match s with
  | EmptyString => None
  | String c r =>
      if bool_decide (c = sep) then Some (EmptyString, r)
      else (fun '(a, b) => (String c a, b)) <$> split_char sep r
  end.

Definition split_eq : string -> option (string * string) := split_char "=".

(** What [_parse_optional] returns for an option: the action (none for
    an option string of no action), the option string, the explicit
    argument after ["="] or after a one-letter option. *)
Record opt_tuple := OptTuple {
  ot_action : option action; ot_string : string; ot_explicit : option string }.

Fixpoint all_digits (s : string) : bool :=
  match s with
  | EmptyString => true
  | String c r => bool_decide (is_Some (Ascii.is_nat c)) && all_digits r
  end.

(** [\d+] and [\d*\.\d+] on the whole string. *)
Definition digits_plus (s : string) : bool := negb (bool_decide (s = "")) && all_digits s.

Definition decimal_form (s : string) : bool :=
  match split_char "." s with
  | Some (a, b) => all_digits a && digits_plus b
  | None => false
  end.

(** [re.compile(r'^-\d+$|^-\d*\.\d+$').match(s)]; [$] also matches
    before a final newline. *)
Definition strip_final_newline (s : string) : string :=
  if endswith s (String "010" EmptyString)
  then substring 0 (String.length s - 1) s else s.

Definition negative_number (s : string) : bool :=
  match s with
  | String "-" r =>
      let r' := strip_final_newline r in digits_plus r' || decimal_form r'
  | _ => false
  end.

(** [self._has_negative_number_optionals]: an option string of the
    parser looks like a negative number. *)
Definition has_negative_number_optionals (p : parser) : bool :=
  existsb (fun e => negative_number e.1) (option_table p).

(** [_get_option_tuples] on a string of at least two characters that
    starts with ["-"]: with two dashes, every option string the part
    before ["="] is a prefix of ([allow_abbrev]); with one, the option
    of the first two characters (the rest is its explicit argument) and
    every option string the whole string is a prefix of. *)
Definition option_tuples (p : parser) (arg : string) : list opt_tuple :=
  match arg with
  | String c1 (String c2 rest) =>
      if bool_decide (c1 = "-"%char) then
        if bool_decide (c2 = "-"%char) then
          let '(prefix, explicit) :=
            match split_eq arg with Some (a, b) => (a, Some b) | None => (arg, None) end in
          (fun e => OptTuple (Some e.2) e.1 explicit) <$>
            filter (fun e => startswith e.1 prefix = true) (option_table p)
        else
          let short := String c1 (String c2 EmptyString) in
          mjoin ((fun e =>
            if bool_decide (e.1 = short) then [OptTuple (Some e.2) e.1 (Some rest)]
            else if startswith e.1 arg then [OptTuple (Some e.2) e.1 None]
            else []) <$> option_table p)
      else []
  | _ => []
  end.

(** The errors [parse_args] reports (it prints the usage and the
    message and exits with status 2). *)
Inductive cli_error :=
| ErrAmbiguous (arg : string) (matches : list string)
| ErrExpectedOne (act : string)
| ErrIgnoredExplicit (act : string) (arg : string)
| ErrInvalidInt (act : string) (arg : string)
| ErrRequired (names : list string)
| ErrUnrecognized (extras : list string).

#[export] Instance cli_error_eq_dec : EqDecision cli_error.
Proof. solve_decision. Defined.

(** [_parse_optional]: [inr None] for a string meant as an argument,
    [inr (Some t)] for an option. *)
Definition parse_optional (p : parser) (arg : string) : cli_error + option opt_tuple :=
  match arg with
  | EmptyString => inr None
  | String c _ =>
      if negb (bool_decide (c = "-"%char)) then inr None
      else match lookup_option p arg with
      | Some a => inr (Some (OptTuple (Some a) arg None))
      | None =>
          if bool_decide (String.length arg = 1) then inr None
          else match split_eq arg ≫= fun '(o, e) => (fun a => OptTuple (Some a) o (Some e)) <$> lookup_option p o with
          | Some t => inr (Some t)
          | None =>
              match option_tuples p arg with
              | t1 :: t2 :: ts => inl (ErrAmbiguous arg (ot_string <$> t1 :: t2 :: ts))
              | [t] => inr (Some t)
              | [] =>
                  if negative_number arg && negb (has_negative_number_optionals p) then inr None
                  else if contains arg " " then inr None
                  else inr (Some (OptTuple None arg None))
              end
          end
      end
  end.

(** The classified strings: the pattern letters ['-'], ['A'], ['O'] of
    [arg_strings_pattern] with their strings. *)
Inductive tok := TDashDash | TArg (s : string) | TOpt (s : string) (t : opt_tuple).

(** Everything after the first ["--"] is an argument. *)
Fixpoint classify (p : parser) (args : list string) : cli_error + list tok :=
  match args with
  | [] => inr []
  | a :: rest =>
      if bool_decide (a = "--") then inr (TDashDash :: (TArg <$> rest))
      else match parse_optional p a with
      | inl e => inl e
      | inr ot =>
          match classify p rest with
          | inl e => inl e
          | inr ts => inr (match ot with None => TArg a | Some t => TOpt a t end :: ts)
          end
      end
  end.

(** ** Consuming the strings *)

(** [nargs]: none for help, one for a store action. *)
Definition nargs (a : action) : nat :=
  match kind a with AHelp => 0 | AStore _ _ _ _ => 1 end.

(** The arguments of an action: [None] for help, the string otherwise. *)
Abbreviation action_tuple := (action * option string)%type.

(** [consume_optional] without explicit argument: [_match_argument]
    with the pattern ['(A)'] of a store action needs the next string to
    be an argument; the boolean says that it was taken. *)
Definition no_explicit (a : action) (next : option tok)
    : cli_error + (list action_tuple * bool) :=
  match nargs a with
  | 0 => inr ([(a, None)], false)
  | _ =>
      match next with
      | Some (TArg v) => inr ([(a, Some v)], true)
      | _ => inl (ErrExpectedOne (action_name a))
      end
  end.

(** [consume_optional] with an explicit argument [e]: a store action
    takes it; help, given as a one-dash option, reads the rest as more
    one-letter options ([-hi] is [-h -i]); otherwise the argument is
    refused. *)
Fixpoint explicit_chain (p : parser) (a : action) (o e : string) (next : option tok)
    {struct e} : cli_error + (list action_tuple * bool) :=
  match nargs a with
  | 0 =>
      match o, e with
      | String _ (String c2 _), String c e' =>
          if bool_decide (c2 = "-"%char) then inl (ErrIgnoredExplicit (action_name a) e)
          else
            let o' := String "-" (String c EmptyString) in
            match lookup_option p o' with
            | Some a' =>
                let r := match e' with
                         | EmptyString => no_explicit a' next
                         | _ => explicit_chain p a' o' e' next
                         end in
                match r with
                | inl err => inl err
                | inr (ts, b) => inr ((a, None) :: ts, b)
                end
            | None => inl (ErrIgnoredExplicit (action_name a) e)
            end
      | _, _ => inl (ErrIgnoredExplicit (action_name a) e)
      end
  | _ => inr ([(a, Some e)], false)
  end.

Definition option_args (p : parser) (a : action) (t : opt_tuple) (next : option tok)
    : cli_error + (list action_tuple * bool) :=
  match ot_explicit t with
  | None => no_explicit a next
  | Some e => explicit_chain p a (ot_string t) e next
  end.

(** [_get_value]: [str(s)] or [int(s)]. *)
Definition get_value (a : action) (ty : arg_type) (s : string) : cli_error + value :=
  match ty with
  | TStr => inr (VStr s)
  | TInt =>
      match py_int s with
      | Some z => inr (VInt z)
      | None => inl (ErrInvalidInt (action_name a) s)
      end
  end.

(** [_get_values] of a store action: ["--"] is first removed from the
    strings, which leaves none, and [nargs=None] then yields the list
    [[]]. *)
Definition get_values (a : action) (ty : arg_type) (arg : option string) : cli_error + value :=
  match arg with
  | Some s => if bool_decide (s = "--") then inr VNil else get_value a ty s
  | None => inr VNil
  end.

(** The parser's state while it consumes: the namespace, the actions
    seen, the strings no action took. *)
Record pstate := PState { ns : gmap string value; seen : list action; extras : list string }.

Definition add_extra (st : pstate) (s : string) : pstate :=
  PState (ns st) (seen st) (extras st ++ [s]).

Inductive outcome := Continue (st : pstate) | HelpExit | Fail (e : cli_error).

(** [take_action]: help prints the help and exits; a store action
    converts its argument and sets its attribute. *)
Definition take_action (st : pstate) (t : action_tuple) : outcome :=
  let '(a, arg) := t in
  match kind a with
  | AHelp => HelpExit
  | AStore dest ty _ _ =>
      match get_values a ty arg with
      | inl e => Fail e
      | inr v => Continue (PState (<[dest := v]> (ns st)) (a :: seen st) (extras st))
      end
  end.

Fixpoint take_actions (st : pstate) (ts : list action_tuple) : outcome :=
  match ts with
  | [] => Continue st
  | t :: r =>
      match take_action st t with
      | Continue st' => take_actions st' r
      | o => o
      end
  end.

(** The loop of [_parse_known_args] (the scripts declare no
    positional): strings before an option and after the last one go to
    the extras; an option of no action too. *)
Fixpoint consume (p : parser) (toks : list tok) (st : pstate) : outcome :=
  match toks with
  | [] => Continue st
  | TDashDash :: r => consume p r (add_extra st "--")
  | TArg s :: r => consume p r (add_extra st s)
  | TOpt s t :: r =>
      match ot_action t with
      | None => consume p r (add_extra st s)
      | Some a =>
          match option_args p a t (head r) with
          | inl e => Fail e
          | inr (ts, taken) =>
              match take_actions st ts with
              | Continue st' =>
                  match taken, r with
                  | true, _ :: r2 => consume p r2 st'
                  | _, _ => consume p r st'
                  end
              | o => o
              end
          end
      end
  end.

(** The defaults set before parsing ([parse_known_args]). *)
Definition init_ns (p : parser) : gmap string value :=
  foldr (fun a m => match kind a with AStore dest _ _ d => <[dest := d]> m | AHelp => m end) ∅ p.

(** After the loop: the required actions not seen, and the [str]
    defaults of the others converted with their type. *)
Fixpoint finish_actions (acts : list action) (sn : list action) (m : gmap string value)
    (req : list string) : cli_error + (gmap string value * list string) :=
  match acts with
  | [] => inr (m, req)
  | a :: r =>
      if bool_decide (a ∈ sn) then finish_actions r sn m req
      else match kind a with
      | AStore _ _ true _ => finish_actions r sn m (req ++ [action_name a])
      | AStore dest ty false (VStr d) =>
          match get_value a ty d with
          | inl e => inl e
          | inr v => finish_actions r sn (<[dest := v]> m) req
          end
      | _ => finish_actions r sn m req
      end
  end.

(** What [parse_args] does: the namespace, the help exit (status 0) or
    an error exit (status 2). *)
Inductive cli_result := CliOk (m : gmap string value) | CliHelp | CliError (e : cli_error).

(** The end of [parse_known_args] and [parse_args]. *)
Definition parse_finish (p : parser) (st : pstate) : cli_result :=
  match finish_actions p (seen st) (ns st) [] with
  | inl e => CliError e
  | inr (m, []) =>
      match extras st with
      | [] => CliOk m
      | xs => CliError (ErrUnrecognized xs)
      end
  | inr (_, req) => CliError (ErrRequired req)
  end.

Definition parse_args (p : parser) (argv : list string) : cli_result :=
  match classify p argv with
  | inl e => CliError e
  | inr toks =>
      match consume p toks (PState (init_ns p) [] []) with
      | HelpExit => CliHelp
      | Fail e => CliError e
      | Continue st => parse_finish p st
      end
  end.

Definition exit_status (r : cli_result) : option Z :=
  match r with CliOk _ => None | CliHelp => Some 0%Z | CliError _ => Some 2%Z end.

(** The long form [--option=value] of an option and its value. *)
Definition render_long (ov : string * string) : string := ov.1 ++ "=" ++ ov.2.

(** The attribute and value a [--option=value] sets, when the option is
    a store action's and the value converts. *)
Definition store_of (p : parser) (ov : string * string) : option (string * value) :=
  match lookup_option p ov.1 with
  | Some a =>
      match kind a with
      | AStore dest ty _ _ =>
          match get_values a ty (Some ov.2) with inr x => Some (dest, x) | inl _ => None end
      | AHelp => None
      end
  | None => None
  end.

Definition long_ok (p : parser) (ov : string * string) : Prop :=
  (exists r, ov.1 = String "-" r) /\ contains ov.1 "=" = false /\ is_Some (store_of p ov).

(** Setting the attributes in order. *)
Definition set_attrs (m : gmap string value) (kvs : list (string * value)) : gmap string value :=
  foldl (fun m kv => <[kv.1 := kv.2]> m) m kvs.

(** The type of a stored value: what [type=str] or [type=int] yields,
    or the list [[]]. *)
Definition has_type (ty : arg_type) (v : value) : bool :=
  match ty, v with
  | TStr, VStr _ | TInt, VInt _ | _, VNil => true
  | _, _ => false
  end.

Definition store_dest (a : action) : option string :=
  match kind a with AStore dest _ _ _ => Some dest | AHelp => None end.

(** The declarations of a parser are consistent: no two actions store
    to the same attribute, and an optional action's default has its
    type, unless it is a [str] that [parse_args] converts. *)
Definition parser_wf (p : parser) : Prop :=
  NoDup (omap store_dest p) /\
  Forall (fun a => match kind a with
                   | AStore _ ty false (VStr _) => True
                   | AStore _ ty false d => has_type ty d = true
                   | _ => True
                   end) p.

#[export] Instance parser_wf_dec p : Decision (parser_wf p).
Proof.
  unfold parser_wf. apply and_dec; [apply _|]. apply Forall_dec. intros a.
  destruct (kind a) as [|? ? [] []]; apply _.
Defined.

(** ** Lemmas *)

(** No option string of the parser holds an ["="]; decided on the
    scripts' parsers by evaluation. *)
Definition table_plain (p : parser) : Prop :=
  Forall (fun e => contains e.1 "=" = false) (option_table p).

#[export] Instance table_plain_dec p : Decision (table_plain p).
Proof. unfold table_plain. apply _. Defined.

Lemma split_char_app sep o v :
  contains o (String sep EmptyString) = false ->
  split_char sep (o ++ String sep v) = Some (o, v).
Proof.
  induction o as [|c o IH]; cbn -[String.prefix contains].
  - by rewrite bool_decide_true.
  - intros H. assert (Hc : c <> sep).
    { intros ->. assert (contains (String sep o) (String sep EmptyString) = true)
        by (apply contains_iff; by exists EmptyString, o). congruence. }
    assert (Ho : contains o (String sep EmptyString) = false).
    { destruct (contains o _) eqn:E; [|done]. apply contains_iff in E as (x & y & ->).
      assert (contains (String c (x ++ String sep EmptyString ++ y)) (String sep EmptyString) = true)
        by (apply contains_iff; by exists (String c x), y). congruence. }
    rewrite bool_decide_false by done. by rewrite IH.
Qed.

Lemma assoc_option_in o t a : assoc_option o t = Some a -> (o, a) ∈ t.
Proof.
  induction t as [|[k b] t IH]; cbn; [done|].
  case_bool_decide as Hk; [intros [= ->]; subst; left|intros Ha; right; auto].
Qed.

Lemma lookup_option_plain p s :
  table_plain p -> contains s "=" = true -> lookup_option p s = None.
Proof.
  intros Hp Hs. destruct (lookup_option p s) as [a|] eqn:E; [|done].
  apply assoc_option_in in E. eapply Forall_forall in Hp; [|exact E]. simpl in Hp. congruence.
Qed.

(** A [--option=value] string is classified as the option with its
    explicit argument, whatever the value. *)
Lemma parse_optional_long p o r a v :
  table_plain p -> o = String "-" r -> lookup_option p o = Some a ->
  contains o "=" = false ->
  parse_optional p (o ++ "=" ++ v) = inr (Some (OptTuple (Some a) o (Some v))).
Proof.
  intros Hp -> Ho Hno. unfold parse_optional. cbn [String.append].
  rewrite bool_decide_true by done. cbn [negb].
  rewrite lookup_option_plain by (done || (apply contains_iff; by exists (String "-" r), v)).
  rewrite bool_decide_false by (cbn; rewrite str_length_app; cbn; lia).
  assert (Hs : split_eq (String "-" (r ++ String "=" v)) = Some (String "-" r, v))
    by apply (split_char_app "=" (String "-" r) v Hno).
  rewrite Hs. cbn. by rewrite Ho.
Qed.

(** A store action takes its explicit argument. *)
Lemma explicit_chain_store p a o e next :
  nargs a = 1 -> explicit_chain p a o e next = inr ([(a, Some e)], false).
Proof. intros Hn. destruct e; cbn; by rewrite Hn. Qed.

Definition long_tok (p : parser) (ov : string * string) : tok :=
  TOpt (render_long ov) (OptTuple (lookup_option p ov.1) ov.1 (Some ov.2)).

Lemma store_of_some p ov kv :
  store_of p ov = Some kv ->
  exists a ty req d, lookup_option p ov.1 = Some a /\ kind a = AStore kv.1 ty req d /\
    get_values a ty (Some ov.2) = inr kv.2.
Proof.
  unfold store_of. destruct (lookup_option p ov.1) as [a|]; [|done].
  destruct (kind a) as [|dest ty req d] eqn:Ek; [done|].
  destruct (get_values a ty (Some ov.2)) as [|x] eqn:Eg; [done|].
  intros [= <-]. by exists a, ty, req, d.
Qed.

Lemma classify_long p ovs :
  table_plain p -> Forall (long_ok p) ovs ->
  classify p (render_long <$> ovs) = inr (long_tok p <$> ovs).
Proof.
  intros Hp. induction 1 as [|ov ovs Hok _ IH]; [done|]. destruct Hok as ([r Hr] & Hno & [kv Hs]).
  rewrite !fmap_cons. cbn [classify].
  destruct (store_of_some _ _ _ Hs) as (a & ty & req & d & Ha & _).
  rewrite bool_decide_false.
  2:{ intros E. assert (Hc : contains (render_long ov) "=" = true)
        by (apply contains_iff; by exists ov.1, ov.2). by rewrite E in Hc. }
  assert (Hpo : parse_optional p (render_long ov) = inr (Some (OptTuple (Some a) ov.1 (Some ov.2))))
    by (by apply (parse_optional_long p ov.1 r)).
  rewrite Hpo, IH. unfold long_tok. by rewrite Ha.
Qed.

Lemma consume_long p ov kv r st :
  store_of p ov = Some kv ->
  exists a, lookup_option p ov.1 = Some a /\
  consume p (long_tok p ov :: r) st =
  consume p r (PState (<[kv.1 := kv.2]> (ns st)) (a :: seen st) (extras st)).
Proof.
  intros (a & ty & req & d & Ha & Hk & Hg)%store_of_some. exists a. split; [done|].
  unfold long_tok. cbn. rewrite Ha. unfold option_args. cbn.
  rewrite explicit_chain_store by (unfold nargs; by rewrite Hk).
  cbn -[get_values]. rewrite Hk, Hg. done.
Qed.

(** Consuming [--option=value] strings sets their attributes in order
    and records their actions. *)
Lemma consume_longs p ovs st :
  Forall (long_ok p) ovs ->
  consume p (long_tok p <$> ovs) st =
  consume p [] (PState (set_attrs (ns st) (omap (store_of p) ovs))
                       (reverse (omap (fun ov => lookup_option p ov.1) ovs) ++ seen st) (extras st)).
Proof.
  induction 1 as [|ov ovs Hok _ IH] in st |- *.
  - by destruct st.
  - destruct Hok as (_ & _ & [kv Hs]).
    destruct (consume_long p ov kv (long_tok p <$> ovs) st Hs) as (a & Ha & Hc).
    rewrite fmap_cons, Hc.
    rewrite IH. cbn [omap list_omap]. rewrite Hs, Ha, reverse_cons. cbn. by rewrite <- app_assoc.
Qed.

Lemma set_attrs_perm m kvs kvs' :
  NoDup kvs.*1 -> kvs ≡ₚ kvs' -> set_attrs m kvs = set_attrs m kvs'.
Proof.
  intros Hnd Hp. induction Hp as [|kv kvs kvs' Hp IH|kv1 kv2 kvs|kvs1 kvs2 kvs3 H12 IH12 H23 IH23]
    in m, Hnd |- *; cbn.
  - done.
  - apply IH. by inversion Hnd.
  - f_equal. inversion Hnd as [|? ? Hn1 Hnd']. apply insert_insert_ne.
    intros E. apply Hn1. rewrite E. left.
  - rewrite (IH12 m Hnd). apply IH23. by rewrite <- (fmap_Permutation _ _ _ H12).
Qed.

Lemma finish_actions_seen acts sn sn' m req :
  (forall a, a ∈ sn <-> a ∈ sn') -> finish_actions acts sn m req = finish_actions acts sn' m req.
Proof.
  intros Hs. induction acts as [|a acts IH] in m, req |- *; cbn; [done|].
  rewrite (bool_decide_ext _ _ (Hs a)). destruct (bool_decide (a ∈ sn')); [apply IH|].
  destruct (kind a) as [|dest ty [] [| | |]]; try apply IH.
  destruct (get_value a ty s); [done|apply IH].
Qed.

(** [parse_args] on [--option=value] strings: the attributes set in
    order over the defaults, then the end of parsing. *)
Lemma parse_args_longs p ovs :
  table_plain p -> Forall (long_ok p) ovs ->
  parse_args p (render_long <$> ovs) =
  parse_finish p (PState (set_attrs (init_ns p) (omap (store_of p) ovs))
                         (reverse (omap (fun ov => lookup_option p ov.1) ovs) ++ []) []).
Proof. intros Hp Hok. unfold parse_args. by rewrite classify_long, consume_longs. Qed.

(** C24: the order of [--option=value] arguments does not matter: when
    every option is a store action's, its value converts, and no two of
    them set the same attribute, any reordering of the command line
    parses to the same result. *)
Theorem parse_args_long_perm p ovs ovs' :
  table_plain p -> Forall (long_ok p) ovs -> NoDup (omap (store_of p) ovs).*1 ->
  ovs ≡ₚ ovs' -> parse_args p (render_long <$> ovs) = parse_args p (render_long <$> ovs').
Proof.
  intros Hp Hok Hnd Hperm.
  assert (Hok' : Forall (long_ok p) ovs') by (by rewrite <- Hperm).
  rewrite !parse_args_longs by done. unfold parse_finish; cbn [ns seen extras].
  rewrite (set_attrs_perm _ _ _ Hnd (omap_Permutation _ _ _ Hperm)).
  erewrite finish_actions_seen; [reflexivity|].
  intros a. rewrite !elem_of_app, !elem_of_reverse. by rewrite (omap_Permutation _ _ _ Hperm).
Qed.

Example parse_args_long_perm_witness :
  parse_args annotate_parser (render_long <$> [("--in_dir", "a"); ("-o", "b"); ("--end_idx", "7")]) =
  parse_args annotate_parser (render_long <$> [("--end_idx", "7"); ("--in_dir", "a"); ("-o", "b")]).
Proof.
  apply parse_args_long_perm.
  - decide_by_eval.
  - repeat constructor; eexists; reflexivity.
  - decide_by_eval.
  - symmetry. apply (Permutation_cons_append [_; _]).
Defined.

(** ** Typing of the namespace *)

Lemma get_value_typed a ty s v : get_value a ty s = inr v -> has_type ty v = true.
Proof. destruct ty; cbn; [by intros [= <-]|]. destruct (py_int s); by intros [= <-]. Qed.

Lemma get_values_typed a ty arg v : get_values a ty arg = inr v -> has_type ty v = true.
Proof.
  unfold get_values. destruct arg as [s|]; [|intros [= <-]; by destruct ty].
  case_bool_decide; [intros [= <-]; by destruct ty|apply get_value_typed].
Qed.

Lemma omap_cons_store_dest x l :
  omap store_dest (x :: l) =
  match store_dest x with Some k => k :: omap store_dest l | None => omap store_dest l end.
Proof. reflexivity. Qed.

(** No two actions of a consistent parser store to one attribute. *)
Lemma store_dest_unique l a b k :
  NoDup (omap store_dest l) -> a ∈ l -> b ∈ l ->
  store_dest a = Some k -> store_dest b = Some k -> a = b.
Proof.
  induction l as [|x l IH]; [by intros _ ?%elem_of_nil|].
  rewrite omap_cons_store_dest. intros Hnd Ha Hb Hka Hkb.
  assert (Hl : NoDup (omap store_dest l)) by (destruct (store_dest x); [by inversion Hnd|done]).
  assert (Hx : forall c, c ∈ l -> store_dest c = Some k -> store_dest x <> Some k).
  { intros c Hc Hkc Hkx. rewrite Hkx in Hnd. inversion Hnd as [|? ? Hn _]. apply Hn.
    apply list_elem_of_omap. by exists c. }
  apply elem_of_cons in Ha as [->|Ha], Hb as [->|Hb]; try done.
  - by destruct (Hx b Hb Hkb).
  - by destruct (Hx a Ha Hka).
  - by apply IH.
Qed.

Lemma lookup_option_in p o a : lookup_option p o = Some a -> a ∈ p.
Proof.
  intros H%assoc_option_in. unfold option_table in H.
  apply list_elem_of_In, in_concat in H as (l & Hl & Hin).
  apply in_map_iff in Hl as (a' & <- & Ha'). apply in_map_iff in Hin as (o' & [= _ <-] & _).
  by apply list_elem_of_In.
Qed.

Lemma option_table_in p e : e ∈ option_table p -> e.2 ∈ p.
Proof.
  intros H. unfold option_table in H. apply list_elem_of_In, in_concat in H as (l & Hl & Hin).
  apply in_map_iff in Hl as (a' & <- & Ha'). apply in_map_iff in Hin as (o' & <- & _).
  by apply list_elem_of_In.
Qed.

(** Every action a classified string names is one of the parser's. *)
Definition tok_in (p : parser) (t : tok) : Prop :=
  match t with TOpt _ ot => forall a, ot_action ot = Some a -> a ∈ p | _ => True end.

Lemma option_tuples_in p arg t :
  t ∈ option_tuples p arg -> exists e, e ∈ option_table p /\ ot_action t = Some e.2.
Proof.
  unfold option_tuples. destruct arg as [|c1 [|c2 rest]]; try by intros ?%elem_of_nil.
  case_bool_decide; [|by intros ?%elem_of_nil]. case_bool_decide.
  - destruct (split_eq (String c1 (String c2 rest))) as [[x y]|]; cbn;
      intros (e & -> & [_ He]%list_elem_of_filter)%list_elem_of_fmap; by exists e.
  - intros (l & Hin & (e & -> & He)%list_elem_of_fmap)%list_elem_of_join.
    exists e. split; [done|]. revert Hin.
    repeat case_bool_decide; try case_match; try by intros ?%elem_of_nil.
    all: by intros ->%list_elem_of_singleton.
Qed.

Lemma parse_optional_in p s t :
  parse_optional p s = inr (Some t) -> forall a, ot_action t = Some a -> a ∈ p.
Proof.
  unfold parse_optional. destruct s as [|c r]; [done|].
  case_bool_decide; cbn [negb]; [|done].
  destruct (lookup_option p (String c r)) as [a0|] eqn:Hl.
  { intros [= <-] a [= <-]. by eapply lookup_option_in. }
  case_bool_decide; [done|].
  destruct (split_eq (String c r) ≫= _) as [t0|] eqn:Hs.
  { intros [= <-] a Ha. destruct (split_eq (String c r)) as [[o e]|]; [|done].
    cbn in Hs. destruct (lookup_option p o) as [a1|] eqn:Ho; [|done].
    injection Hs as <-. injection Ha as <-. by eapply lookup_option_in. }
  destruct (option_tuples p (String c r)) as [|t1 [|t2 ts]] eqn:Ht.
  - destruct (_ && _); [done|]. destruct (contains _ _); [done|]. by intros [= <-].
  - intros [= <-] a Ha.
    destruct (option_tuples_in p (String c r) t1) as (e & He & He2); [rewrite Ht; left|].
    rewrite Ha in He2. injection He2 as ->. by apply option_table_in.
  - done.
Qed.

Lemma classify_in p argv toks : classify p argv = inr toks -> Forall (tok_in p) toks.
Proof.
  induction argv as [|s argv IH] in toks |- *; cbn; [by intros [= <-]|].
  case_bool_decide.
  { intros [= <-]. constructor; [done|]. apply Forall_fmap, Forall_true. done. }
  destruct (parse_optional p s) as [e|ot] eqn:Hp; [done|].
  destruct (classify p argv) as [|ts]; [done|]. intros [= <-]. constructor; [|by apply IH].
  destruct ot as [t|]; [|done]. cbn. by apply (parse_optional_in p s).
Qed.

(** The actions of the tuples an option yields are the parser's. *)
Definition tuples_in (p : parser) (ts : list action_tuple) : Prop := Forall (fun t => t.1 ∈ p) ts.

Lemma no_explicit_in p a next ts b :
  a ∈ p -> no_explicit a next = inr (ts, b) -> tuples_in p ts.
Proof.
  unfold no_explicit. intros Ha. destruct (nargs a).
  - intros [= <- _]. by repeat constructor.
  - destruct next as [[|s|s t]|]; try done. intros [= <- _]. by repeat constructor.
Qed.

Lemma explicit_chain_in p a o e next ts b :
  a ∈ p -> explicit_chain p a o e next = inr (ts, b) -> tuples_in p ts.
Proof.
  induction e as [|c e' IH] in a, o, ts, b |- *; intros Ha; cbn; destruct (nargs a) eqn:Hn.
  - by destruct o as [|? [|? ?]].
  - intros [= <- _]. by repeat constructor.
  - destruct o as [|? [|c2 ?]]; try done. case_bool_decide; [done|].
    destruct (lookup_option p _) as [a'|] eqn:Hl; [|done].
    apply lookup_option_in in Hl.
    destruct (match e' with EmptyString => _ | _ => _ end) as [|[ts' b']] eqn:Hr; [done|].
    intros [= <- _]. constructor; [done|].
    destruct e'; [exact (no_explicit_in p a' next ts' b' Hl Hr)|exact (IH _ _ _ _ Hl Hr)].
  - intros [= <- _]. by repeat constructor.
Qed.

Lemma option_args_in p a t next ts b :
  a ∈ p -> option_args p a t next = inr (ts, b) -> tuples_in p ts.
Proof.
  unfold option_args. destruct (ot_explicit t); [apply explicit_chain_in|apply no_explicit_in].
Qed.

(** The invariant of the parser's state: an action seen has stored a
    value of its type; an action not seen still has its default. *)
Definition inv (p : parser) (st : pstate) : Prop :=
  forall a dest ty req d, a ∈ p -> kind a = AStore dest ty req d ->
    (a ∈ seen st -> exists v, ns st !! dest = Some v /\ has_type ty v = true) /\
    (a ∉ seen st -> ns st !! dest = Some d).

Lemma init_ns_lookup p a dest ty req d :
  NoDup (omap store_dest p) -> a ∈ p -> kind a = AStore dest ty req d ->
  init_ns p !! dest = Some d.
Proof.
  induction p as [|x p IH]; [by intros _ ?%elem_of_nil|].
  intros Hnd Ha Hk. cbn [init_ns foldr].
  assert (Hl : NoDup (omap store_dest p))
    by (rewrite omap_cons_store_dest in Hnd; destruct (store_dest x); [by inversion Hnd|done]).
  destruct (decide (a = x)) as [->|Hne].
  - rewrite Hk. by rewrite lookup_insert_eq.
  - apply elem_of_cons in Ha as [->|Ha]; [done|].
    destruct (kind x) as [|dx tx rx ddx] eqn:Hkx; [by apply IH|].
    rewrite lookup_insert_ne; [by apply IH|]. intros ->.
    apply Hne, (store_dest_unique (x :: p) a x dest); unfold store_dest;
      rewrite ?Hk, ?Hkx; try done; by constructor.
Qed.

Lemma inv_init p : NoDup (omap store_dest p) -> inv p (PState (init_ns p) [] []).
Proof.
  intros Hnd a dest ty req d Ha Hk. cbn [seen ns]. split; [by intros ?%elem_of_nil|].
  intros _. by eapply init_ns_lookup.
Qed.

Lemma take_action_inv p st a0 arg st' :
  NoDup (omap store_dest p) -> a0 ∈ p -> inv p st ->
  take_action st (a0, arg) = Continue st' -> inv p st'.
Proof.
  intros Hnd Ha0 Hinv. cbn. destruct (kind a0) as [|dest0 ty0 req0 d0] eqn:Hk0; [done|].
  destruct (get_values a0 ty0 arg) as [|v0] eqn:Hv; [done|]. intros [= <-].
  intros a dest ty req d Ha Hk. cbn [ns seen].
  destruct (decide (a = a0)) as [->|Hne].
  - rewrite Hk0 in Hk. injection Hk as <- <- <- <-.
    split; [|intros []; left]. intros _. exists v0.
    split; [apply lookup_insert_eq|by eapply get_values_typed].
  - assert (Hd : dest0 <> dest).
    { intros ->. apply Hne, (store_dest_unique p a a0 dest Hnd Ha Ha0);
        unfold store_dest; by rewrite ?Hk, ?Hk0. }
    rewrite lookup_insert_ne by done. rewrite elem_of_cons.
    destruct (Hinv a dest ty req d Ha Hk) as [H1 H2]. split.
    + intros [->|Hs]; [done|]. by apply H1.
    + intros Hs. apply H2. intros Hs'. apply Hs. by right.
Qed.

Lemma take_actions_inv p st ts st' :
  NoDup (omap store_dest p) -> tuples_in p ts -> inv p st ->
  take_actions st ts = Continue st' -> inv p st'.
Proof.
  intros Hnd Hts. unfold tuples_in in Hts.
  induction Hts as [|[a arg] ts Ha _ IH] in st |- *; cbn [take_actions]; [by intros ? [= <-]|].
  intros Hinv. destruct (take_action st (a, arg)) as [st1| |] eqn:Ht; try done.
  apply IH. by eapply take_action_inv.
Qed.

Lemma consume_inv p toks st st' :
  NoDup (omap store_dest p) -> Forall (tok_in p) toks -> inv p st ->
  consume p toks st = Continue st' -> inv p st'.
Proof.
  intros Hnd. revert st. induction toks as [toks IH] using (measure_ind (@length tok)).
  intros st Hts Hinv. destruct toks as [|tk r]; cbn; [by intros [= <-]|].
  inversion Hts as [|? ? Htk Hr]; subst.
  assert (Hadd : forall s, inv p (add_extra st s)) by done.
  destruct tk as [|s|s t].
  - apply IH; [cbn; lia|done|done].
  - apply IH; [cbn; lia|done|done].
  - destruct (ot_action t) as [a|] eqn:Ha; [|apply IH; [cbn; lia|done|done]].
    destruct (option_args p a t (head r)) as [|[ts taken]] eqn:Ho; [done|].
    destruct (take_actions st ts) as [st1| |] eqn:Hta; try done.
    assert (Hinv1 : inv p st1).
    { eapply take_actions_inv; [done| |done|done]. eapply option_args_in; [|done]. by apply Htk. }
    destruct taken, r as [|tk2 r2]; try (apply IH; [cbn; lia|done|done]).
    inversion Hr; subst. apply IH; [cbn; lia|done|done].
Qed.

Lemma finish_actions_req acts sn m req m' req' :
  finish_actions acts sn m req = inr (m', req') -> exists extra, req' = req ++ extra.
Proof.
  induction acts as [|a acts IH] in m, req |- *; cbn; [intros [= <- <-]; exists []; by rewrite app_nil_r|].
  case_bool_decide; [apply IH|].
  destruct (kind a) as [|dest ty [] [s| | |]]; try apply IH.
  1-4: intros (extra & ->)%IH; exists ([action_name a] ++ extra); by rewrite app_assoc.
  destruct (get_value a ty s); [done|apply IH].
Qed.

(** What the loop over the actions after parsing keeps of the
    invariant: with no required action missing, every attribute holds a
    value of its type. *)
Lemma finish_actions_typed p acts sn m req m' :
  parser_wf p -> (forall a, a ∈ acts -> a ∈ p) -> NoDup (omap store_dest acts) ->
  (forall a dest ty rq d, a ∈ p -> kind a = AStore dest ty rq d ->
     (a ∈ sn -> exists v, m !! dest = Some v /\ has_type ty v = true) /\
     (a ∉ sn -> a ∉ acts -> exists v, m !! dest = Some v /\ has_type ty v = true) /\
     (a ∉ sn -> a ∈ acts -> m !! dest = Some d)) ->
  finish_actions acts sn m req = inr (m', []) ->
  forall a dest ty rq d, a ∈ p -> kind a = AStore dest ty rq d ->
    exists v, m' !! dest = Some v /\ has_type ty v = true.
Proof.
  intros [Hpnd Hpd]. induction acts as [|a0 r IH] in m, req |- *; intros Hsub Hnd Hq.
  { cbn. intros [= <- _] a dest ty rq d Ha Hk. destruct (Hq a dest ty rq d Ha Hk) as (H1 & H2 & _).
    destruct (decide (a ∈ sn)); [by apply H1|]. apply H2; [done|by intros ?%elem_of_nil]. }
  assert (Ha0p : a0 ∈ p) by (apply Hsub; left).
  assert (Hsub' : forall a, a ∈ r -> a ∈ p) by (intros a Ha; apply Hsub; by right).
  assert (Hnd' : NoDup (omap store_dest r))
    by (rewrite omap_cons_store_dest in Hnd; destruct (store_dest a0); [by inversion Hnd|done]).
  assert (Hr0 : forall dest0, store_dest a0 = Some dest0 -> a0 ∉ r).
  { intros dest0 Hd0 Hin. rewrite omap_cons_store_dest, Hd0 in Hnd. inversion Hnd as [|? ? Hn _].
    apply Hn, list_elem_of_omap. by exists a0. }
  (* the invariant for the remaining actions, when [m] is kept *)
  assert (Hkeep : (a0 ∈ sn \/ store_dest a0 = None \/
                   exists dest0 ty0 d0, kind a0 = AStore dest0 ty0 false d0 /\
                     (forall s0, d0 <> VStr s0)) ->
    forall a dest ty rq d, a ∈ p -> kind a = AStore dest ty rq d ->
     (a ∈ sn -> exists v, m !! dest = Some v /\ has_type ty v = true) /\
     (a ∉ sn -> a ∉ r -> exists v, m !! dest = Some v /\ has_type ty v = true) /\
     (a ∉ sn -> a ∈ r -> m !! dest = Some d)).
  { intros Hcase a dest ty rq d Ha Hk. destruct (Hq a dest ty rq d Ha Hk) as (H1 & H2 & H3).
    split; [done|]. split; [|intros Hs Hr; apply H3; [done|by right]].
    intros Hs Hr. destruct (decide (a = a0)) as [->|Hne].
    - destruct Hcase as [Hin|[Hn|(dest0 & ty0 & d0 & Hk0 & Hd0)]]; [done|unfold store_dest in Hn; by rewrite Hk in Hn|].
      rewrite Hk0 in Hk. injection Hk as <- <- <- <-.
      exists d0. split; [apply H3; [done|left]|].
      eapply Forall_forall in Hpd; [|exact Ha]. rewrite Hk0 in Hpd.
      destruct d0 as [s0| | |]; [by destruct (Hd0 s0)|done..].
    - apply H2; [done|]. rewrite elem_of_cons. tauto. }
  cbn. case_bool_decide as Hs0; [apply IH; [done|done|by apply Hkeep; left]|].
  destruct (kind a0) as [|dest0 ty0 [] d0] eqn:Hk0.
  - apply IH; [done|done|]. apply Hkeep. right; left. unfold store_dest. by rewrite Hk0.
  - intros (extra & Hx)%finish_actions_req.
    apply (f_equal length) in Hx. rewrite !length_app in Hx. cbn in Hx. lia.
  - destruct d0 as [s0| | |];
      [|apply IH; [done|done|apply Hkeep; right; right;
        do 3 eexists; split; [reflexivity|by intros ? [=]]]..].
    destruct (get_value a0 ty0 s0) as [|v0] eqn:Hg; [done|]. apply IH; [done|done|].
    intros a dest ty rq d Ha Hk. destruct (Hq a dest ty rq d Ha Hk) as (H1 & H2 & H3).
    destruct (decide (a = a0)) as [->|Hne].
    + rewrite Hk0 in Hk. injection Hk as <- <- <- <-.
      assert (a0 ∉ r) by (apply (Hr0 dest0); unfold store_dest; by rewrite Hk0).
      split; [done|]. split; [|done]. intros _ _. exists v0.
      split; [apply lookup_insert_eq|by eapply get_value_typed].
    + assert (Hd : dest0 <> dest).
      { intros ->. apply Hne, (store_dest_unique p a a0 dest Hpnd Ha Ha0p);
          unfold store_dest; by rewrite ?Hk, ?Hk0. }
      rewrite !lookup_insert_ne by done. split; [done|]. split.
      * intros Hs Hr. apply H2; [done|]. rewrite elem_of_cons. tauto.
      * intros Hs Hr. apply H3; [done|by right].
Qed.

(** Every attribute of a parsed namespace has its declared type. *)
Lemma parse_args_ns_typed p argv m :
  parser_wf p -> parse_args p argv = CliOk m ->
  forall a dest ty req d, a ∈ p -> kind a = AStore dest ty req d ->
    exists v, m !! dest = Some v /\ has_type ty v = true.
Proof.
  intros Hwf. unfold parse_args. destruct (classify p argv) as [|toks] eqn:Hc; [done|].
  destruct (consume p toks _) as [st| |] eqn:Hcs; try done.
  unfold parse_finish. destruct (finish_actions p (seen st) (ns st) []) as [|[m0 [|x req]]] eqn:Hf;
    try done.
  destruct (extras st); [intros [= <-]|done].
  assert (Hinv : inv p st).
  { eapply consume_inv; [apply Hwf|by eapply classify_in|apply inv_init, Hwf|exact Hcs]. }
  eapply (finish_actions_typed p p); [done|done|apply Hwf| |exact Hf].
  intros a dest ty rq d Ha Hk. destruct (Hinv a dest ty rq d Ha Hk) as [H1 H2].
  split; [done|]. split; [intros _ Hn; by destruct Hn|intros Hs _; by apply H2].
Qed.

(** C25: whatever the command line, when [parse_args] returns a
    namespace, every attribute of the parser holds a value of its
    declared type ([str] for [--in_dir], [--out_dir], [--vep]; [int]
    for [--num_proc], [--start_idx], [--end_idx]) or the list [[]]
    that an argument ["--"] gives; none is left at [None]. *)
Theorem parse_args_typed p argv m :
  parser_wf p -> parse_args p argv = CliOk m ->
  forall a dest ty req d, a ∈ p -> kind a = AStore dest ty req d ->
    exists v, m !! dest = Some v /\ has_type ty v = true.
Proof. apply parse_args_ns_typed. Qed.

Example parse_args_typed_witness :
  parse_args annotate_parser ["-i"; "in"; "--out=out"; "-p4"] =
    CliOk (set_attrs (init_ns annotate_parser)
             [("in_dir", VStr "in"); ("out_dir", VStr "out"); ("num_proc", VInt 4)]) /\
  exists v, set_attrs (init_ns annotate_parser)
              [("in_dir", VStr "in"); ("out_dir", VStr "out"); ("num_proc", VInt 4)] !! "num_proc" = Some v /\
            has_type TInt v = true.
Proof.
  assert (H : parse_args annotate_parser ["-i"; "in"; "--out=out"; "-p4"] =
    CliOk (set_attrs (init_ns annotate_parser)
             [("in_dir", VStr "in"); ("out_dir", VStr "out"); ("num_proc", VInt 4)]))
    by (vm_compute; reflexivity).
  split; [exact H|].
  apply (parse_args_typed annotate_parser _ _ ltac:(decide_by_eval) H num_proc_action _ _ false (VInt 1));
    [right; right; right; left|reflexivity].
Defined.

(** ** Parsing a complete command line of long options *)

Lemma store_of_str p o a dest req d v :
  lookup_option p o = Some a -> kind a = AStore dest TStr req d -> v <> "--" ->
  store_of p (o, v) = Some (dest, VStr v).
Proof.
  intros Ha Hk Hv. unfold store_of; cbn [fst snd]. rewrite Ha, Hk. unfold get_values.
  by rewrite bool_decide_false.
Qed.

Lemma store_of_int p o a dest req d z :
  lookup_option p o = Some a -> kind a = AStore dest TInt req d ->
  (Z.abs_N z < 10 ^ N.of_nat int_max_str_digits)%N ->
  store_of p (o, py_str z) = Some (dest, VInt z).
Proof.
  intros Ha Hk Hz. unfold store_of; cbn [fst snd]. rewrite Ha, Hk. unfold get_values.
  pose proof (py_int_of_py_str z Hz) as Hr.
  rewrite bool_decide_false by (intros E; rewrite E in Hr; discriminate).
  unfold get_value. by rewrite Hr.
Qed.

(** After parsing, nothing is left to do when every required action
    and every action with a [str] default was seen. *)
Definition needs_seen (a : action) : bool :=
  match kind a with AStore _ _ true _ | AStore _ _ _ (VStr _) => true | _ => false end.

Lemma finish_actions_all_seen acts sn m req :
  Forall (fun a => needs_seen a = true -> a ∈ sn) acts ->
  finish_actions acts sn m req = inr (m, req).
Proof.
  induction 1 as [|a acts Ha _ IH]; cbn; [done|].
  case_bool_decide as Hs; [done|]. unfold needs_seen in Ha.
  destruct (kind a) as [|dest ty [] [| | |]]; try done; by destruct Hs; apply Ha.
Qed.

(** A command line of [--option=value] strings that gives every
    required option parses to the defaults updated in order. *)
Lemma parse_args_longs_ok p ovs :
  table_plain p -> Forall (long_ok p) ovs ->
  Forall (fun a => needs_seen a = true -> Some a ∈ (fun ov => lookup_option p ov.1) <$> ovs) p ->
  parse_args p (render_long <$> ovs) = CliOk (set_attrs (init_ns p) (omap (store_of p) ovs)).
Proof.
  intros Hp Hok Hneed. rewrite parse_args_longs by done. unfold parse_finish. cbn [ns seen extras].
  rewrite finish_actions_all_seen; [done|].
  eapply Forall_impl; [exact Hneed|]. intros a Hs Hn.
  rewrite app_nil_r, elem_of_reverse, list_elem_of_omap.
  apply Hs, list_elem_of_fmap in Hn as (ov & Hov & Hin). exists ov. by split.
Qed.

(** A default [parse_args] converts after parsing ([type=int] on a
    string default) could fail; the scripts' parsers have none. *)
Definition default_converts (a : action) : bool :=
  match kind a with AStore _ TInt false (VStr _) => false | _ => true end.

Lemma finish_actions_total acts sn m req :
  Forall (fun b => default_converts b = true) acts ->
  exists m' req', finish_actions acts sn m req = inr (m', req').
Proof.
  induction 1 as [|b acts Hb _ IH] in m, req |- *; cbn; [eauto|].
  case_bool_decide; [apply IH|]. unfold default_converts in Hb.
  destruct (kind b) as [|dest [] [] [s| | |]]; try done; apply IH.
Qed.

(** A required action that no argument gave is reported after parsing,
    under its name ([the following arguments are required: ...]). *)
Lemma finish_actions_missing acts sn m req a dest ty d :
  Forall (fun b => default_converts b = true) acts ->
  a ∈ acts -> a ∉ sn -> kind a = AStore dest ty true d ->
  exists m' req', finish_actions acts sn m req = inr (m', req') /\ action_name a ∈ req'.
Proof.
  intros Hd Ha Hs Hk. induction Hd as [|b acts Hb Hd IH] in m, req, Ha |- *;
    [by apply elem_of_nil in Ha|]. cbn.
  case_bool_decide as Hbs.
  { apply IH. apply elem_of_cons in Ha as [->|]; [done|done]. }
  destruct (decide (a = b)) as [<-|Hne].
  - rewrite Hk. destruct (finish_actions_total acts sn m (req ++ [action_name a]) Hd)
      as (m' & req' & Hf). rewrite Hf.
    destruct (finish_actions_req _ _ _ _ _ _ Hf) as [extra ->].
    exists m', ((req ++ [action_name a]) ++ extra). split; [done|]. set_solver.
  - apply elem_of_cons in Ha as [?|Ha]; [done|]. unfold default_converts in Hb.
    destruct (kind b) as [|dest' [] [] [s| | |]]; try done; by apply IH.
Qed.

(** [--option=value] command lines that do not give a required option
    are refused after parsing with [ErrRequired], naming it. *)
Lemma parse_args_longs_missing p ovs a dest ty d :
  table_plain p -> Forall (long_ok p) ovs ->
  Forall (fun b => default_converts b = true) p ->
  a ∈ p -> kind a = AStore dest ty true d ->
  Forall (fun ov => lookup_option p ov.1 <> Some a) ovs ->
  exists req, parse_args p (render_long <$> ovs) = CliError (ErrRequired req) /\ action_name a ∈ req.
Proof.
  intros Hp Hok Hd Ha Hk Hno. rewrite parse_args_longs by done. unfold parse_finish. cbn [ns seen extras].
  edestruct (finish_actions_missing p) as (m' & req' & -> & Hin); [done|done| |done|].
  - rewrite app_nil_r, elem_of_reverse, list_elem_of_omap. rewrite Forall_forall in Hno.
    naive_solver.
  - destruct req' as [|r req']; [by apply elem_of_nil in Hin|]. eauto.
Qed.

(** ** Abbreviations ([allow_abbrev]) *)

(** [--q=v], where [--q] is no option string but the prefix of exactly
    one, [o] of action [a], is classified as [o] with explicit argument
    [v]. *)
Lemma parse_optional_abbrev p q o a v :
  table_plain p -> contains q "=" = false -> lookup_option p ("--" ++ q) = None ->
  filter (fun e => startswith e.1 ("--" ++ q) = true) (option_table p) = [(o, a)] ->
  parse_optional p ("--" ++ q ++ "=" ++ v) = inr (Some (OptTuple (Some a) o (Some v))).
Proof.
  intros Hp Hq Hl Hf.
  assert (Hs : split_eq ("--" ++ q ++ "=" ++ v)%string = Some ("--" ++ q, v)%string).
  { apply (split_char_app "=" ("--" ++ q)%string v). by cbn -[String.prefix]. }
  unfold parse_optional. cbn [String.append]. rewrite bool_decide_true by done. cbn [negb].
  rewrite lookup_option_plain by (done || (apply contains_iff; by exists ("--" ++ q)%string, v)).
  rewrite bool_decide_false by (cbn; rewrite str_length_app; cbn; lia).
  cbn [String.append] in Hs, Hl, Hf. rewrite Hs. cbn [mbind option_bind]. rewrite Hl. cbn [fmap option_fmap option_map].
  unfold option_tuples. rewrite !bool_decide_true by done. rewrite Hs. by rewrite Hf.
Qed.

(** What [consume] does with an option's string once its action is
    known: nothing. *)
Lemma consume_opt_string p s s' a o e r st :
  consume p (TOpt s (OptTuple (Some a) o e) :: r) st = consume p (TOpt s' (OptTuple (Some a) o e) :: r) st.
Proof. reflexivity. Qed.

Lemma parse_args_abbrev_eq p q o a v ovs :
  table_plain p -> contains q "=" = false -> lookup_option p ("--" ++ q) = None ->
  filter (fun e => startswith e.1 ("--" ++ q) = true) (option_table p) = [(o, a)] ->
  lookup_option p o = Some a -> Forall (long_ok p) ovs ->
  parse_args p (("--" ++ q ++ "=" ++ v)%string :: (render_long <$> ovs)) =
  parse_args p (render_long (o, v) :: (render_long <$> ovs)).
Proof.
  intros Hp Hq Hl Hf Ho Hok.
  assert (startswith o ("--" ++ q) = true /\ (o, a) ∈ option_table p) as [Hpre Hin].
  { apply (list_elem_of_filter (fun e => startswith e.1 ("--" ++ q) = true) _ (o, a)).
    rewrite Hf. by left. }
  unfold startswith in Hpre. apply prefix_iff in Hpre as [r Hr].
  assert (Hno : contains o "=" = false) by exact (proj1 (Forall_forall _ _) Hp _ Hin).
  assert (H1 : ("--" ++ q ++ "=" ++ v)%string <> "--").
  { intros E. assert (Hc : contains ("--" ++ q ++ "=" ++ v)%string "=" = true)
      by (apply contains_iff; by exists ("--" ++ q)%string, v). by rewrite E in Hc. }
  assert (H2 : render_long (o, v) <> "--").
  { intros E. assert (Hc : contains (render_long (o, v)) "=" = true)
      by (apply contains_iff; by exists o, v). by rewrite E in Hc. }
  unfold parse_args. cbn [classify]. rewrite !bool_decide_false by done.
  change (render_long (o, v)) with (o ++ "=" ++ v)%string.
  rewrite (parse_optional_abbrev p q o a v), (parse_optional_long p o ("-" ++ q ++ r)%string a v) by
    (done || by rewrite Hr).
  by rewrite classify_long.
Qed.

(** C35: argparse accepts abbreviations ([allow_abbrev], on by
    default): an argument [--q=v] whose [--q] is not an option string
    but the prefix of exactly one, [o], followed by [--option=value]
    arguments, parses exactly as [o=v] would: [--in=x] is
    [--in_dir=x], [--s=3] is [--start_idx=3]. *)
Theorem parse_args_abbrev p q o a v ovs :
  table_plain p -> contains q "=" = false -> lookup_option p ("--" ++ q) = None ->
  filter (fun e => startswith e.1 ("--" ++ q) = true) (option_table p) = [(o, a)] ->
  lookup_option p o = Some a -> Forall (long_ok p) ovs ->
  parse_args p (("--" ++ q ++ "=" ++ v)%string :: (render_long <$> ovs)) =
  parse_args p (render_long (o, v) :: (render_long <$> ovs)).
Proof. apply parse_args_abbrev_eq. Qed.

Example parse_args_abbrev_witness :
  parse_args annotate_parser (("--" ++ "in" ++ "=" ++ "x")%string :: (render_long <$> [("--out_dir", "y")])) =
  parse_args annotate_parser (render_long ("--in_dir", "x") :: (render_long <$> [("--out_dir", "y")])).
Proof.
  apply (parse_args_abbrev annotate_parser "in" "--in_dir" in_dir_action "x" [("--out_dir", "y")]).
  - decide_by_eval.
  - reflexivity.
  - reflexivity.
  - vm_compute. reflexivity.
  - reflexivity.
  - repeat constructor; first [eexists; reflexivity | reflexivity].
Defined.

End Cli.
