(* ===== verification/JobSource.v ===== *)
(** JobSource: the ordered input paths of a run,
    [sorted(glob(f'{args.in_dir}/*.vcf'))] (line 40 of
    [src/scripts/annotate_mp.py], line 38 of [categorize_mp.py]).
    [glob] is CPython's [glob.glob] ([PyGlob]).  When the directory
    part of the pattern has no wildcard, it lists that directory
    ([os.scandir]; an error gives no entries), drops hidden names,
    keeps the names ending in [.vcf] and joins them to the directory
    part ([glob_vcf_literal]); a directory part with wildcards is
    itself a pattern. *)

From stdpp Require Import base list strings sorting gmap.
From Stdlib Require Import ZArith String Ascii.
From S2P Require Import Prelude PyStr PyPath PyGlob.

#[local] Arguments String.append : simpl nomatch.
Local Open Scope string_scope.

Module JobSource.
Import PyStr PyPath PyGlob.

(** [fnmatch.fnmatch(n, '*.vcf')], a name ending in [.vcf]
    ([fnmatch_star_lit]). *)
Definition fnmatch_vcf (n : string) : bool := endswith n ".vcf".

(** The directory part [os.path.split] gives for the pattern. *)
Definition glob_dir (in_dir : string) : string := fst (split (in_dir ++ "/*.vcf")).

(** [glob.glob(f'{in_dir}/*.vcf')]. *)
Definition glob_vcf (fs : FileSystem) (in_dir : string) : list string :=
  glob fs (in_dir ++ "/*.vcf").

(** [sorted(paths)]: Python's sort on [str] is a stable sort for the
    code-point order; any such sort returns the one sorted permutation
    (see [sorted_unique] below), so merge sort stands for it. *)
Definition py_sorted (l : list string) : list string := merge_sort str_le l.

Definition in_vcf_paths (fs : FileSystem) (in_dir : string) : list string :=
  py_sorted (glob_vcf fs in_dir).

(** Directory entries are distinct non-empty names without a separator. *)
Definition wf_fs (fs : FileSystem) : Prop :=
  map_Forall (fun _ ns => NoDup ns /\ Forall name_ok ns) fs.

#[export] Instance wf_fs_dec fs : Decision (wf_fs fs).
Proof. unfold wf_fs, name_ok, entry_name. apply _. Defined.

(** A directory holding the three inputs of the spec's first scenario,
    a hidden VCF and a text file. *)
Definition example_fs : FileSystem :=
  <["in" := ["c.vcf"; ".hidden.vcf"; "a.vcf"; "notes.txt"; "b.vcf"]]> ∅.

(** ** Lemmas *)

Definition vcf_entry (n : string) : bool := negb (is_hidden n) && fnmatch_vcf n.

Lemma fmap_map_string (f : string -> string) l : f <$> l = map f l.
Proof. induction l as [|x l IH]; cbn; [done|]. by rewrite IH. Qed.

Lemma filter_filter_bool {A} (f g : A -> bool) l :
  List.filter f (List.filter g l) = List.filter (fun x => g x && f x) l.
Proof.
  induction l as [|x l IH]; cbn; [done|].
  destruct (g x); cbn; [destruct (f x); cbn; by rewrite IH|done].
Qed.

Lemma has_magic_app a b : has_magic (a ++ b) = has_magic a || has_magic b.
Proof. unfold has_magic. by rewrite list_ascii_of_string_app, existsb_app. Qed.

(** With no wildcard in its directory part, the pattern lists that one
    directory: its visible entries ending in [.vcf], joined to it. *)
Lemma glob_vcf_literal fs in_dir :
  has_magic (glob_dir in_dir) = false ->
  glob_vcf fs in_dir =
  map (join (glob_dir in_dir)) (List.filter vcf_entry (listdir fs (glob_dir in_dir))).
Proof.
  intros Hm. unfold glob_vcf, glob.
  assert (Hnil : String.eqb (in_dir ++ "/*.vcf") "" = false) by (by destruct in_dir).
  rewrite Hnil. cbn [iglob].
  destruct (split_sep_app in_dir "*.vcf" ltac:(reflexivity)) as [Hs Hne].
  change (in_dir ++ "/*.vcf") with (in_dir ++ sep ++ "*.vcf"). rewrite Hs.
  change (fst (split (in_dir ++ sep ++ "*.vcf"))) with (glob_dir in_dir) in Hne |- *.
  assert (Hsv : has_magic (sep ++ "*.vcf") = true) by reflexivity.
  assert (Hv : has_magic "*.vcf" = true) by reflexivity.
  assert (Hh : is_hidden "*.vcf" = false) by reflexivity.
  rewrite has_magic_app, Hsv, orb_true_r. cbn [negb].
  rewrite (proj2 (String.eqb_neq _ _) Hne), Hm, andb_false_r, Hv.
  cbn [mjoin list_join fmap list_fmap]. rewrite app_nil_r.
  unfold glob1, iterdir. rewrite Hh, filter_filter_bool, fmap_map_string. f_equal. apply List.filter_ext.
  intros n. unfold vcf_entry, fnmatch_vcf. f_equal. by apply (fnmatch_star_lit n ".vcf").
Qed.

Lemma glob_vcf_elem fs in_dir p :
  has_magic (glob_dir in_dir) = false ->
  p ∈ glob_vcf fs in_dir <->
  exists n, p = join (glob_dir in_dir) n /\ n ∈ listdir fs (glob_dir in_dir) /\
            is_hidden n = false /\ fnmatch_vcf n = true.
Proof.
  intros Hm. rewrite glob_vcf_literal by done. rewrite list_elem_of_In, in_map_iff.
  setoid_rewrite <- list_elem_of_In.
  setoid_rewrite elem_of_filter_bool. setoid_rewrite andb_true_iff.
  setoid_rewrite negb_true_iff. naive_solver.
Qed.

Lemma listdir_names fs d : wf_fs fs -> NoDup (listdir fs d) /\ Forall name_ok (listdir fs d).
Proof.
  unfold listdir. intros Hwf. destruct (fs !! d) eqn:E; [by eapply Hwf|].
  split; constructor.
Qed.

Lemma listdir_wf fs d : wf_fs fs -> NoDup (listdir fs d) /\ Forall entry_name (listdir fs d).
Proof.
  intros Hwf. destruct (listdir_names fs d Hwf) as [? Hn]. split; [done|].
  eapply Forall_impl; [exact Hn|]. by intros ? [_ ?].
Qed.

(** Whatever the input directory, wildcards included, [glob] yields
    no path twice ([iglob_distinct]). *)
Lemma glob_vcf_NoDup fs in_dir : wf_fs fs -> NoDup (glob_vcf fs in_dir).
Proof.
  intros Hwf. unfold glob_vcf, glob.
  assert (Hnil : String.eqb (in_dir ++ "/*.vcf") "" = false) by (by destruct in_dir).
  rewrite Hnil. apply iglob_distinct; [intros d; apply (listdir_names fs d Hwf)..|].
  change (in_dir ++ "/*.vcf") with (in_dir ++ sep ++ "*.vcf").
  by rewrite basename_sep_app.
Qed.

Lemma py_sorted_Permutation l : py_sorted l ≡ₚ l.
Proof. apply merge_sort_Permutation. Qed.

Lemma py_sorted_StronglySorted l : StronglySorted str_le (py_sorted l).
Proof. apply StronglySorted_merge_sort; apply _. Qed.

(** Every sort for the code-point order returns the same list. *)
Lemma sorted_unique l1 l2 :
  StronglySorted str_le l1 -> StronglySorted str_le l2 -> l1 ≡ₚ l2 -> l1 = l2.
Proof. apply StronglySorted_unique; apply _. Qed.

(** ** Properties of the job source *)

(** C8: on a well-formed file system and for every input directory,
    wildcards included, the input paths are sorted by Python's [str]
    order and contain no duplicate. *)
Theorem in_vcf_paths_sorted_nodup fs in_dir :
  wf_fs fs ->
  StronglySorted str_le (in_vcf_paths fs in_dir) /\ NoDup (in_vcf_paths fs in_dir).
Proof.
  intros Hwf. split; [apply py_sorted_StronglySorted|].
  unfold in_vcf_paths. rewrite py_sorted_Permutation. by apply glob_vcf_NoDup.
Qed.

Example in_vcf_paths_sorted_nodup_witness :
  wf_fs example_fs /\
  in_vcf_paths example_fs "in" = ["in/a.vcf"; "in/b.vcf"; "in/c.vcf"] /\
  NoDup (in_vcf_paths example_fs "in").
Proof.
  assert (Hwf : wf_fs example_fs) by decide_by_eval.
  split; [exact Hwf|]. split; [vm_compute; reflexivity|].
  apply (in_vcf_paths_sorted_nodup example_fs "in" Hwf).
Defined.

(** C9: for an input directory without wildcard characters, a path is
    an input exactly when it is [os.path.join(d, n)] for a visible
    entry [n] of the directory [d] the pattern names whose name ends in
    [.vcf]; its [basename] is that entry. *)
Theorem in_vcf_paths_elem fs in_dir p :
  wf_fs fs -> has_magic (glob_dir in_dir) = false ->
  p ∈ in_vcf_paths fs in_dir <->
  exists n, p = join (glob_dir in_dir) n /\ basename p = n /\
            n ∈ listdir fs (glob_dir in_dir) /\
            is_hidden n = false /\ endswith n ".vcf" = true.
Proof.
  intros Hwf Hm. unfold in_vcf_paths. rewrite py_sorted_Permutation, glob_vcf_elem by done.
  destruct (listdir_wf fs (glob_dir in_dir) Hwf) as [_ Hen].
  rewrite Forall_forall in Hen. split.
  - intros (n & -> & Hn & Hh & Hv). exists n. rewrite basename_join by auto. auto.
  - intros (n & -> & _ & Hn & Hh & Hv). exists n. auto.
Qed.

Example in_vcf_paths_elem_witness :
  wf_fs example_fs /\ "in/b.vcf" ∈ in_vcf_paths example_fs "in".
Proof.
  assert (Hwf : wf_fs example_fs) by decide_by_eval.
  split; [exact Hwf|].
  apply (in_vcf_paths_elem example_fs "in" "in/b.vcf" Hwf eq_refl).
  exists "b.vcf". repeat split; try reflexivity. decide_by_eval.
Defined.

(** C10: for every input directory, wildcards included, the input
    paths depend only on which entries each directory has, not on the
    order [os.scandir] lists them in: [glob] gives the same paths up to
    order ([glob_proper]) and [sorted] puts them in one order. *)
Theorem in_vcf_paths_deterministic fs1 fs2 in_dir :
  fs_equiv fs1 fs2 -> in_vcf_paths fs1 in_dir = in_vcf_paths fs2 in_dir.
Proof.
  intros H. apply sorted_unique; try apply py_sorted_StronglySorted.
  unfold in_vcf_paths, glob_vcf. by rewrite !py_sorted_Permutation, H.
Qed.

(** Two listings of a working directory holding [in] and [out], and of
    [in], in different orders; the pattern [i*] globs [in]. *)
Definition scandir_fs1 : FileSystem :=
  <["" := ["out"; "in"]]> (<["out" := []]> (<["in" := ["b.vcf"; "a.vcf"; "c.txt"]]> ∅)).
Definition scandir_fs2 : FileSystem :=
  <["" := ["in"; "out"]]> (<["out" := []]> (<["in" := ["c.txt"; "a.vcf"; "b.vcf"]]> ∅)).

Example in_vcf_paths_deterministic_witness :
  in_vcf_paths scandir_fs1 "i*" = in_vcf_paths scandir_fs2 "i*" /\
  in_vcf_paths scandir_fs2 "i*" = ["in/a.vcf"; "in/b.vcf"].
Proof.
  split; [apply in_vcf_paths_deterministic; decide_by_eval|vm_compute; reflexivity].
Defined.

(** ** A directory name is a pattern *)

Lemma fnmatch_data1 d : fnmatch d "data[1]" = true -> d = "data1".
Proof.
  unfold fnmatch.
  assert (Ht : translate (String.length "data[1]") (list_ascii_of_string "data[1]") =
               ((PLit <$> list_ascii_of_string "data") ++ [PClass false [("1"%char, "1"%char)]])%list)
    by reflexivity.
  rewrite Ht. intros (c & Hs & Hc)%pmatch_lits_last; [|done].
  cbn in Hc. rewrite orb_false_r in Hc. apply bool_decide_eq_true in Hc.
  assert (c = "1"%char) as -> by (apply N_of_ascii_inj; cbn in Hc |- *; lia).
  by apply list_ascii_of_string_inj.
Qed.

(** [glob.glob('data[1]/*.vcf')]: the directories of the current
    directory [fnmatch] accepts for [data[1]], then the [.vcf] names
    in each. *)
Lemma glob_vcf_data1 fs :
  glob_vcf fs "data[1]" =
  mjoin ((fun d => join d <$> glob1 fs d "*.vcf" false) <$> glob1 fs "" "data[1]" true).
Proof. reflexivity. Qed.

(** C36: the input directory is a [glob] pattern, not a path: with
    [-i 'data[1]'] every input path lies in the directory [data1] (the
    class [[1]] matches the character [1]), whatever the file system;
    the files of a directory literally named [data[1]] are never
    read. *)
Theorem bracket_in_dir_reads_data1 fs p :
  wf_fs fs -> p ∈ in_vcf_paths fs "data[1]" ->
  exists n, p = "data1/" ++ n /\ n ∈ listdir fs "data1".
Proof.
  intros Hwf. unfold in_vcf_paths. rewrite py_sorted_Permutation, glob_vcf_data1.
  intros (l & Hp & Hl)%list_elem_of_join. apply list_elem_of_fmap in Hl as (d & -> & Hd).
  unfold glob1 in Hd. apply elem_of_filter_bool in Hd as [_ Hd%fnmatch_data1]. subst d.
  apply list_elem_of_fmap in Hp as (n & -> & Hn). unfold glob1, iterdir in Hn.
  apply elem_of_filter_bool in Hn as [Hn _]. apply elem_of_filter_bool in Hn as [Hn _].
  exists n. split; [|done].
  destruct (listdir_wf fs "data1" Hwf) as [_ Hen]. rewrite Forall_forall in Hen.
  unfold join. rewrite startswith_entry by auto. reflexivity.
Qed.

(** Both directories exist; [data[1]] holds [a.vcf], [data1] holds
    [b.vcf]. *)
Definition bracket_fs : FileSystem :=
  <["" := ["data[1]"; "data1"]]> (<["data[1]" := ["a.vcf"]]> (<["data1" := ["b.vcf"]]> ∅)).

Example bracket_in_dir_reads_data1_witness :
  wf_fs bracket_fs /\ in_vcf_paths bracket_fs "data[1]" = ["data1/b.vcf"] /\
  exists n, "data1/b.vcf" = "data1/" ++ n /\ n ∈ listdir bracket_fs "data1".
Proof.
  assert (Hwf : wf_fs bracket_fs) by decide_by_eval.
  assert (E : in_vcf_paths bracket_fs "data[1]" = ["data1/b.vcf"]) by (vm_compute; reflexivity).
  split; [exact Hwf|]. split; [exact E|].
  apply (bracket_in_dir_reads_data1 bracket_fs "data1/b.vcf" Hwf). rewrite E. by left.
Defined.

End JobSource.
