(* ===== verification/JobBuilder.v ===== *)
(** JobBuilder: the output path and the shell command of each input
    (lines 42-49 of [src/scripts/annotate_mp.py], 41-48 of
    [src/scripts/categorize_mp.py]).  The two scripts differ only in the
    extension that replaces [.vcf] and in the extra [--vep] flag of the
    annotation command, so one definition covers both, indexed by
    [script]. *)

From stdpp Require Import base list strings.
From Stdlib Require Import ZArith String Ascii.
From S2P Require Import Prelude PyStr PyPath.

#[local] Arguments String.append : simpl nomatch.
Local Open Scope string_scope.

Module JobBuilder.
Import PyStr PyPath.

(** Which of the two scripts runs; the annotation script carries the
    value of its [--vep] option ([args.vep_script], default ["vep"]). *)
Inductive script :=
| Annotate (vep_script : string)
| Categorize.

(** The extension that replaces [".vcf"] in the output name. *)
Definition out_ext (sc : script) : string :=
  match sc with
  | Annotate _ => ".annot.vcf"
  | Categorize => ".cat_result.txt"
  end.

(** [f'{args.out_dir}/{os.path.basename(in_vcf_path).replace(".vcf", ext)}'] *)
Definition out_path (sc : script) (out_dir in_path : string) : string :=
  out_dir ++ "/" ++ py_replace (basename in_path) ".vcf" (out_ext sc).

(** The f-string of the command:
    [f'{annot_script} -i {in_vcf_path} -o {out_vcf_path} --vep {args.vep_script};']
    or [f'{categorize_script} -i {in_vcf_path} -o {out_vcf_path};']. *)
Definition make_cmd (sc : script) (tool in_path out_path : string) : string :=
  match sc with
  | Annotate vep => tool ++ " -i " ++ in_path ++ " -o " ++ out_path ++ " --vep " ++ vep ++ ";"
  | Categorize => tool ++ " -i " ++ in_path ++ " -o " ++ out_path ++ ";"
  end.

(** The list comprehension of output paths, then the loop over
    [zip(in_vcf_paths, out_vcf_paths)] appending one command each. *)
Definition make_cmds (sc : script) (tool out_dir : string) (in_paths : list string) : list string :=
  let out_paths := map (out_path sc out_dir) in_paths in
  map (fun '(i, o) => make_cmd sc tool i o) (zip in_paths out_paths).

(** ** Lemmas *)

Lemma make_cmds_map sc tool out_dir in_paths :
  make_cmds sc tool out_dir in_paths =
  map (fun p => make_cmd sc tool p (out_path sc out_dir p)) in_paths.
Proof. unfold make_cmds. induction in_paths as [|p ps IH]; simpl; congruence. Qed.

Lemma length_make_cmds sc tool out_dir in_paths :
  List.length (make_cmds sc tool out_dir in_paths) = List.length in_paths.
Proof. by rewrite make_cmds_map, length_map. Qed.

Lemma py_replace_vcf s ext : py_replace s ".vcf" ext = replace_from ".vcf" ext 0 s.
Proof. reflexivity. Qed.

Lemma unbordered_vcf : unbordered ".vcf".
Proof.
  intros t u Ht Hu E.
  do 4 (destruct t as [|? t]; [simpl in E; subst u; done|]; injection E as <- E).
  by destruct t, u.
Qed.

(** ** Output paths *)

Lemma out_path_stem_rest sc out_dir d stem rest :
  entry_name (stem ++ ".vcf" ++ rest) -> contains stem ".vcf" = false ->
  out_path sc out_dir (join d (stem ++ ".vcf" ++ rest)) =
  out_dir ++ "/" ++ stem ++ out_ext sc ++ py_replace rest ".vcf" (out_ext sc).
Proof.
  intros Hn Hs. unfold out_path. rewrite basename_join by done.
  rewrite !py_replace_vcf, replace_from_stem; [done|apply unbordered_vcf|done|done].
Qed.

(** C14: the output name replaces EVERY occurrence of [.vcf] in the
    input's base name, not only its suffix: for an entry
    [stem ++ ".vcf" ++ rest] with no [.vcf] in [stem], the output is
    [out_dir/stem ++ ext ++ rest.replace(".vcf", ext)]. *)
Theorem out_path_replaces_all sc out_dir d stem rest :
  entry_name (stem ++ ".vcf" ++ rest) -> contains stem ".vcf" = false ->
  out_path sc out_dir (join d (stem ++ ".vcf" ++ rest)) =
  out_dir ++ "/" ++ stem ++ out_ext sc ++ py_replace rest ".vcf" (out_ext sc).
Proof. apply out_path_stem_rest. Qed.

Example out_path_replaces_all_witness :
  out_path (Annotate "vep") "out" (join "in" ("x" ++ ".vcf" ++ ".vcf")) =
  "out/x.annot.vcf.annot.vcf".
Proof.
  rewrite (out_path_replaces_all (Annotate "vep") "out" "in" "x" ".vcf");
    [reflexivity|reflexivity|reflexivity].
Defined.

(** C16: for input names [stem ++ ".vcf"] with no other [.vcf] in them,
    distinct inputs get distinct output paths, in both scripts. *)
Theorem out_path_injective_simple sc out_dir d stem1 stem2 :
  entry_name (stem1 ++ ".vcf") -> entry_name (stem2 ++ ".vcf") ->
  contains stem1 ".vcf" = false -> contains stem2 ".vcf" = false ->
  out_path sc out_dir (join d (stem1 ++ ".vcf")) = out_path sc out_dir (join d (stem2 ++ ".vcf")) ->
  stem1 = stem2.
Proof.
  intros Hn1 Hn2 Hs1 Hs2.
  rewrite <- (str_app_nil_r ".vcf") in Hn1, Hn2 |- *.
  rewrite !out_path_stem_rest by done.
  intros E. do 2 apply str_app_inv_l in E. by apply str_app_inv_r in E.
Qed.

Example out_path_injective_simple_witness :
  out_path Categorize "out" (join "in" ("a" ++ ".vcf")) =
  out_path Categorize "out" (join "in" ("a" ++ ".vcf")) /\ "a" = "a".
Proof.
  split; [reflexivity|].
  apply (out_path_injective_simple Categorize "out" "in" "a" "a"); reflexivity.
Defined.

(** C15: the categorization script can write two inputs to the same
    output file: [x.vcf.vcf] and [x.cat_result.txt.vcf] are distinct
    visible [.vcf] entries whose outputs are both
    [out_dir/x.cat_result.txt.cat_result.txt]. *)
Theorem categorize_out_path_collision :
  exists n1 n2, n1 <> n2 /\ entry_name n1 /\ entry_name n2 /\
    endswith n1 ".vcf" = true /\ endswith n2 ".vcf" = true /\
    forall d out_dir, out_path Categorize out_dir (join d n1) = out_path Categorize out_dir (join d n2).
Proof.
  exists "x.vcf.vcf", "x.cat_result.txt.vcf".
  assert (entry_name "x.vcf.vcf") as H1 by reflexivity.
  assert (entry_name "x.cat_result.txt.vcf") as H2 by reflexivity.
  repeat split; try done.
  intros d out_dir. unfold out_path. by rewrite !basename_join.
Qed.

(** ** The annotation script's output names are injective

    The lemmas below are about [name.replace(".vcf", ".annot.vcf")],
    that is [replace_from ".vcf" ".annot.vcf" 0]. *)

Lemma anno_vcf s : replace_from ".vcf" ".annot.vcf" 0 (".vcf" ++ s) = ".annot.vcf" ++ replace_from ".vcf" ".annot.vcf" 0 s.
Proof. by apply replace_from_old. Qed.

Lemma anno_cons c s :
  String.prefix ".vcf" (String c s) = false -> replace_from ".vcf" ".annot.vcf" 0 (String c s) = String c (replace_from ".vcf" ".annot.vcf" 0 s).
Proof. intros Hp. by rewrite replace_from_cons, Hp. Qed.

(** The three cases of the scan at the head of a string. *)
Lemma anno_cases s :
  s = "" \/ (exists s', s = ".vcf" ++ s') \/
  (exists c s', s = String c s' /\ String.prefix ".vcf" (String c s') = false).
Proof.
  destruct (String.prefix ".vcf" s) eqn:Hp.
  - apply prefix_iff in Hp as [s' ->]. eauto.
  - destruct s as [|c s']; eauto 10.
Qed.

(** An output that starts with a character other than ['.'] copied it
    from the input. *)
Lemma anno_char c u w :
  replace_from ".vcf" ".annot.vcf" 0 u = String c w -> c <> "."%char -> exists u', u = String c u' /\ replace_from ".vcf" ".annot.vcf" 0 u' = w.
Proof.
  intros E Hc. destruct (anno_cases u) as [->|[[u' ->]|(d & u' & -> & Hp)]].
  - discriminate.
  - rewrite anno_vcf in E. simpl in E; injection E as <- _. done.
  - rewrite anno_cons in E by done. simpl in E; injection E as -> <-. eauto.
Qed.

Ltac anno_peel H :=
  let u := fresh "u" in let Hu := fresh "Hu" in
  destruct (anno_char _ _ _ H ltac:(discriminate)) as (u & -> & Hu); clear H; rename Hu into H.

(** An output that starts with [".annot.vcf"] comes from an input that
    starts with [".vcf"]: the text [.annot.vcf] cannot be copied from
    the input, since its [.vcf] would have been replaced. *)
Lemma anno_head t w : replace_from ".vcf" ".annot.vcf" 0 t = ".annot.vcf" ++ w -> String.prefix ".vcf" t = true.
Proof.
  intros E. destruct (anno_cases t) as [->|[[t' ->]|(c & t' & -> & Hp)]].
  - discriminate.
  - apply prefix_iff. eauto.
  - exfalso. rewrite anno_cons in E by done. simpl in E; injection E as -> E.
    do 5 anno_peel E.
    lazymatch type of E with replace_from _ _ _ ?x = _ => rename x into t5 end.
    destruct (anno_cases t5) as [->|[[t6 ->]|(d & t6 & -> & Hq)]].
    + discriminate.
    + rewrite anno_vcf in E. discriminate.
    + rewrite anno_cons in E by done. simpl in E; injection E as -> E.
      do 3 anno_peel E.
      rewrite (proj2 (prefix_iff _ _)) in Hq; [discriminate|eexists; reflexivity].
Qed.

Lemma anno_inj s t :
  replace_from ".vcf" ".annot.vcf" 0 s = replace_from ".vcf" ".annot.vcf" 0 t -> s = t.
Proof.
  induction s as [s IH] using (measure_ind String.length) in t |- *. intros E.
  destruct (anno_cases s) as [->|[[s' ->]|(c & s' & -> & Hp)]],
           (anno_cases t) as [->|[[t' ->]|(d & t' & -> & Hq)]]; try done.
  - rewrite anno_vcf in E. discriminate.
  - rewrite anno_cons in E by done. discriminate.
  - rewrite anno_vcf in E. discriminate.
  - rewrite !anno_vcf in E. apply str_app_inv_l in E. f_equal. apply IH; [cbn; lia|done].
  - rewrite anno_vcf in E. symmetry in E. apply anno_head in E. congruence.
  - rewrite anno_cons in E by done. discriminate.
  - rewrite (anno_vcf t') in E. apply anno_head in E. congruence.
  - rewrite !anno_cons in E by done. injection E as -> E. f_equal. apply IH; [cbn; lia|done].
Qed.

(** C32: in the annotation script distinct visible [.vcf] entries
    always get distinct output paths, whatever [.vcf] occurrences
    their names hold, because [".annot.vcf"] cannot be produced by
    copying: [replace(".vcf", ".annot.vcf")] is injective (unlike the
    categorization script's, see [categorize_out_path_collision]). *)
Theorem out_path_injective_annotate vep out_dir d n1 n2 :
  entry_name n1 -> entry_name n2 ->
  out_path (Annotate vep) out_dir (join d n1) = out_path (Annotate vep) out_dir (join d n2) ->
  n1 = n2.
Proof.
  intros H1 H2. unfold out_path. rewrite !basename_join by done.
  intros E. do 2 apply str_app_inv_l in E. by apply anno_inj.
Qed.

Example out_path_injective_annotate_witness :
  out_path (Annotate "vep") "out" (join "in" "x.vcf.vcf") =
  out_path (Annotate "vep") "out" (join "in" "x.vcf.vcf") /\ "x.vcf.vcf" = "x.vcf.vcf".
Proof.
  split; [reflexivity|].
  apply (out_path_injective_annotate "vep" "out" "in"); reflexivity.
Defined.

End JobBuilder.
