(* ===== verification/Interleave.v ===== *)
(** The contract of a dispatcher, independent of how it schedules:
    the trace it produces is an interleaving of the per-job traces.
    [interleaving ls tr] holds when [tr] is obtained by repeatedly taking
    the head of one of the lists of [ls] until all are empty: each list
    is emitted exactly once and in its own order, and nothing else is
    emitted.  A sequential loop produces [concat ls]; a pool of workers
    produces any interleaving. *)

From stdpp Require Import base list sets.
From S2P Require Import Prelude.

Section Interleaving.
Context {A : Type}.

Inductive interleaving : list (list A) -> list A -> Prop :=
| il_nil ls : Forall (fun l => l = []) ls -> interleaving ls []
| il_pick l1 a r l2 tr :
    interleaving (l1 ++ r :: l2) tr -> interleaving (l1 ++ (a :: r) :: l2) (a :: tr).

(** The lists are a multiset: their order does not matter. *)
Lemma interleaving_perm ls ls' tr :
  ls ≡ₚ ls' -> interleaving ls tr -> interleaving ls' tr.
Proof.
  intros Hp Hi. revert ls' Hp.
  induction Hi as [ls Hnil|l1 a r l2 tr _ IH]; intros ls' Hp.
  - constructor. by rewrite <- Hp.
  - assert ((a :: r) ∈ ls') as Hin by (rewrite <- Hp; set_solver).
    apply list_elem_of_split in Hin as (l1' & l2' & ->).
    constructor. apply IH.
    apply Permutation_app_inv in Hp.
    by rewrite <- !Permutation_middle, Hp.
Qed.

#[export] Instance interleaving_proper :
  Proper ((≡ₚ) ==> eq ==> iff) interleaving.
Proof.
  intros ls ls' Hp tr ? <-. split; apply interleaving_perm; [done|by symmetry].
Qed.

(** An empty list contributes nothing. *)
Lemma interleaving_cons_nil ls tr :
  interleaving ([] :: ls) tr <-> interleaving ls tr.
Proof.
  split.
  - remember ([] :: ls) as ls0 eqn:E. intros Hi. revert ls E.
    induction Hi as [ls0 Hnil|l1 a r l2 tr _ IH]; intros ls E; subst.
    + constructor. by apply Forall_cons_1 in Hnil as [_ ?].
    + destruct l1 as [|l l1]; simplify_eq/=.
      apply (il_pick l1). by apply IH.
  - induction 1 as [ls Hnil|l1 a r l2 tr _ IH].
    + constructor. by constructor.
    + by apply (il_pick ([] :: l1)).
Qed.

(** The sequential order is one interleaving. *)
Lemma interleaving_concat ls : interleaving ls (concat ls).
Proof.
  induction ls as [|l ls IH]; [by constructor|]. simpl.
  induction l as [|a l IHl]; simpl; [by apply interleaving_cons_nil|].
  by apply (il_pick []).
Qed.

(** Every element of every list is emitted exactly once. *)
Lemma interleaving_Permutation ls tr : interleaving ls tr -> tr ≡ₚ concat ls.
Proof.
  induction 1 as [ls Hnil|l1 a r l2 tr _ IH].
  - induction Hnil as [|l ls -> _ IH]; [done|]. by simpl.
  - rewrite !concat_app in IH |- *. simpl in *.
    rewrite IH. apply Permutation_middle.
Qed.

(** Each list is emitted in its own order. *)
Lemma interleaving_sublist ls tr l : interleaving ls tr -> l ∈ ls -> l `sublist_of` tr.
Proof.
  intros Hi. revert l. induction Hi as [ls Hnil|l1 a r l2 tr _ IH]; intros l Hl.
  - rewrite Forall_forall in Hnil. rewrite (Hnil l Hl). apply sublist_nil_l.
  - apply elem_of_app in Hl as [Hl|Hl]; [apply sublist_cons, IH; set_solver|].
    apply elem_of_cons in Hl as [->|Hl].
    + apply sublist_skip, IH. set_solver.
    + apply sublist_cons, IH. set_solver.
Qed.
End Interleaving.
