(* ===== verification/Dispatcher.v ===== *)
(** Dispatcher: [execute_cmd] and the [# Execute] block of [main]
    (lines 51-65 of [src/scripts/annotate_mp.py], 50-58 of
    [src/scripts/categorize_mp.py]).  With [num_proc == 1] the commands
    run one after the other on the main process; otherwise
    [mp.Pool(num_proc).map(execute_cmd, cmds)] splits them into chunks
    that a pool of worker processes takes from a shared queue.

    A job is three actions in order: the [CMD] line is printed, the
    command runs through [os.system], the [Progress] line is printed.
    Each action happens at a time read from the clock. *)

From Stdlib Require Import ZArith String Wf_nat Inclusion.
From stdpp Require Import base list strings sets sorting.
From S2P Require Import Prelude Interleave.

Module Dispatcher.

Inductive action :=
| ACmd (cmd : string)       (** [print(f'[{get_curr_time()}, CMD] {cmd}')] *)
| ASystem (cmd : string)    (** [os.system(cmd)] starts *)
| AProgress (cmd : string). (** [print(f'[{get_curr_time()}, Progress] {cmd} is done.')] *)

#[export] Instance action_eq_dec : EqDecision action.
Proof. solve_decision. Defined.

(** The body of [execute_cmd], as a list of actions. *)
Definition job_actions (c : string) : list action := [ACmd c; ASystem c; AProgress c].

(** An action and the clock value at which it happened. *)
Record event := Event { ev_time : nat; ev_action : action }.

(** ** Sequential execution ([num_proc == 1]) *)

(** The state the main process changes: the wall clock that
    [get_curr_time] reads and the events so far. *)
Record world := World { clock : nat; events : list event }.

Definition record (a : action) (w : world) : world :=
  World (clock w) (events w ++ [Event (clock w) a]).

Section Sequential.
Context {E : Type}.
(** How long each external command runs, and the exit status that
    [os.system] returns for it: the behaviour of the external tools. *)
Variable duration : string -> nat.
Variable exit_status : string -> Z.

(** [print(f'[{get_curr_time()}, ...] ...')]. *)
Definition log_line (a : action) : PyM world E unit := py_modify (record a).

(** [os.system(cmd)]: blocks until the command exits, returns its status. *)
Definition os_system (c : string) : PyM world E Z :=
  fun w => (inr (exit_status c),
            World (clock w + duration c) (events (record (ASystem c) w))).

(** [execute_cmd(cmd)]: the exit status is discarded. *)
Definition execute_cmd (c : string) : PyM world E unit :=
  log_line (ACmd c) ;;
  os_system c ;;
  log_line (AProgress c).

(** [for cmd in cmds: execute_cmd(cmd)]. *)
Fixpoint run_sequential (cmds : list string) : PyM world E unit :=
  match cmds with
  | [] => py_ret tt
  | c :: r => execute_cmd c ;; run_sequential r
  end.

(** The events of one job: [CMD] and the start of the command at the
    current time, [Progress] once the command has run. *)
Definition job_events (t : nat) (c : string) : list event :=
  [Event t (ACmd c); Event t (ASystem c); Event (t + duration c) (AProgress c)].

Fixpoint seq_events (t : nat) (cmds : list string) : list event :=
  match cmds with
  | [] => []
  | c :: r => job_events t c ++ seq_events (t + duration c) r
  end.

Definition total_duration (cmds : list string) : nat := sum_list_with duration cmds.

Lemma execute_cmd_spec c w :
  execute_cmd c w =
  (inr tt, World (clock w + duration c) (events w ++ job_events (clock w) c)).
Proof. destruct w as [t evs]. cbv -[app Nat.add]. by rewrite <- !app_assoc. Qed.

Lemma run_sequential_spec cmds w :
  run_sequential cmds w =
  (inr tt, World (clock w + total_duration cmds) (events w ++ seq_events (clock w) cmds)).
Proof.
  revert w. induction cmds as [|c r IH]; intros [t evs]; simpl.
  - by rewrite Nat.add_0_r, app_nil_r.
  - change (execute_cmd c ;; run_sequential r) with
      (py_bind (execute_cmd c) (fun _ => run_sequential r)).
    unfold py_bind. rewrite execute_cmd_spec, IH. simpl.
    by rewrite Nat.add_assoc, <- app_assoc.
Qed.

Lemma seq_events_actions t cmds :
  map ev_action (seq_events t cmds) = concat (map job_actions cmds).
Proof.
  revert t. induction cmds as [|c r IH]; intros t; simpl; [done|]. by rewrite IH.
Qed.
End Sequential.

(** Log lines carry non-decreasing times. *)
Definition times_ordered (evs : list event) : Prop :=
  StronglySorted (fun e1 e2 => ev_time e1 <= ev_time e2) evs.

Lemma seq_events_times duration t cmds :
  times_ordered (seq_events duration t cmds) /\
  Forall (fun e => t <= ev_time e) (seq_events duration t cmds).
Proof.
  revert t. induction cmds as [|c r IH]; intros t; simpl.
  - split; constructor.
  - destruct (IH (t + duration c)) as [Hs Hf]. unfold times_ordered in *.
    split; repeat constructor; simpl; try lia; try exact Hs;
      eapply Forall_impl; try exact Hf; simpl; intros; lia.
Qed.

(** ** Properties of the sequential dispatcher *)

(** C6: with [num_proc == 1] the main process runs the jobs in list
    order and never raises.  The events [run_sequential] adds to the log
    are the jobs' actions, one job after the other; they are stamped at
    non-decreasing times, none before the clock at the start, and the
    clock ends advanced by the commands' running times. *)
Theorem run_sequential_in_order {E} duration exit_status cmds w :
  let '(r, w') := @run_sequential E duration exit_status cmds w in
  r = inr tt /\
  exists new, events w' = events w ++ new /\
    map ev_action new = List.concat (map job_actions cmds) /\
    times_ordered new /\ Forall (fun e => clock w <= ev_time e) new /\
    clock w' = clock w + total_duration duration cmds.
Proof.
  rewrite run_sequential_spec. cbn. split; [done|].
  exists (seq_events duration (clock w) cmds). split; [done|].
  rewrite seq_events_actions. destruct (seq_events_times duration (clock w) cmds). done.
Qed.

(** C7: the exit status of a command is discarded: whatever the
    external tools return, the same commands run and the same lines are
    logged; a failing job never stops the batch. *)
Theorem run_sequential_ignores_status {E} duration st1 st2 cmds w :
  @run_sequential E duration st1 cmds w = @run_sequential E duration st2 cmds w.
Proof. by rewrite !run_sequential_spec. Qed.

(** ** The process pool ([num_proc > 1]) *)

(** [Pool.map] picks the chunk size:
    [chunksize, extra = divmod(len(iterable), len(self._pool) * 4)],
    [if extra: chunksize += 1], [if len(iterable) == 0: chunksize = 0]. *)
Definition map_chunksize (n_items n_procs : nat) : nat :=
  if n_items =? 0 then 0
  else n_items / (n_procs * 4) + (if n_items mod (n_procs * 4) =? 0 then 0 else 1).

(** [Pool._get_tasks(func, it, size)]: [x = tuple(itertools.islice(it, size))]
    until [x] is empty.  Each round consumes at least one item, so
    [length l] rounds are enough. *)
Fixpoint get_tasks_aux (fuel size : nat) (l : list string) : list (list string) :=
  match fuel with
  | 0 => []
  | S f =>
      match take size l with
      | [] => []
      | x :: xs => (x :: xs) :: get_tasks_aux f size (drop size l)
      end
  end.

Definition get_tasks (size : nat) (l : list string) : list (list string) :=
  get_tasks_aux (length l) size l.

(** A worker process: what remains of the job it is running, and the
    jobs of its chunk after it ([mapstar] runs [list(map(func, chunk))]). *)
Record worker := Worker { w_cur : list action; w_rest : list string }.

#[export] Instance worker_eq_dec : EqDecision worker.
Proof. solve_decision. Defined.

Definition idle_worker : worker := Worker [] [].

(** The pool: the task queue of chunks, the [num_proc] workers, and
    the clock. *)
Record pool := Pool { queue : list (list string); workers : list worker; pclock : nat }.

(** One step of the pool.  Any worker may move; time may pass before an
    action.
    - [ps_take]: an idle worker takes the next chunk from the queue;
    - [ps_next]: a worker starts the next job of its chunk;
    - [ps_act]: a worker performs the next action of its job. *)
Inductive pool_step : pool -> option event -> pool -> Prop :=
| ps_take q ch ws t i :
    ws !! i = Some idle_worker ->
    pool_step (Pool (ch :: q) ws t) None (Pool q (<[i := Worker [] ch]> ws) t)
| ps_next q ws t i c r :
    ws !! i = Some (Worker [] (c :: r)) ->
    pool_step (Pool q ws t) None (Pool q (<[i := Worker (job_actions c) r]> ws) t)
| ps_act q ws t t' i a cur r :
    ws !! i = Some (Worker (a :: cur) r) -> t <= t' ->
    pool_step (Pool q ws t) (Some (Event t' a)) (Pool q (<[i := Worker cur r]> ws) t').

(** [pool.map] returns, and [close]/[join] finish, once the queue is
    empty and every worker is idle. *)
Definition pool_done (s : pool) : Prop :=
  queue s = [] /\ Forall (fun w => w = idle_worker) (workers s).

#[export] Instance pool_done_dec s : Decision (pool_done s).
Proof. unfold pool_done. apply _. Defined.

(** [mp.Pool(num_proc)] followed by [pool.map(execute_cmd, cmds)],
    started at time [t]. *)
Definition pool_init (num_proc : nat) (cmds : list string) (t : nat) : pool :=
  Pool (get_tasks (map_chunksize (length cmds) num_proc) cmds)
       (replicate num_proc idle_worker) t.

(** A complete run of the pool from [s]: the events it emits. *)
Definition pool_run (s : pool) (tr : list event) : Prop :=
  exists s', lstar pool_step s tr s' /\ pool_done s'.

(** ** Lemmas on the pool *)

Lemma get_tasks_aux_concat fuel size l :
  0 < size -> length l <= fuel -> List.concat (get_tasks_aux fuel size l) = l.
Proof.
  revert l. induction fuel as [|f IH]; intros l Hs Hl; simpl.
  - destruct l; simpl in *; [done|lia].
  - destruct l as [|x l]; [by rewrite take_nil|].
    destruct size as [|size]; [lia|]. simpl.
    rewrite IH; [by rewrite take_drop|lia|rewrite length_drop; simpl in *; lia].
Qed.

Lemma get_tasks_concat size l : 0 < size \/ l = [] -> List.concat (get_tasks size l) = l.
Proof.
  intros [Hs| ->]; [by apply get_tasks_aux_concat|done].
Qed.

Lemma map_chunksize_pos n p : 0 < n -> 0 < map_chunksize n p.
Proof.
  unfold map_chunksize. intros Hn. destruct (Nat.eqb_spec n 0); [lia|].
  destruct (Nat.eqb_spec (n mod (p * 4)) 0) as [Hm|Hm]; [|lia].
  destruct (decide (p = 0)) as [->|Hp]; [simpl in *; lia|].
  pose proof (Nat.div_mod n (p * 4) ltac:(lia)). nia.
Qed.

(** What remains to be emitted: the rest of each worker's current job,
    the later jobs of its chunk, and the jobs of the queued chunks. *)
Definition worker_jobs (w : worker) : list (list action) :=
  w_cur w :: map job_actions (w_rest w).

Definition pending (s : pool) : list (list action) :=
  List.concat (map worker_jobs (workers s)) ++ map job_actions (List.concat (queue s)).

Lemma pending_focus q ws t i w :
  ws !! i = Some w ->
  pending (Pool q ws t) ≡ₚ
  worker_jobs w ++ List.concat (map worker_jobs (delete i ws)) ++ map job_actions (List.concat q).
Proof.
  intros Hi. unfold pending; cbn [workers queue]. rewrite (app_assoc (worker_jobs w)).
  apply Permutation_app_tail. by rewrite (delete_Permutation ws i w Hi) at 1.
Qed.

Lemma pending_update q ws t i w w' :
  ws !! i = Some w ->
  pending (Pool q (<[i:=w']> ws) t) ≡ₚ
  worker_jobs w' ++ List.concat (map worker_jobs (delete i ws)) ++ map job_actions (List.concat q).
Proof.
  intros Hi. unfold pending; cbn [workers queue]. rewrite (app_assoc (worker_jobs w')).
  apply Permutation_app_tail. by rewrite (insert_Permutation ws i w w' Hi).
Qed.

(** One step keeps the pending jobs, up to the action it emits. *)
Lemma pool_step_pending s e s' tr :
  pool_step s e s' -> interleaving (pending s') tr ->
  interleaving (pending s) (option_list (ev_action <$> e) ++ tr).
Proof.
  intros Hs. inversion Hs as [q ch ws t i Hi|q ws t i c r Hi|q ws t t' i a cur r Hi Ht];
    subst; simpl.
  - rewrite (pending_update q ws t i _ (Worker [] ch) Hi), (pending_focus (ch :: q) ws t i _ Hi).
    intros H. eapply interleaving_perm; [|exact H]. simpl. rewrite map_app. solve_Permutation.
  - rewrite (pending_update q ws t i _ (Worker (job_actions c) r) Hi), (pending_focus q ws t i _ Hi).
    intros H. by apply (interleaving_cons_nil (_ :: _)).
  - rewrite (pending_update q ws t' i _ (Worker cur r) Hi), (pending_focus q ws t i _ Hi).
    intros H. by apply (il_pick []).
Qed.

Lemma pending_done s : pool_done s -> Forall (fun l => l = []) (pending s).
Proof.
  destruct s as [q ws t]. intros [Hq Hw]; simpl in *; subst. unfold pending; simpl.
  rewrite app_nil_r. induction Hw as [|w ws -> _ IH]; simpl; [done|].
  by constructor.
Qed.

Lemma pool_run_pending s tr s' :
  lstar pool_step s tr s' -> pool_done s' -> interleaving (pending s) (map ev_action tr).
Proof.
  induction 1 as [s|s s1 tr s2 Hs _ IH|s e s1 tr s2 Hs _ IH]; intros Hd.
  - constructor. by apply pending_done.
  - apply (pool_step_pending _ _ _ _ Hs (IH Hd)).
  - apply (pool_step_pending _ _ _ _ Hs (IH Hd)).
Qed.

Lemma pending_init p cmds t :
  pending (pool_init p cmds t) = replicate p [] ++ map job_actions cmds.
Proof.
  unfold pending, pool_init; simpl. rewrite get_tasks_concat.
  - f_equal. induction p as [|p IH]; simpl; [done|]. by rewrite IH.
  - destruct cmds; [by right|left]. apply map_chunksize_pos. simpl; lia.
Qed.

Lemma interleaving_replicate_nil n (ls : list (list action)) tr :
  interleaving (replicate n [] ++ ls) tr <-> interleaving ls tr.
Proof. induction n as [|n IH]; simpl; [done|]. by rewrite interleaving_cons_nil. Qed.

(** ** Termination of the pool *)

Definition worker_measure (w : worker) : nat := length (w_cur w) + 4 * length (w_rest w).

Definition pool_measure (s : pool) : nat :=
  sum_list_with worker_measure (workers s) +
  sum_list_with (fun ch => 5 * length ch + 1) (queue s).

Lemma measure_update ws i w w' :
  ws !! i = Some w ->
  sum_list_with worker_measure (<[i:=w']> ws) + worker_measure w =
  sum_list_with worker_measure ws + worker_measure w'.
Proof.
  intros Hi. rewrite (insert_Permutation ws i w w' Hi).
  rewrite (delete_Permutation ws i w Hi) at 2. simpl. lia.
Qed.

(** Every step of the pool makes progress: no run is infinite. *)
Lemma pool_step_measure s e s' : pool_step s e s' -> pool_measure s' < pool_measure s.
Proof.
  unfold pool_measure.
  destruct 1 as [q ch ws t i Hi|q ws t i c r Hi|q ws t t' i a cur r Hi _];
    pose proof (fun w' => measure_update _ _ _ w' Hi) as Hm; simpl in *.
  - specialize (Hm (Worker [] ch)). unfold worker_measure in *; simpl in *. lia.
  - specialize (Hm (Worker (job_actions c) r)). unfold worker_measure in *; simpl in *. lia.
  - specialize (Hm (Worker cur r)). unfold worker_measure in *; simpl in *. lia.
Qed.

Lemma pool_step_workers s e s' : pool_step s e s' -> length (workers s') = length (workers s).
Proof. destruct 1; simpl; apply length_insert. Qed.

(** A pool with at least one worker that is not done can always step. *)
Lemma pool_progress s :
  workers s <> [] -> ~ pool_done s -> exists e s', pool_step s e s'.
Proof.
  destruct s as [q ws t]. intros Hne Hnd. unfold pool_done in Hnd; simpl in *.
  destruct (list_find (fun w => w <> idle_worker) ws) as [[i [[|a cur] r]]|] eqn:Hf.
  - apply list_find_Some in Hf as (Hi & Hw & _).
    destruct r as [|c r]; [done|]. eexists _, _. by eapply ps_next.
  - apply list_find_Some in Hf as (Hi & _ & _). eexists _, _. by eapply ps_act.
  - apply list_find_None in Hf.
    assert (Forall (fun w => w = idle_worker) ws) as Hall.
    { eapply Forall_impl; [exact Hf|]. intros w Hw. by destruct (decide (w = idle_worker)). }
    destruct q as [|ch q]; [tauto|].
    destruct ws as [|w ws]; [done|]. inversion Hall; subst.
    eexists _, _. by eapply (ps_take _ _ _ _ 0).
Qed.

(** C5: the pool has no infinite run: every step decreases
    [pool_measure], so however the workers are scheduled, [pool.map]
    cannot run forever (given that each command returns). *)
Theorem pool_step_wf : well_founded (fun s' s => exists e, pool_step s e s').
Proof.
  apply (wf_incl _ _ (ltof _ pool_measure)); [|apply well_founded_ltof].
  intros s' s [e Hs]. by apply (pool_step_measure s e s').
Qed.

(** From any state of a pool with at least one worker, some sequence of
    steps empties the queue and leaves every worker idle. *)
Lemma pool_terminates s :
  workers s <> [] -> exists tr s', lstar pool_step s tr s' /\ pool_done s'.
Proof.
  induction s as [s IH] using (measure_ind pool_measure).
  intros Hne. destruct (decide (pool_done s)) as [Hd|Hnd].
  { exists [], s. split; [constructor|done]. }
  destruct (pool_progress s Hne Hnd) as (e & s' & Hs).
  destruct (IH s' (pool_step_measure _ _ _ Hs)) as (tr & s'' & Hrun & Hd).
  { intros Hw. apply Hne. apply length_zero_iff_nil.
    rewrite <- (pool_step_workers _ _ _ Hs). by rewrite Hw. }
  exists (option_list e ++ tr), s''. split; [|done].
  destruct e; simpl; eauto with cwas.
Qed.

(** Events of a pool run carry non-decreasing times, not earlier than
    the clock of the state it starts from. *)
Lemma pool_run_times s tr s' :
  lstar pool_step s tr s' ->
  times_ordered tr /\ Forall (fun e => pclock s <= ev_time e) tr.
Proof.
  unfold times_ordered.
  induction 1 as [s|s s1 tr s2 Hs _ [IHs IHf]|s e s1 tr s2 Hs _ [IHs IHf]].
  - split; constructor.
  - inversion Hs; subst; simpl in *; by split.
  - inversion Hs as [| |q ws t t' i a cur r Hi Ht]; subst; simpl in *.
    split; constructor; try (simpl; lia); try exact IHs;
      eapply Forall_impl; try exact IHf; simpl; intros; lia.
Qed.

(** ** The pool refines the dispatcher contract *)

Lemma pool_run_interleaving p cmds t tr :
  pool_run (pool_init p cmds t) tr -> interleaving (map job_actions cmds) (map ev_action tr).
Proof.
  intros (s' & Hrun & Hd). apply (interleaving_replicate_nil p).
  rewrite <- (pending_init p cmds t). by eapply pool_run_pending.
Qed.

(** C1: every complete run of [pool.map(execute_cmd, cmds)] on a pool
    of [p] workers emits an interleaving of the jobs' action lists: each
    command's [CMD] line, [os.system] call and [Progress] line appear
    exactly once and in this order, and nothing else is emitted. *)
Theorem pool_refines_spec p cmds t tr :
  pool_run (pool_init p cmds t) tr -> interleaving (map job_actions cmds) (map ev_action tr).
Proof. apply pool_run_interleaving. Qed.

Lemma pool_init_completes p cmds t :
  p <> 0 -> exists tr, pool_run (pool_init p cmds t) tr.
Proof.
  intros Hp. destruct (pool_terminates (pool_init p cmds t)) as (tr & s' & Hr & Hd).
  { destruct p; [done|]. discriminate. }
  by exists tr, s'.
Qed.

(** C4: [pool.map(execute_cmd, cmds)] on [mp.Pool(p)] with [p >= 1]
    can always complete: some complete run exists. *)
Theorem pool_map_returns p cmds t :
  p <> 0 -> exists tr, pool_run (pool_init p cmds t) tr.
Proof. apply pool_init_completes. Qed.

Example pool_map_returns_witness : exists tr, pool_run (pool_init 4 ["a"; "b"; "c"] 0) tr.
Proof. apply pool_map_returns. discriminate. Defined.

(** One step of worker [i] (an idle worker taking a chunk, starting a
    job, or acting). *)
Ltac pool_step_by i :=
  first
    [ eapply lstar_silent; [eapply (ps_take _ _ _ _ i); reflexivity|]
    | eapply lstar_silent; [eapply (ps_next _ _ _ i); reflexivity|]
    | eapply lstar_label; [eapply (ps_act _ _ _ _ i); [reflexivity|lia]|] ].

(** Two workers running two jobs whose lines interleave. *)
Example pool_refines_spec_witness :
  let tr := [Event 0 (ACmd "a"); Event 0 (ACmd "b"); Event 1 (ASystem "a");
             Event 1 (ASystem "b"); Event 2 (AProgress "b"); Event 3 (AProgress "a")] in
  pool_run (pool_init 2 ["a"; "b"] 0) tr /\
  interleaving (map job_actions ["a"; "b"]) (map ev_action tr).
Proof.
  assert (pool_run (pool_init 2 ["a"; "b"] 0)
    [Event 0 (ACmd "a"); Event 0 (ACmd "b"); Event 1 (ASystem "a");
     Event 1 (ASystem "b"); Event 2 (AProgress "b"); Event 3 (AProgress "a")]) as Hrun.
  { eexists. split.
    - pool_step_by 0. pool_step_by 1. pool_step_by 0. pool_step_by 1.
      pool_step_by 0. pool_step_by 1. pool_step_by 0. pool_step_by 1.
      pool_step_by 1. pool_step_by 0. apply lstar_refl.
    - decide_by_eval. }
  split; [exact Hrun|]. exact (pool_refines_spec 2 ["a"; "b"] 0 _ Hrun).
Defined.

(** ** The dispatcher contract and its two implementations

    What the rest of [main] relies on: a dispatcher, given the commands
    and the start time, produces the events of a complete run; every such
    run is an interleaving of the jobs at non-decreasing times, and some
    complete run exists. *)
Record dispatcher := MkDispatcher {
  d_run : list string -> nat -> list event -> Prop;
  d_sound : forall cmds t tr, d_run cmds t tr ->
    interleaving (map job_actions cmds) (map ev_action tr) /\ times_ordered tr;
  d_live : forall cmds t, exists tr, d_run cmds t tr
}.

Program Definition sequential_dispatcher (duration : string -> nat) : dispatcher :=
  {| d_run cmds t tr := tr = seq_events duration t cmds |}.
Next Obligation.
  intros duration cmds t tr ->. split; [|apply seq_events_times].
  rewrite seq_events_actions. apply interleaving_concat.
Qed.
Next Obligation. intros duration cmds t. by eexists. Qed.

Program Definition pool_dispatcher (p : nat) (Hp : p <> 0) : dispatcher :=
  {| d_run cmds t tr := pool_run (pool_init p cmds t) tr |}.
Next Obligation.
  intros p Hp cmds t tr Hr. cbn beta in Hr. split; [by eapply pool_run_interleaving|].
  destruct Hr as (s' & Hr & _). exact (proj1 (pool_run_times _ _ _ Hr)).
Qed.
Next Obligation. intros p Hp cmds t. by apply pool_init_completes. Qed.

(** The commands passed to [os.system], in order. *)
Fixpoint calls_of (acts : list action) : list string :=
  match acts with
  | [] => []
  | ASystem c :: r => c :: calls_of r
  | _ :: r => calls_of r
  end.

Definition system_calls (tr : list event) : list string := calls_of (map ev_action tr).

Lemma calls_of_jobs cmds : calls_of (List.concat (map job_actions cmds)) = cmds.
Proof. induction cmds as [|c r IH]; simpl; [done|]. by rewrite IH. Qed.

Lemma calls_of_Permutation a1 a2 : a1 ≡ₚ a2 -> calls_of a1 ≡ₚ calls_of a2.
Proof.
  induction 1 as [| x l1 l2 _ IH | x y l | l1 l2 l3 _ IH1 _ IH2]; simpl.
  - done.
  - destruct x; by rewrite IH.
  - destruct x, y; by try constructor.
  - by rewrite IH1, IH2.
Qed.

Lemma dispatcher_calls_perm (D : dispatcher) cmds t tr :
  d_run D cmds t tr ->
  system_calls tr ≡ₚ cmds /\
  forall c, c ∈ cmds -> job_actions c `sublist_of` map ev_action tr.
Proof.
  intros Hr. destruct (d_sound D cmds t tr Hr) as [Hi _]. split.
  - unfold system_calls. rewrite <- (calls_of_jobs cmds).
    apply calls_of_Permutation. by apply interleaving_Permutation.
  - intros c Hc. eapply interleaving_sublist; [exact Hi|]. by apply (list_elem_of_fmap_2 job_actions).
Qed.

End Dispatcher.
