(* ===== verification/Scheduler.v ===== *)
(** Facts about [pool.map(execute_cmd, cmds)] beyond its contract:
    how [Pool.map] cuts the commands into chunks (at most four per
    worker, none empty), the bound of [p] commands running at once on
    [mp.Pool(p)], and an executable schedule of the pool: a
    function that runs the step relation [pool_step] of [Dispatcher]
    with a fixed choice of the worker that moves, proved to produce
    complete runs of the pool and to need no more fuel than the pool's
    measure. *)

From Stdlib Require Import String Lia.
From stdpp Require Import base list strings.
From S2P Require Import Prelude Interleave Dispatcher.

Module Scheduler.

Import Dispatcher.

(** ** The chunks of [Pool.map] *)

Lemma get_tasks_aux_nil fuel cs : get_tasks_aux fuel cs [] = [].
Proof. destruct fuel; cbn; [done|]. by rewrite take_nil. Qed.

Lemma get_tasks_aux_count fuel cs l :
  0 < cs -> length (get_tasks_aux fuel cs l) * cs < length l + cs.
Proof.
  intros Hcs. induction fuel as [|f IH] in l |- *; cbn; [lia|].
  destruct (take cs l) as [|x xs] eqn:Ht; cbn; [lia|].
  pose proof (IH (drop cs l)) as H. rewrite length_drop in H.
  assert (Hl : 0 < length l) by (destruct l as [|y l]; [by rewrite take_nil in Ht|cbn; lia]).
  destruct (Nat.le_gt_cases cs (length l)) as [Hle|Hgt]; [lia|].
  rewrite drop_ge, get_tasks_aux_nil by lia. cbn. lia.
Qed.

Lemma get_tasks_aux_chunks fuel cs l :
  Forall (fun ch => ch <> [] /\ length ch <= cs) (get_tasks_aux fuel cs l).
Proof.
  induction fuel as [|f IH] in l |- *; cbn; [done|].
  destruct (take cs l) as [|x xs] eqn:Ht; [done|]. constructor; [|apply IH].
  split; [done|]. rewrite <- Ht, length_take. lia.
Qed.

(** [chunksize, extra = divmod(len(iterable), len(self._pool) * 4)],
    rounded up: four chunks per worker hold every item. *)
Lemma map_chunksize_cover n p : 0 < p -> n <= map_chunksize n p * (p * 4).
Proof.
  intros Hp. unfold map_chunksize. destruct (Nat.eqb_spec n 0); [lia|].
  pose proof (Nat.div_mod n (p * 4) ltac:(lia)) as Hdm.
  pose proof (Nat.mod_upper_bound n (p * 4) ltac:(lia)) as Hm.
  destruct (Nat.eqb_spec (n mod (p * 4)) 0); nia.
Qed.

(** C29: [pool.map] on [p >= 1] workers cuts the commands into at most
    [4 * p] chunks ([Pool.map]'s chunk size), none empty and none
    longer than the chunk size. *)
Theorem pool_map_chunks p l :
  0 < p ->
  length (get_tasks (map_chunksize (length l) p) l) <= 4 * p /\
  Forall (fun ch => ch <> [] /\ length ch <= map_chunksize (length l) p)
         (get_tasks (map_chunksize (length l) p) l).
Proof.
  intros Hp. split; [|apply get_tasks_aux_chunks].
  destruct (decide (l = [])) as [->|Hne]; [cbn; lia|].
  assert (Hn : 0 < length l) by (destruct l as [|y l]; [congruence|cbn; lia]).
  pose proof (map_chunksize_pos (length l) p Hn) as Hcs.
  pose proof (get_tasks_aux_count (length l) _ l Hcs) as Hc.
  pose proof (map_chunksize_cover (length l) p Hp) as Hcov.
  unfold get_tasks. nia.
Qed.

(** The ten jobs of the spec's second scenario. *)
Definition scenario2_cmds : list string :=
  ["job0"; "job1"; "job2"; "job3"; "job4"; "job5"; "job6"; "job7"; "job8"; "job9"].

Example pool_map_chunks_witness :
  length (get_tasks (map_chunksize (length scenario2_cmds) 4) scenario2_cmds) <= 4 * 4.
Proof. exact (proj1 (pool_map_chunks 4 scenario2_cmds ltac:(lia))). Defined.

(** ** One worker can run every job in order *)

Section OneWorker.
(** How long each external command runs. *)
Variable duration : string -> nat.

(** Worker [i] acting on its own slot: after [<[i := w]>], it finds [w]. *)
Lemma worker_at (ws : list worker) i w w' : ws !! i = Some w -> <[i := w']> ws !! i = Some w'.
Proof. intros Hi. apply list_lookup_insert_eq. by eapply lookup_lt_Some. Qed.

(** A worker [i] that starts a job [c] runs it to the end: its [CMD]
    and [os.system] at the current time, its [Progress] line once the
    command has run. *)
Lemma job_run q ws t i c r :
  ws !! i = Some (Worker [] (c :: r)) ->
  lstar pool_step (Pool q ws t) (job_events duration t c)
        (Pool q (<[i := Worker [] r]> ws) (t + duration c)).
Proof.
  intros Hi. pose proof (fun w => worker_at ws i _ w Hi) as Hw.
  eapply lstar_silent; [by eapply ps_next|].
  eapply lstar_label; [eapply ps_act; [apply Hw|reflexivity]|].
  rewrite list_insert_insert_eq.
  eapply lstar_label; [eapply ps_act; [apply Hw|reflexivity]|].
  rewrite list_insert_insert_eq.
  eapply lstar_label; [eapply ps_act; [apply Hw|lia]|].
  rewrite list_insert_insert_eq. constructor.
Qed.

(** A worker [i] holding a chunk runs its jobs one after the other, as
    [run_sequential] would, and becomes idle. *)
Lemma chunk_run q ws t i ch :
  ws !! i = Some (Worker [] ch) ->
  lstar pool_step (Pool q ws t) (seq_events duration t ch)
        (Pool q (<[i := idle_worker]> ws) (t + total_duration duration ch)).
Proof.
  induction ch as [|c r IH] in ws, t |- *; intros Hi.
  - cbn. rewrite list_insert_id by done. rewrite Nat.add_0_r. constructor.
  - cbn [seq_events].
    replace (t + total_duration duration (c :: r))
      with (t + duration c + total_duration duration r) by (unfold total_duration; cbn; lia).
    eapply lstar_trans; [by apply job_run|].
    specialize (IH (<[i:=Worker [] r]> ws) (t + duration c) (worker_at _ _ _ _ Hi)).
    by rewrite list_insert_insert_eq in IH.
Qed.

Lemma total_duration_app l1 l2 :
  total_duration duration (l1 ++ l2) = total_duration duration l1 + total_duration duration l2.
Proof. unfold total_duration. by rewrite sum_list_with_app. Qed.

Lemma seq_events_app t l1 l2 :
  seq_events duration t (l1 ++ l2) =
  seq_events duration t l1 ++ seq_events duration (t + total_duration duration l1) l2.
Proof.
  induction l1 as [|c l1 IH] in t |- *; cbn [seq_events app]; [by rewrite Nat.add_0_r|].
  rewrite IH, app_assoc. unfold total_duration. cbn. by rewrite Nat.add_assoc.
Qed.

(** With worker [0] idle, it can take the chunks one by one and run
    each to the end. *)
Lemma queue_run q ws t :
  ws !! 0 = Some idle_worker ->
  lstar pool_step (Pool q ws t) (seq_events duration t (List.concat q))
        (Pool [] ws (t + total_duration duration (List.concat q))).
Proof.
  induction q as [|ch q IH] in t |- *; intros H0; cbn.
  - rewrite Nat.add_0_r. constructor.
  - eapply lstar_silent; [by eapply (ps_take _ _ _ _ 0)|].
    rewrite seq_events_app, total_duration_app.
    eapply lstar_trans; [apply chunk_run, (worker_at _ _ _ _ H0)|].
    rewrite list_insert_insert_eq, list_insert_id by done.
    rewrite Nat.add_assoc. by apply IH.
Qed.

End OneWorker.

(** C30: the behaviour of the sequential branch ([num_proc == 1]) is
    one of the behaviours of the pool: on [mp.Pool(p)] with [p >= 1],
    the run in which worker [0] takes every chunk in turn emits exactly
    the events [seq_events] of [for cmd in cmds: execute_cmd(cmd)],
    times included, and completes. *)
Theorem pool_runs_sequential duration p cmds t :
  p <> 0 -> pool_run (pool_init p cmds t) (seq_events duration t cmds).
Proof.
  intros Hp. destruct p as [|p]; [done|].
  pose proof (queue_run duration (get_tasks (map_chunksize (length cmds) (S p)) cmds)
                (replicate (S p) idle_worker) t eq_refl) as Hq.
  rewrite get_tasks_concat in Hq.
  - eexists. split; [exact Hq|]. split; [done|]. by apply Forall_replicate.
  - destruct cmds; [by right|left]. apply map_chunksize_pos. cbn; lia.
Qed.

Example pool_runs_sequential_witness :
  pool_run (pool_init 4 scenario2_cmds 0) (seq_events (fun _ => 1) 0 scenario2_cmds).
Proof. apply pool_runs_sequential. discriminate. Defined.

(** ** An executable schedule of the pool *)

(** ** At most [p] commands at once

    The spec asks for a bounded degree of parallelism.  In every run of
    [mp.Pool(p).map(execute_cmd, cmds)], at every point, the [os.system]
    calls started exceed the [Progress] lines printed by at most [p]:
    each of the [p] workers runs one command at a time. *)

Definition is_system (a : action) : bool := match a with ASystem _ => true | _ => false end.
Definition is_progress (a : action) : bool := match a with AProgress _ => true | _ => false end.

(** The [os.system] calls started, and the [Progress] lines printed. *)
Definition started (tr : list event) : nat := length (List.filter (fun e => is_system (ev_action e)) tr).
Definition finished (tr : list event) : nat := length (List.filter (fun e => is_progress (ev_action e)) tr).

(** A worker whose command has started and not yet finished. *)
Definition running (w : worker) : bool := match w_cur w with [AProgress _] => true | _ => false end.

Definition n_running (s : pool) : nat := length (List.filter running (workers s)).

(** What remains of a worker's job is a suffix of [job_actions c]. *)
Definition cur_ok (cur : list action) : Prop :=
  cur = [] \/ exists c, cur = [AProgress c] \/ cur = [ASystem c; AProgress c] \/ cur = job_actions c.

Definition workers_ok (s : pool) : Prop := Forall (fun w => cur_ok (w_cur w)) (workers s).

Lemma pool_step_workers_ok s e s' : pool_step s e s' -> workers_ok s -> workers_ok s'.
Proof.
  unfold workers_ok. destruct 1 as [q ch ws t i Hi|q ws t i c r Hi|q ws t t' i a cur r Hi _];
    cbn; intros Hws; apply Forall_insert; try done; cbn.
  - by left.
  - right. exists c. by right; right.
  - pose proof (proj1 (Forall_lookup _ _) Hws i _ Hi) as Hc. cbn in Hc. unfold cur_ok, job_actions in Hc.
    destruct Hc as [?|[c [Hc|[Hc|Hc]]]]; simplify_eq/=;
      [by left|right; exists c; by left|right; exists c; right; by left].
Qed.

(** A step starts a command exactly when a worker begins running one,
    and prints a [Progress] line exactly when a worker stops. *)
Lemma pool_step_count s e s' :
  pool_step s e s' -> workers_ok s ->
  started (option_list e) + n_running s = finished (option_list e) + n_running s'.
Proof.
  unfold workers_ok, n_running.
  destruct 1 as [q ch ws t i Hi|q ws t i c r Hi|q ws t t' i a cur r Hi _]; cbn; intros Hws;
    pose proof (fun y => filter_insert_count running ws i _ y Hi) as Hn.
  - specialize (Hn (Worker [] ch)). cbn in Hn. lia.
  - specialize (Hn (Worker (job_actions c) r)). cbn in Hn. lia.
  - specialize (Hn (Worker cur r)). pose proof (proj1 (Forall_lookup _ _) Hws i _ Hi) as Hc.
    cbn in Hc. unfold cur_ok, job_actions in Hc. destruct Hc as [?|[c [Hc|[Hc|Hc]]]]; simplify_eq/=; lia.
Qed.

Lemma started_app tr1 tr2 : started (tr1 ++ tr2) = started tr1 + started tr2.
Proof. unfold started. by rewrite List.filter_app, length_app. Qed.

Lemma finished_app tr1 tr2 : finished (tr1 ++ tr2) = finished tr1 + finished tr2.
Proof. unfold finished. by rewrite List.filter_app, length_app. Qed.

Lemma lstar_count s tr s' :
  lstar pool_step s tr s' -> workers_ok s ->
  started tr + n_running s = finished tr + n_running s' /\ workers_ok s' /\
  length (workers s') = length (workers s).
Proof.
  induction 1 as [s|s s1 tr s2 Hs _ IH|s l s1 tr s2 Hs _ IH]; intros Hws; [done| |];
    pose proof (pool_step_count _ _ _ Hs Hws) as Hc; pose proof (pool_step_workers _ _ _ Hs) as Hl;
    destruct (IH (pool_step_workers_ok _ _ _ Hs Hws)) as (IH1 & IH2 & IH3); cbn [option_list] in Hc.
  - split_and!; [|done|congruence]. cbn in Hc. lia.
  - split_and!; [|done|congruence].
    change (option_list (Some l)) with [l] in Hc.
    change (l :: tr) with ([l] ++ tr). rewrite started_app, finished_app. lia.
Qed.

Lemma length_filter_le {A} (f : A -> bool) (l : list A) : length (List.filter f l) <= length l.
Proof. induction l as [|a l IH]; cbn; [lia|]. destruct (f a); cbn; lia. Qed.

Lemma n_running_init p cmds t : n_running (pool_init p cmds t) = 0.
Proof. unfold n_running. cbn. induction p as [|p IH]; cbn; [done|exact IH]. Qed.

(** C2: at every point of every run of [pool.map(execute_cmd, cmds)] on
    [mp.Pool(p)], every [Progress] line follows a started command, and
    at most [p] commands have been started by [os.system] without their
    [Progress] line: the degree of parallelism is bounded by [p]. *)
Theorem pool_bounded_parallelism p cmds t tr s :
  lstar pool_step (pool_init p cmds t) tr s -> finished tr <= started tr <= finished tr + p.
Proof.
  intros H. destruct (lstar_count _ _ _ H) as (Hc & _ & Hl); [apply Forall_replicate; by left|].
  rewrite n_running_init in Hc. pose proof (length_filter_le running (workers s)) as Hle.
  unfold n_running in Hc. rewrite Hl in Hle. cbn in Hle. rewrite length_replicate in Hle. lia.
Qed.

(** Two workers, two commands: both are running after four actions. *)
Definition two_running : list event :=
  [Event 0 (ACmd "a"); Event 0 (ASystem "a"); Event 0 (ACmd "b"); Event 0 (ASystem "b")].

Example pool_bounded_parallelism_witness :
  exists s, lstar pool_step (pool_init 2 ["a"; "b"] 0) two_running s /\
    started two_running = 2 /\ started two_running <= finished two_running + 2.
Proof.
  assert (Hr : exists s, lstar pool_step (pool_init 2 ["a"; "b"] 0) two_running s).
  { change (pool_init 2 ["a"; "b"] 0) with (Pool [["a"]; ["b"]] [idle_worker; idle_worker] 0).
    eexists.
    eapply lstar_silent; [apply (ps_take _ _ _ _ 0); reflexivity|].
    eapply lstar_silent; [apply (ps_take _ _ _ _ 1); reflexivity|].
    eapply lstar_silent; [apply (ps_next _ _ _ 0 "a" []); reflexivity|].
    eapply lstar_silent; [apply (ps_next _ _ _ 1 "b" []); reflexivity|].
    eapply lstar_label; [apply (ps_act _ _ _ 0 0); [reflexivity|lia]|].
    eapply lstar_label; [apply (ps_act _ _ _ 0 0); [reflexivity|lia]|].
    eapply lstar_label; [apply (ps_act _ _ _ 0 1); [reflexivity|lia]|].
    eapply lstar_label; [apply (ps_act _ _ _ 0 1); [reflexivity|lia]|].
    apply lstar_refl. }
  destruct Hr as [s Hs]. exists s. split; [exact Hs|]. split; [reflexivity|].
  exact (proj2 (pool_bounded_parallelism 2 ["a"; "b"] 0 two_running s Hs)).
Defined.

Section Exec.
Variable duration : string -> nat.

(** The clock when action [a] happens, started at [t]: a [Progress]
    line waits for the command to finish. *)
Definition act_time (t : nat) (a : action) : nat :=
  match a with AProgress c => t + duration c | _ => t end.

(** One step of a fixed schedule: the first busy worker moves (it
    performs its next action or starts its next job); when every
    worker is idle, worker [0] takes the next chunk. *)
Definition sched_step (s : pool) : option (option event * pool) :=
  let '(Pool q ws t) := s in
  match list_find (fun w => w <> idle_worker) ws with
  | Some (i, Worker (a :: cur) r) =>
      Some (Some (Event (act_time t a) a), Pool q (<[i := Worker cur r]> ws) (act_time t a))
  | Some (i, Worker [] (c :: r)) => Some (None, Pool q (<[i := Worker (job_actions c) r]> ws) t)
  | Some (_, Worker [] []) => None
  | None =>
      match q, ws with
      | ch :: q', _ :: _ => Some (None, Pool q' (<[0 := Worker [] ch]> ws) t)
      | _, _ => None
      end
  end.

(** Run the schedule until the pool is done, at most [fuel] steps. *)
Fixpoint pool_exec (fuel : nat) (s : pool) : option (list event * pool) :=
  if decide (pool_done s) then Some ([], s) else
  match fuel with
  | 0 => None
  | S f =>
      match sched_step s with
      | Some (e, s') =>
          match pool_exec f s' with
          | Some (tr, s'') => Some (option_list e ++ tr, s'')
          | None => None
          end
      | None => None
      end
  end.

Lemma all_idle ws :
  list_find (fun w => w <> idle_worker) ws = None -> Forall (fun w => w = idle_worker) ws.
Proof.
  intros Hf. apply list_find_None in Hf. eapply Forall_impl; [exact Hf|].
  intros w Hw. by destruct (decide (w = idle_worker)).
Qed.

Lemma sched_step_sound s e s' : sched_step s = Some (e, s') -> pool_step s e s'.
Proof.
  destruct s as [q ws t]; cbn.
  destruct (list_find _ ws) as [[i [[|a cur] [|c r]]]|] eqn:Hf;
    try (apply list_find_Some in Hf as (Hi & _ & _)); intros Hs; simplify_eq/=.
  - by constructor.
  - constructor; [done|]. destruct a; cbn; lia.
  - constructor; [done|]. destruct a; cbn; lia.
  - apply all_idle in Hf. destruct q as [|ch q], ws as [|w ws]; simplify_eq/=.
    apply Forall_cons in Hf as [-> _]. exact (ps_take q ch (idle_worker :: ws) t 0 eq_refl).
Qed.

Lemma sched_step_progress s :
  workers s <> [] -> ~ pool_done s -> exists e s', sched_step s = Some (e, s').
Proof.
  destruct s as [q ws t]. unfold pool_done; cbn. intros Hne Hnd.
  destruct (list_find _ ws) as [[i [[|a cur] [|c r]]]|] eqn:Hf; eauto.
  - by apply list_find_Some in Hf as (_ & Hw & _).
  - apply all_idle in Hf. destruct q, ws; naive_solver.
Qed.

Lemma pool_exec_sound f s tr s' :
  pool_exec f s = Some (tr, s') -> lstar pool_step s tr s' /\ pool_done s'.
Proof.
  induction f as [|f IH] in s, tr |- *; cbn; case_decide; intros Hx; simplify_eq; eauto with cwas.
  destruct (sched_step s) as [[e s1]|] eqn:Hs; [|done].
  destruct (pool_exec f s1) as [[tr1 s2]|] eqn:He; simplify_eq.
  apply sched_step_sound in Hs. destruct (IH _ _ He) as [Hr Hd]. split; [|done].
  destruct e; cbn; eauto with cwas.
Qed.

Lemma pool_exec_fuel f s :
  workers s <> [] -> pool_measure s < f -> exists tr s', pool_exec f s = Some (tr, s').
Proof.
  induction f as [|f IH] in s |- *; intros Hne Hf; [lia|]. cbn. case_decide; [eauto|].
  destruct (sched_step_progress s Hne H) as (e & s1 & Hs). rewrite Hs.
  pose proof (sched_step_sound _ _ _ Hs) as Hstep.
  destruct (IH s1) as (tr & s2 & ->); eauto.
  - intros Hw. apply Hne, length_zero_iff_nil.
    rewrite <- (pool_step_workers _ _ _ Hstep), Hw. done.
  - pose proof (pool_step_measure _ _ _ Hstep). lia.
Qed.

End Exec.

(** The schedule [pool_exec] terminates: from any state of a pool
    with at least one worker, [pool_measure s + 1] rounds of fuel are
    enough for it to return, and what it returns is a complete run of
    the pool: steps of [pool_step] to a state where the queue is empty
    and every worker idle. *)
Theorem pool_exec_complete duration f s :
  workers s <> [] -> pool_measure s < f ->
  exists tr s', pool_exec duration f s = Some (tr, s') /\
    lstar pool_step s tr s' /\ pool_done s'.
Proof.
  intros Hne Hf. destruct (pool_exec_fuel duration f s Hne Hf) as (tr & s' & He).
  exists tr, s'. split; [done|]. by eapply pool_exec_sound.
Qed.

Example pool_exec_complete_witness :
  exists tr s', pool_exec (fun _ => 1) 61 (pool_init 4 scenario2_cmds 0) = Some (tr, s') /\
    lstar pool_step (pool_init 4 scenario2_cmds 0) tr s' /\ pool_done s'.
Proof. apply pool_exec_complete; [discriminate|vm_compute; lia]. Defined.

End Scheduler.
