(* ===== verification/Main.v ===== *)
(** Main: the [main()] function of the two scripts
    ([src/scripts/annotate_mp.py] lines 15-59, [src/scripts/categorize_mp.py]
    lines 15-60), from the parsed arguments to the end of the run:
    read the path configuration, derive the jobs (JobSource, the window,
    JobBuilder), create the output directory (categorization only), run
    the jobs through the dispatcher chosen by [--num_proc], and print the
    final [Done] line (categorization only).  The dispatcher is used only
    through its contract [Dispatcher.dispatcher]. *)

From Stdlib Require Import ZArith String Lia.
From stdpp Require Import base list strings sorting gmap.
From S2P Require Import Prelude PyStr PyPath PyGlob PySlice JobSource JobBuilder Interleave Dispatcher.

Local Open Scope string_scope.
Local Open Scope list_scope.

Module Main.
Import PyStr PyPath PyGlob PySlice JobSource JobBuilder Dispatcher.

(** The Python exceptions [main] can raise. *)
Inductive py_exc :=
| FileNotFoundError (path : string)  (** [open(path_conf_path)] fails *)
| KeyError (key : string)            (** [path_dict[key]] is missing *)
| ValueError (msg : string)          (** [mp.Pool(num_proc)] with [num_proc < 1] *)
| TypeError (msg : string).          (** a setting holding the list [[]] used as an [int] or a path *)

(** [args] after [parser.parse_args()]; [vep_script] belongs to
    [Annotate]. *)
Record args := Args {
  in_dir : string;
  out_dir : string;
  num_proc : Z;
  start_idx : Z;
  end_idx : Z
}.

(** The defaults of the optional arguments. *)
Definition default_args (in_dir out_dir : string) : args :=
  Args in_dir out_dir 1 0 10000.

(** What [main] prints: the dispatcher's events, then [Done]. *)
Inductive out_line :=
| OEvent (e : event)
| ODone (t : nat).   (** [print(f'[{get_curr_time()}, Progress] Done')] *)

(** The process state: the directories, the YAML files (by path, as
    [yaml.safe_load] returns them), the clock and the output. *)
Record mstate := MState {
  m_fs : FileSystem;
  m_yaml : gmap string (gmap string string);
  m_clock : nat;
  m_out : list out_line
}.

Definition set_fs (fs : FileSystem) (st : mstate) : mstate :=
  MState fs (m_yaml st) (m_clock st) (m_out st).

(** [os.path.join(os.path.dirname(os.path.abspath('.')), 'conf', 'cwas_paths.yaml')]
    for a normalised absolute working directory [cwd]. *)
Definition conf_path (cwd : string) : string :=
  join (join (fst (split cwd)) "conf") "cwas_paths.yaml".

(** The key of the tool in the configuration. *)
Definition conf_key (sc : script) : string :=
  match sc with Annotate _ => "annotate" | Categorize => "categorize" end.

(** [with open(path_conf_path, 'r') as path_conf: path_dict = yaml.safe_load(path_conf)]. *)
Definition load_conf (cwd : string) : PyM mstate py_exc (gmap string string) :=
  fun st => match m_yaml st !! conf_path cwd with
            | Some d => (inr d, st)
            | None => (inl (FileNotFoundError (conf_path cwd)), st)
            end.

(** [path_dict[key]]. *)
Definition dict_getitem (d : gmap string string) (k : string) : PyM mstate py_exc string :=
  match d !! k with Some v => py_ret v | None => py_raise (KeyError k) end.

(** [os.makedirs(out_dir, exist_ok=True)]: the directory exists
    afterwards, with its entries if it existed. *)
Definition makedirs (d : string) : PyM mstate py_exc unit :=
  py_modify (fun st => match m_fs st !! d with
                       | Some _ => st
                       | None => set_fs (<[d := []]> (m_fs st)) st
                       end).

(** Lines 32-49 (annotation) and 31-48 (categorization): the commands. *)
Definition main_prefix (sc : script) (a : args) (cwd : string) : PyM mstate py_exc (list string) :=
  path_dict ← load_conf cwd;
  tool ← dict_getitem path_dict (conf_key sc);
  all_paths ← py_gets (fun st => in_vcf_paths (m_fs st) (in_dir a));
  let paths := py_slice all_paths (start_idx a) (end_idx a) in
  (match sc with Categorize => makedirs (out_dir a) | Annotate _ => py_ret tt end) ;;
  py_ret (make_cmds sc tool (out_dir a) paths).

Lemma Z_to_nat_pos_neq_0 (n : Z) : (0 < n)%Z -> Z.to_nat n <> 0.
Proof. lia. Qed.

(** [if args.num_proc == 1: ... else: pool = mp.Pool(args.num_proc) ...]:
    [mp.Pool] raises [ValueError] when the count is below 1. *)
Definition select_dispatcher (duration : string -> nat) (np : Z) : py_exc + dispatcher :=
  if Z.eqb np 1 then inr (sequential_dispatcher duration)
  else match Z_lt_dec 0 np with
       | left H => inr (pool_dispatcher (Z.to_nat np) (Z_to_nat_pos_neq_0 np H))
       | right _ => inl (ValueError "Number of processes must be at least 1")
       end.

(** The state after the jobs ran, emitting [tr], and after the final
    [print] of the categorization script, at time [t_end]. *)
Definition finish (sc : script) (st : mstate) (tr : list event) (t_end : nat) : mstate :=
  MState (m_fs st) (m_yaml st) t_end
         (m_out st ++ map OEvent tr ++
          match sc with Categorize => [ODone t_end] | Annotate _ => [] end).

(** The runs of [main()]: an exception before the dispatch, the
    [ValueError] of [mp.Pool], or a complete dispatch after which the
    clock reads [t_end]. *)
Inductive main_sem (sc : script) (duration : string -> nat) (a : args) (cwd : string) :
  mstate -> (py_exc + unit) * mstate -> Prop :=
| main_prefix_raises st e st' :
    main_prefix sc a cwd st = (inl e, st') ->
    main_sem sc duration a cwd st (inl e, st')
| main_pool_raises st cmds st' e :
    main_prefix sc a cwd st = (inr cmds, st') ->
    select_dispatcher duration (num_proc a) = inl e ->
    main_sem sc duration a cwd st (inl e, st')
| main_returns st cmds st' D tr t_end :
    main_prefix sc a cwd st = (inr cmds, st') ->
    select_dispatcher duration (num_proc a) = inr D ->
    d_run D cmds (m_clock st') tr ->
    m_clock st' <= t_end -> Forall (fun e => ev_time e <= t_end) tr ->
    main_sem sc duration a cwd st (inr tt, finish sc st' tr t_end).

(** The configuration and arguments of the spec's first scenario:
    inputs [a.vcf], [b.vcf], [c.vcf] (and a hidden VCF and a text file),
    window [1:2]. *)
Definition scenario_state : mstate :=
  MState example_fs {[ "/w/p/conf/cwas_paths.yaml" := {[ "annotate" := "annot.py" ]} ]} 0 [].

(** ** Lemmas *)

(** The jobs [main] derives: the window of the sorted inputs, mapped to
    commands. *)
Definition window_cmds (sc : script) (tool : string) (a : args) (fs : FileSystem) : list string :=
  make_cmds sc tool (out_dir a) (py_slice (in_vcf_paths fs (in_dir a)) (start_idx a) (end_idx a)).

(** The state after [os.makedirs] (categorization only). *)
Definition prefix_state (sc : script) (a : args) (st : mstate) : mstate :=
  match sc with
  | Categorize => snd (makedirs (out_dir a) st)
  | Annotate _ => st
  end.

Lemma main_prefix_ok sc a cwd st d tool :
  m_yaml st !! conf_path cwd = Some d -> d !! conf_key sc = Some tool ->
  main_prefix sc a cwd st = (inr (window_cmds sc tool a (m_fs st)), prefix_state sc a st).
Proof.
  intros Hd Ht. unfold main_prefix. rewrite py_mbind_bind.
  erewrite py_bind_inr by (unfold load_conf; rewrite Hd; reflexivity).
  rewrite py_mbind_bind.
  erewrite py_bind_inr by (unfold dict_getitem; rewrite Ht; reflexivity).
  destruct sc; reflexivity.
Qed.

Lemma main_prefix_no_key sc a cwd st d :
  m_yaml st !! conf_path cwd = Some d -> d !! conf_key sc = None ->
  main_prefix sc a cwd st = (inl (KeyError (conf_key sc)), st).
Proof.
  intros Hd Ht. unfold main_prefix. rewrite py_mbind_bind.
  erewrite py_bind_inr by (unfold load_conf; rewrite Hd; reflexivity).
  rewrite py_mbind_bind. apply py_bind_inl. unfold dict_getitem. by rewrite Ht.
Qed.

Lemma prefix_state_out sc a st : m_out (prefix_state sc a st) = m_out st.
Proof. destruct sc; simpl; [done|]. by destruct (m_fs st !! out_dir a). Qed.

Lemma prefix_state_clock sc a st : m_clock (prefix_state sc a st) = m_clock st.
Proof. destruct sc; simpl; [done|]. by destruct (m_fs st !! out_dir a). Qed.

Lemma select_dispatcher_ok duration np :
  (1 <= np)%Z -> exists D, select_dispatcher duration np = inr D.
Proof.
  intros Hnp. unfold select_dispatcher. destruct (Z.eqb_spec np 1); [by eexists|].
  destruct (Z_lt_dec 0 np); [by eexists|lia].
Qed.

Lemma select_dispatcher_err duration np :
  (np < 1)%Z -> select_dispatcher duration np = inl (ValueError "Number of processes must be at least 1").
Proof.
  intros Hnp. unfold select_dispatcher. destruct (Z.eqb_spec np 1); [lia|].
  destruct (Z_lt_dec 0 np); [lia|done].
Qed.

(** The final line of the categorization script, none for annotation. *)
Definition done_lines (sc : script) (t : nat) : list out_line :=
  match sc with Categorize => [ODone t] | Annotate _ => [] end.

Lemma finish_out sc st tr t_end :
  m_out (finish sc st tr t_end) = m_out st ++ map OEvent tr ++ done_lines sc t_end.
Proof. by destruct sc. Qed.

(** The jobs' prefix prints nothing and leaves the clock alone. *)
Lemma main_prefix_quiet sc a cwd st r st' :
  main_prefix sc a cwd st = (r, st') -> m_out st' = m_out st /\ m_clock st' = m_clock st.
Proof.
  destruct (m_yaml st !! conf_path cwd) as [d|] eqn:Hd.
  - destruct (d !! conf_key sc) as [tool|] eqn:Ht;
      [rewrite (main_prefix_ok _ _ _ _ d tool Hd Ht)|rewrite (main_prefix_no_key _ _ _ _ d Hd Ht)];
      intros [= _ <-]; auto using prefix_state_out, prefix_state_clock.
  - unfold main_prefix. rewrite py_mbind_bind. unfold py_bind at 1, load_conf at 1. rewrite Hd.
    by intros [= _ <-].
Qed.

(** ** Properties of [main] *)

(** Every event of a run happens no later than the start time plus
    the sum of the event times. *)
Lemma events_before_end t0 tr : Forall (fun e => ev_time e <= t0 + sum_list_with ev_time tr) tr.
Proof.
  apply Forall_forall. intros e He. pose proof (sum_list_with_in e ev_time tr He). lia.
Qed.

Lemma main_sem_exists sc duration a cwd st d tool :
  m_yaml st !! conf_path cwd = Some d -> d !! conf_key sc = Some tool ->
  (1 <= num_proc a)%Z ->
  exists st'', main_sem sc duration a cwd st (inr tt, st'').
Proof.
  intros Hd Ht Hnp. destruct (select_dispatcher_ok duration _ Hnp) as [D HD].
  set (cmds := window_cmds sc tool a (m_fs st)).
  set (t0 := m_clock (prefix_state sc a st)).
  destruct (d_live D cmds t0) as [tr Htr].
  eexists. eapply (main_returns _ _ _ _ _ cmds _ D tr (t0 + sum_list_with ev_time tr));
    [by apply (main_prefix_ok _ _ _ _ d)|done|done|lia|apply events_before_end].
Qed.

(** Whatever the settings and the state, [main] has a run: it raises
    before the dispatch, [mp.Pool] raises, or the dispatcher's run
    completes. *)
Lemma main_sem_total sc duration a cwd st : exists r, main_sem sc duration a cwd st r.
Proof.
  destruct (main_prefix sc a cwd st) as [[e|cmds] st'] eqn:Hp; [eexists; by apply main_prefix_raises|].
  destruct (select_dispatcher duration (num_proc a)) as [e|D] eqn:Hs;
    [eexists; by eapply main_pool_raises|].
  destruct (d_live D cmds (m_clock st')) as [tr Htr].
  eexists. eapply (main_returns _ _ _ _ _ cmds _ D tr (m_clock st' + sum_list_with ev_time tr));
    [done|done|done|lia|apply events_before_end].
Qed.

(** C17: with the configuration file and the tool's key present and
    [num_proc >= 1], [main] can return normally: a complete run exists. *)
Theorem main_returns_ok sc duration a cwd st d tool :
  m_yaml st !! conf_path cwd = Some d -> d !! conf_key sc = Some tool ->
  (1 <= num_proc a)%Z ->
  exists st'', main_sem sc duration a cwd st (inr tt, st'').
Proof. apply main_sem_exists. Qed.

Example main_returns_ok_witness :
  exists st'', main_sem Categorize (fun _ => 1) (default_args "in" "out") "/w/p/scripts"
    (MState example_fs {[ "/w/p/conf/cwas_paths.yaml" := {[ "categorize" := "cat.py" ]} ]} 0 [])
    (inr tt, st'').
Proof.
  apply (main_returns_ok _ _ _ _ _ ({[ "categorize" := "cat.py" ]} : gmap string string) "cat.py");
    [reflexivity|reflexivity|simpl; lia].
Defined.

(** The shape of every run once the configuration is present and
    [num_proc >= 1]: the dispatcher ran the window's commands from the
    clock after the prefix, then [finish]. *)
Lemma main_sem_returns sc duration a cwd st d tool res st'' :
  m_yaml st !! conf_path cwd = Some d -> d !! conf_key sc = Some tool ->
  (1 <= num_proc a)%Z ->
  main_sem sc duration a cwd st (res, st'') ->
  res = inr tt /\
  exists D tr t_end, d_run D (window_cmds sc tool a (m_fs st)) (m_clock (prefix_state sc a st)) tr /\
    Forall (fun e => ev_time e <= t_end) tr /\ st'' = finish sc (prefix_state sc a st) tr t_end.
Proof.
  intros Hd Ht Hnp Hm. pose proof (main_prefix_ok sc a cwd st d tool Hd Ht) as Hp.
  destruct (select_dispatcher_ok duration _ Hnp) as [D0 HD0].
  inversion Hm as [st0 e st' Hp'|st0 cmds st' e Hp' HD|st0 cmds st' D tr t_end Hp' HD Hr Ht0 Htr];
    subst; rewrite Hp in Hp'; simplify_eq; [congruence|].
  split; [done|]. by exists D, tr, t_end.
Qed.

Lemma main_sem_window sc duration a cwd st d tool res st'' :
  m_yaml st !! conf_path cwd = Some d -> d !! conf_key sc = Some tool ->
  (1 <= num_proc a)%Z ->
  main_sem sc duration a cwd st (res, st'') ->
  res = inr tt /\
  exists tr, m_out st'' = m_out st ++ map OEvent tr ++ done_lines sc (m_clock st'') /\
    Forall (fun e => ev_time e <= m_clock st'') tr /\
    system_calls tr ≡ₚ window_cmds sc tool a (m_fs st).
Proof.
  intros Hd Ht Hnp Hm.
  destruct (main_sem_returns _ _ _ _ _ _ _ _ _ Hd Ht Hnp Hm) as (-> & D & tr & t_end & Hr & Htr & ->).
  split; [done|]. exists tr. rewrite finish_out, prefix_state_out.
  assert (m_clock (finish sc (prefix_state sc a st) tr t_end) = t_end) as -> by (by destruct sc).
  split; [done|split; [exact Htr|]]. by apply (dispatcher_calls_perm D _ _ _ Hr).
Qed.

(** C3: every run of [main] with the configuration present and
    [num_proc >= 1] returns normally; it appends the dispatcher's events
    to the output (then, for categorization, the [Done] line, no earlier
    than any of them), and it passes to [os.system] exactly the commands
    built from the window [start_idx:end_idx] of the sorted inputs, each
    once. *)
Theorem main_runs_window sc duration a cwd st d tool res st'' :
  m_yaml st !! conf_path cwd = Some d -> d !! conf_key sc = Some tool ->
  (1 <= num_proc a)%Z ->
  main_sem sc duration a cwd st (res, st'') ->
  res = inr tt /\
  exists tr, m_out st'' = m_out st ++ map OEvent tr ++ done_lines sc (m_clock st'') /\
    Forall (fun e => ev_time e <= m_clock st'') tr /\
    system_calls tr ≡ₚ window_cmds sc tool a (m_fs st).
Proof. apply main_sem_window. Qed.

Example main_runs_window_witness :
  exists st'' tr, main_sem (Annotate "vep") (fun _ => 1) (Args "in" "out" 1 1 2) "/w/p/scripts"
                    scenario_state (inr tt, st'') /\
    system_calls tr ≡ₚ window_cmds (Annotate "vep") "annot.py" (Args "in" "out" 1 1 2) example_fs.
Proof.
  destruct (main_sem_exists (Annotate "vep") (fun _ => 1) (Args "in" "out" 1 1 2) "/w/p/scripts"
              scenario_state ({[ "annotate" := "annot.py" ]} : gmap string string) "annot.py")
    as [st'' Hm]; [reflexivity|reflexivity|simpl; lia|].
  destruct (main_runs_window (Annotate "vep") (fun _ => 1) (Args "in" "out" 1 1 2) "/w/p/scripts" scenario_state ({[ "annotate" := "annot.py" ]} : gmap string string)
              "annot.py" _ _ (eq_refl _) (eq_refl _) ltac:(simpl; lia) Hm) as (_ & tr & _ & _ & Hc).
  by exists st'', tr.
Defined.

(** C18: when the configuration lacks the script's key, [main] raises
    [KeyError] before touching anything: no directory is created, no
    line is printed, no command runs. *)
Theorem main_missing_key sc duration a cwd st d res st'' :
  m_yaml st !! conf_path cwd = Some d -> d !! conf_key sc = None ->
  main_sem sc duration a cwd st (res, st'') ->
  res = inl (KeyError (conf_key sc)) /\ st'' = st.
Proof.
  intros Hd Ht Hm. pose proof (main_prefix_no_key sc a cwd st d Hd Ht) as Hp.
  by inversion Hm; subst; rewrite Hp in *; simplify_eq.
Qed.

Example main_missing_key_witness :
  main_sem Categorize (fun _ => 1) (default_args "in" "out") "/w/p/scripts"
    scenario_state (inl (KeyError "categorize"), scenario_state) /\
  scenario_state = scenario_state.
Proof.
  assert (Hm : main_sem Categorize (fun _ => 1) (default_args "in" "out") "/w/p/scripts"
                 scenario_state (inl (KeyError "categorize"), scenario_state))
    by (apply main_prefix_raises; reflexivity).
  split; [exact Hm|].
  exact (proj2 (main_missing_key Categorize (fun _ => 1) (default_args "in" "out") "/w/p/scripts" scenario_state ({[ "annotate" := "annot.py" ]} : gmap string string)
                  _ _ (eq_refl _) (eq_refl _) Hm)).
Defined.

(** C19: with [num_proc < 1], [mp.Pool] raises [ValueError] after the
    jobs were built: no command runs and nothing is printed, but the
    categorization script has already created the output directory. *)
Theorem main_bad_num_proc sc duration a cwd st d tool res st'' :
  m_yaml st !! conf_path cwd = Some d -> d !! conf_key sc = Some tool ->
  (num_proc a < 1)%Z ->
  main_sem sc duration a cwd st (res, st'') ->
  res = inl (ValueError "Number of processes must be at least 1") /\
  m_out st'' = m_out st /\
  (sc = Categorize -> is_Some (m_fs st'' !! out_dir a)).
Proof.
  intros Hd Ht Hnp Hm. pose proof (main_prefix_ok sc a cwd st d tool Hd Ht) as Hp.
  pose proof (select_dispatcher_err duration _ Hnp) as HD0.
  inversion Hm as [st0 e st' Hp'|st0 cmds st' e Hp' HD|st0 cmds st' D tr t_end Hp' HD Hr Ht0 Htr];
    subst; rewrite Hp in Hp'; simplify_eq; [|congruence].
  rewrite HD0 in HD. simplify_eq. split; [done|]. rewrite prefix_state_out.
  split; [done|]. intros ->. simpl.
  destruct (m_fs st !! out_dir a) eqn:E; simpl; [by rewrite E|].
  by rewrite lookup_insert_eq.
Qed.

(** The scenario's directory with a categorization configuration. *)
Definition categorize_state : mstate :=
  MState example_fs {[ "/w/p/conf/cwas_paths.yaml" := {[ "categorize" := "cat.py" ]} ]} 0 [].

Example main_bad_num_proc_witness :
  main_sem Categorize (fun _ => 1) (Args "in" "out" 0 0 10000) "/w/p/scripts" categorize_state
    (inl (ValueError "Number of processes must be at least 1"),
     prefix_state Categorize (Args "in" "out" 0 0 10000) categorize_state) /\
  is_Some (m_fs (prefix_state Categorize (Args "in" "out" 0 0 10000) categorize_state) !! "out").
Proof.
  assert (Hm : main_sem Categorize (fun _ => 1) (Args "in" "out" 0 0 10000) "/w/p/scripts"
                 categorize_state
                 (inl (ValueError "Number of processes must be at least 1"),
                  prefix_state Categorize (Args "in" "out" 0 0 10000) categorize_state)).
  { eapply main_pool_raises.
    - apply (main_prefix_ok _ _ _ _ ({[ "categorize" := "cat.py" ]} : gmap string string) "cat.py");
        reflexivity.
    - apply select_dispatcher_err. simpl; lia. }
  split; [exact Hm|].
  refine (proj2 (proj2 (main_bad_num_proc Categorize (fun _ => 1) (Args "in" "out" 0 0 10000)
    "/w/p/scripts" categorize_state ({[ "categorize" := "cat.py" ]} : gmap string string) "cat.py"
    _ _ (eq_refl _) (eq_refl _) ltac:(simpl; lia) Hm)) (eq_refl _)).
Defined.

(** Scenario 1 of the spec: with inputs [a.vcf], [b.vcf], [c.vcf]
    and [--start_idx 1 --end_idx 2], every run of the annotation script
    returns normally and runs exactly one command, on [b.vcf], writing
    [out/b.annot.vcf]. *)
Theorem main_scenario_window res st'' :
  main_sem (Annotate "vep") (fun _ => 1) (Args "in" "out" 1 1 2) "/w/p/scripts"
           scenario_state (res, st'') ->
  res = inr tt /\ exists tr, m_out st'' = map OEvent tr /\
    system_calls tr = ["annot.py -i in/b.vcf -o out/b.annot.vcf --vep vep;"].
Proof.
  intros Hm.
  apply (main_sem_window _ _ _ _ _ ({[ "annotate" := "annot.py" ]} : gmap string string) "annot.py")
    in Hm as (Hres & tr & Hout & _ & Hcalls); [|reflexivity|reflexivity|simpl; lia].
  split; [done|]. exists tr. split; [by rewrite Hout, app_nil_r|].
  apply Permutation_singleton_r. rewrite Hcalls. vm_compute. reflexivity.
Qed.

Example main_scenario_window_witness :
  exists st'', main_sem (Annotate "vep") (fun _ => 1) (Args "in" "out" 1 1 2) "/w/p/scripts"
                 scenario_state (inr tt, st'') /\
    exists tr, system_calls tr = ["annot.py -i in/b.vcf -o out/b.annot.vcf --vep vep;"].
Proof.
  destruct (main_sem_exists (Annotate "vep") (fun _ => 1) (Args "in" "out" 1 1 2) "/w/p/scripts"
              scenario_state ({[ "annotate" := "annot.py" ]} : gmap string string) "annot.py")
    as [st'' Hm]; [reflexivity|reflexivity|simpl; lia|].
  exists st''. split; [exact Hm|].
  destruct (main_scenario_window _ _ Hm) as (_ & tr & _ & Hc). by exists tr.
Defined.

Lemma window_cmds_no_input sc tool a fs :
  has_magic (glob_dir (in_dir a)) = false ->
  Forall (fun n => vcf_entry n = false) (listdir fs (glob_dir (in_dir a))) ->
  window_cmds sc tool a fs = [].
Proof.
  intros Hm Hn. unfold window_cmds, in_vcf_paths. rewrite glob_vcf_literal by done.
  assert (List.filter vcf_entry (listdir fs (glob_dir (in_dir a))) = []) as ->.
  { induction Hn as [|n ns Hn _ IH]; [done|]. simpl. by rewrite Hn. }
  change (py_sorted (map (join (glob_dir (in_dir a))) [])) with (@nil string).
  by rewrite py_slice_nil.
Qed.

(** C20: a missing or unreadable input directory (named without
    wildcard characters), or one without a visible [.vcf] entry (only
    [x.txt], say), is not an error: [main]
    returns normally and runs no command; no [DirectoryNotFoundError]
    or [InvalidInputNameError] is raised. *)
Theorem main_no_input sc duration a cwd st d tool res st'' :
  m_yaml st !! conf_path cwd = Some d -> d !! conf_key sc = Some tool ->
  (1 <= num_proc a)%Z -> has_magic (glob_dir (in_dir a)) = false ->
  Forall (fun n => vcf_entry n = false) (listdir (m_fs st) (glob_dir (in_dir a))) ->
  main_sem sc duration a cwd st (res, st'') ->
  res = inr tt /\ exists tr, system_calls tr = [] /\
    m_out st'' = m_out st ++ map OEvent tr ++ done_lines sc (m_clock st'').
Proof.
  intros Hd Ht Hnp Hg Hn Hm.
  apply (main_sem_window _ _ _ _ _ d tool) in Hm as (Hres & tr & Hout & _ & Hc); try done.
  rewrite window_cmds_no_input in Hc by done.
  split; [done|]. exists tr. split; [by apply Permutation_nil_r|done].
Qed.

(** An input directory holding no VCF file. *)
Definition no_input_state : mstate :=
  MState (<["in" := ["x.txt"]]> ∅)
         {[ "/w/p/conf/cwas_paths.yaml" := {[ "categorize" := "cat.py" ]} ]} 0 [].

Example main_no_input_witness :
  exists st'' tr, main_sem Categorize (fun _ => 1) (default_args "in" "out") "/w/p/scripts"
    no_input_state (inr tt, st'') /\ system_calls tr = [].
Proof.
  assert (Hd : m_yaml no_input_state !! conf_path "/w/p/scripts" =
               Some ({[ "categorize" := "cat.py" ]} : gmap string string)) by (vm_compute; reflexivity).
  assert (Ht : ({[ "categorize" := "cat.py" ]} : gmap string string) !! conf_key Categorize =
               Some "cat.py") by (vm_compute; reflexivity).
  assert (Hnp : (1 <= num_proc (default_args "in" "out"))%Z) by (simpl; lia).
  destruct (main_sem_exists _ (fun _ => 1) _ _ _ _ _ Hd Ht Hnp) as [st'' Hm].
  destruct (main_no_input _ _ _ _ _ _ _ _ _ Hd Ht Hnp eq_refl ltac:(decide_by_eval) Hm)
    as (_ & tr & Hc & _).
  by exists st'', tr.
Defined.

End Main.
