(* ===== verification/Program.v ===== *)
(** The two scripts as programs run from a command line: [main()]
    first calls [parser.parse_args()] ([Cli]) and reads the attributes
    of the namespace into its local settings, then does the work of
    [Main.main_sem].  A usage error exits with status 2 and the help
    exits with status 0, both before anything else happens. *)

From Stdlib Require Import ZArith String Lia.
From stdpp Require Import base list strings fin_maps gmap.
From S2P Require Import Prelude PyStr PyInt PySlice JobSource JobBuilder Interleave Dispatcher Main Cli.

#[local] Arguments String.append : simpl nomatch.

Module Program.

Import PyInt JobBuilder Interleave Dispatcher Main Cli.

(** The two entry points. *)
Inductive entry := AnnotateMP | CategorizeMP.

Definition parser_of (e : entry) : parser :=
  match e with AnnotateMP => annotate_parser | CategorizeMP => categorize_parser end.

(** [f'{v}'] of a setting [main] formats into a pattern, a path or a
    command: a string is itself, the list [[]] is written ["[]"]. *)
Definition to_str (v : value) : option string :=
  match v with VStr s => Some s | VNil => Some "[]" | _ => None end.

(** The line where a setting holding the list [[]] stops [main] with a
    [TypeError]. *)
Inductive type_fault :=
| SliceFault (sc : script)
    (** [in_vcf_paths[args.start_idx:args.end_idx]] (line 41 / 39) *)
| MakedirsFault
    (** [os.makedirs(args.out_dir, exist_ok=True)] (line 40 of categorize_mp.py) *)
| PoolFault (sc : script) (a : args).
    (** [mp.Pool(args.num_proc)] (line 56 / 55) after [[] == 1] is false;
        the other settings are [a]'s, whose [num_proc] is not read *)

(** How [main] uses the namespace: as settings of the types it expects,
    or up to the line where a [[]] stops it. *)
Inductive ns_use := Typed (sc : script) (a : args) | Untyped (f : type_fault).

(** [args.in_dir], [args.out_dir], [args.num_proc], [args.start_idx],
    [args.end_idx] and, for the annotation script, [args.vep_script], in
    the order [main] reaches them: the glob pattern (line 40 / 38), the
    slice (41 / 39), [os.makedirs] (categorization, 40), the output
    paths and commands, then [num_proc] (52 / 51).  Formatting never
    fails; a [[]] bound of the slice, a [[]] directory for
    [os.makedirs] or a [[]] process count does. *)
Definition classify_ns (e : entry) (m : gmap string value) : option ns_use :=
  i ← m !! "in_dir" ≫= to_str;
  ov ← m !! "out_dir";
  npv ← m !! "num_proc";
  sv ← m !! "start_idx";
  tv ← m !! "end_idx";
  sc ← (match e with
        | AnnotateMP => Annotate <$> (m !! "vep_script" ≫= to_str)
        | CategorizeMP => Some Categorize
        end);
  match sv, tv with
  | VInt s, VInt t =>
      match e, ov with
      | CategorizeMP, VNil => Some (Untyped MakedirsFault)
      | _, _ =>
          o ← to_str ov;
          match npv with
          | VInt np => Some (Typed sc (Args i o np s t))
          | VNil => Some (Untyped (PoolFault sc (Args i o 0 s t)))
          | _ => None
          end
      end
  | VNil, (VInt _ | VNil) | VInt _, VNil => Some (Untyped (SliceFault sc))
  | _, _ => None
  end.

Definition slice_msg : string := "slice indices must be integers or None or have an __index__ method".
Definition fspath_msg : string := "expected str, bytes or os.PathLike object, not list".
Definition lt_msg : string := "'<' not supported between instances of 'list' and 'int'".

(** [main] up to the [TypeError]: the configuration is read first (and
    may raise first); [glob] has no effect; for [PoolFault] the jobs are
    built and, for categorization, the output directory created. *)
Definition fault_run (f : type_fault) (cwd : string) : PyM mstate py_exc unit :=
  match f with
  | SliceFault sc =>
      path_dict ← load_conf cwd;
      dict_getitem path_dict (conf_key sc) ;;
      py_raise (TypeError slice_msg)
  | MakedirsFault =>
      path_dict ← load_conf cwd;
      dict_getitem path_dict (conf_key Categorize) ;;
      py_raise (TypeError fspath_msg)
  | PoolFault sc a =>
      main_prefix sc a cwd ;;
      py_raise (TypeError lt_msg)
  end.

(** How the program ends: [sys.exit] with a status (argparse's help
    and errors), a normal return, or an uncaught exception. *)
Inductive ending := Exit (status : Z) | Returned | Raised (ex : py_exc).

(** The program on the command line [argv]: [parse_args], then [main]
    on the settings it read, or [main] up to the [TypeError] of a
    setting holding the list [[]] (an argument ["--"]). *)
Inductive program_sem (e : entry) (duration : string -> nat) (argv : list string) (cwd : string)
    (st : mstate) : ending * mstate -> Prop :=
| prog_usage_error err :
    parse_args (parser_of e) argv = CliError err ->
    program_sem e duration argv cwd st (Exit 2, st)
| prog_help :
    parse_args (parser_of e) argv = CliHelp ->
    program_sem e duration argv cwd st (Exit 0, st)
| prog_main m sc a res st' :
    parse_args (parser_of e) argv = CliOk m ->
    classify_ns e m = Some (Typed sc a) ->
    main_sem sc duration a cwd st (res, st') ->
    program_sem e duration argv cwd st
      (match res with inl ex => Raised ex | inr _ => Returned end, st')
| prog_type_fault m f res st' :
    parse_args (parser_of e) argv = CliOk m ->
    classify_ns e m = Some (Untyped f) ->
    fault_run f cwd st = (res, st') ->
    program_sem e duration argv cwd st
      (match res with inl ex => Raised ex | inr _ => Returned end, st').

(** The command line that gives every setting in its long form
    [--option=value], numbers written by [str]. *)
Definition argv_pairs (sc : script) (a : args) : list (string * string) :=
  [("--in_dir", in_dir a); ("--out_dir", out_dir a); ("--num_proc", py_str (num_proc a));
   ("--start_idx", py_str (start_idx a)); ("--end_idx", py_str (end_idx a))] ++
  match sc with Annotate v => [("--vep", v)] | Categorize => [] end.

Definition render_argv (sc : script) (a : args) : list string := render_long <$> argv_pairs sc a.

Definition entry_of (sc : script) : entry :=
  match sc with Annotate _ => AnnotateMP | Categorize => CategorizeMP end.

(** An integer [str] writes in at most 4300 digits. *)
Definition int_ok (z : Z) : Prop := (Z.abs_N z < 10 ^ N.of_nat int_max_str_digits)%N.

(** ** Lemmas *)

Lemma omap_store_of_pairs sc a :
  in_dir a <> "--" -> out_dir a <> "--" ->
  (forall v, sc = Annotate v -> v <> "--") ->
  int_ok (num_proc a) -> int_ok (start_idx a) -> int_ok (end_idx a) ->
  omap (store_of (parser_of (entry_of sc))) (argv_pairs sc a) =
  [("in_dir", VStr (in_dir a)); ("out_dir", VStr (out_dir a)); ("num_proc", VInt (num_proc a));
   ("start_idx", VInt (start_idx a)); ("end_idx", VInt (end_idx a))] ++
  match sc with Annotate v => [("vep_script", VStr v)] | Categorize => [] end.
Proof.
  intros Hi Ho Hv Hn Hs He. set (p := parser_of (entry_of sc)).
  unfold argv_pairs. rewrite omap_app. f_equal.
  - cbn [omap list_omap].
    rewrite (store_of_str p "--in_dir" in_dir_action "in_dir" true VNone) by (by destruct sc).
    rewrite (store_of_str p "--out_dir" out_dir_action "out_dir" true VNone) by (by destruct sc).
    rewrite (store_of_int p "--num_proc" num_proc_action "num_proc" false (VInt 1)) by (by destruct sc).
    rewrite (store_of_int p "--start_idx" start_idx_action "start_idx" false (VInt 0)) by (by destruct sc).
    rewrite (store_of_int p "--end_idx" end_idx_action "end_idx" false (VInt 10000)) by (by destruct sc).
    done.
  - destruct sc as [v|]; [|done]. cbn [omap list_omap].
    rewrite (store_of_str p "--vep" vep_action "vep_script" false (VStr "vep")); try done.
    by apply Hv.
Qed.

(** [render_argv] meets the conditions of [parse_args_longs_ok]. *)
Lemma render_argv_parses sc a :
  in_dir a <> "--" -> out_dir a <> "--" ->
  (forall v, sc = Annotate v -> v <> "--") ->
  int_ok (num_proc a) -> int_ok (start_idx a) -> int_ok (end_idx a) ->
  parse_args (parser_of (entry_of sc)) (render_argv sc a) =
  CliOk (set_attrs (init_ns (parser_of (entry_of sc))) (omap (store_of (parser_of (entry_of sc))) (argv_pairs sc a))).
Proof.
  intros Hi Ho Hv Hn Hs He. apply parse_args_longs_ok.
  - by destruct sc; decide_by_eval.
  - destruct sc; unfold argv_pairs; cbn [app];
      repeat constructor; try (eexists; reflexivity);
      (eexists; first [ eapply store_of_str; [reflexivity|reflexivity|by auto]
                      | eapply store_of_int; [reflexivity|reflexivity|done] ]).
  - by destruct sc; decide_by_eval.
Qed.

(** C26: the command line [render_argv sc a], every setting in its long
    form with numbers written by [str], is read back by [parse_args]
    into exactly the settings [a] (and the [--vep] script of the
    annotation script), provided no string setting is the argument
    separator ["--"] and every number has at most 4300 digits. *)
Theorem render_argv_roundtrip sc a :
  in_dir a <> "--" -> out_dir a <> "--" ->
  (forall v, sc = Annotate v -> v <> "--") ->
  int_ok (num_proc a) -> int_ok (start_idx a) -> int_ok (end_idx a) ->
  exists m, parse_args (parser_of (entry_of sc)) (render_argv sc a) = CliOk m /\
    classify_ns (entry_of sc) m = Some (Typed sc a).
Proof.
  intros Hi Ho Hv Hn Hs He. eexists. split; [by apply render_argv_parses|].
  rewrite omap_store_of_pairs by done. destruct a, sc; vm_compute; reflexivity.
Qed.

Example render_argv_roundtrip_witness :
  exists m, parse_args (parser_of (entry_of (Annotate "vep")))
              (render_argv (Annotate "vep") (Args "-in" "out dir" 4 (-2) 10)) = CliOk m /\
    classify_ns (entry_of (Annotate "vep")) m = Some (Typed (Annotate "vep") (Args "-in" "out dir" 4 (-2) 10)).
Proof.
  apply render_argv_roundtrip; try discriminate; try (intros v [= <-]; discriminate);
    unfold int_ok; vm_compute; reflexivity.
Defined.

(** The command line of the spec's first scenario. *)
Definition scenario_argv : list string :=
  ["-i"; "in"; "-o"; "out"; "--start_idx"; "1"; "--end_idx"; "2"].

(** C27: scenario 1 of the spec run from its command line: [parse_args]
    reads [-i in -o out --start_idx 1 --end_idx 2] into the settings
    [in], [out], one process, the window [1:2] and the default
    [--vep vep]; every run then returns normally and runs exactly the
    command on [b.vcf]. *)
Theorem program_scenario_window res st'' :
  program_sem AnnotateMP (fun _ => 1) scenario_argv "/w/p/scripts" scenario_state (res, st'') ->
  res = Returned /\ exists tr, m_out st'' = map OEvent tr /\
    system_calls tr = ["annot.py -i in/b.vcf -o out/b.annot.vcf --vep vep;"].
Proof.
  inversion 1 as [err Hp|Hp|m sc a res' st' Hp Ha Hm|m f res' st' Hp Ha Hf]; subst;
    vm_compute in Hp; try discriminate; injection Hp as <-; vm_compute in Ha; try discriminate.
  injection Ha as <- <-.
  apply (main_sem_window _ _ _ _ _ ({[ "annotate" := "annot.py" ]} : gmap string string) "annot.py")
    in Hm as (-> & tr & Hout & _ & Hcalls); [|reflexivity|reflexivity|simpl; lia].
  split; [done|]. exists tr. split; [by rewrite Hout, app_nil_r|].
  apply Permutation_singleton_r. rewrite Hcalls. vm_compute. reflexivity.
Qed.

Example program_scenario_window_witness :
  exists st'', program_sem AnnotateMP (fun _ => 1) scenario_argv "/w/p/scripts" scenario_state
                 (Returned, st'') /\
    exists tr, system_calls tr = ["annot.py -i in/b.vcf -o out/b.annot.vcf --vep vep;"].
Proof.
  destruct (main_sem_exists (Annotate "vep") (fun _ => 1) (Args "in" "out" 1 1 2) "/w/p/scripts"
              scenario_state ({[ "annotate" := "annot.py" ]} : gmap string string) "annot.py")
    as [st'' Hm]; [reflexivity|reflexivity|simpl; lia|].
  assert (Hp : program_sem AnnotateMP (fun _ => 1) scenario_argv "/w/p/scripts" scenario_state
                 (Returned, st'')).
  { exact (prog_main AnnotateMP (fun _ => 1) scenario_argv "/w/p/scripts" scenario_state
             _ _ _ (inr tt) st'' (eq_refl _) (eq_refl _) Hm). }
  exists st''. split; [exact Hp|].
  destruct (program_scenario_window Returned st'' Hp) as (_ & tr & _ & Hc). by exists tr.
Defined.

(** C28: the value ["--"] given in the form [--in_dir=--] is not a
    string: [_get_values] removes the ["--"] and stores the empty list
    [[]], so the categorization script's [args.in_dir] is [[]], which
    [f'{args.in_dir}/*.vcf'] writes ["[]"]: [main] runs on the input
    directory pattern ["[]"]. *)
Theorem dashdash_in_dir o :
  o <> "--" ->
  exists m, parse_args categorize_parser (render_long <$> [("--in_dir", "--"); ("--out_dir", o)]) = CliOk m /\
    m !! "in_dir" = Some VNil /\ classify_ns CategorizeMP m = Some (Typed Categorize (Args "[]" o 1 0 10000)).
Proof.
  intros Ho. eexists. split.
  - apply parse_args_longs_ok.
    + decide_by_eval.
    + repeat constructor; try (eexists; reflexivity).
      eexists. eapply store_of_str; [reflexivity|reflexivity|done].
    + decide_by_eval.
  - cbn [omap list_omap]. rewrite (store_of_str categorize_parser "--out_dir" out_dir_action "out_dir" true VNone o)
      by done.
    vm_compute. split; reflexivity.
Qed.

Example dashdash_in_dir_witness :
  exists m, parse_args categorize_parser (render_long <$> [("--in_dir", "--"); ("--out_dir", "out")]) = CliOk m /\
    m !! "in_dir" = Some VNil /\ classify_ns CategorizeMP m = Some (Typed Categorize (Args "[]" "out" 1 0 10000)).
Proof. apply dashdash_in_dir. discriminate. Defined.

(** A usage error ends the program with status 2 before any effect. *)
Lemma program_sem_usage_error e duration argv cwd st err r :
  parse_args (parser_of e) argv = CliError err ->
  program_sem e duration argv cwd st r -> r = (Exit 2, st).
Proof. intros Hp. inversion 1; congruence. Qed.

(** C33: a command line of [--option=value] arguments that omits a
    required option ([-i/--in_dir] or [-o/--out_dir]) is refused:
    [parse_args] reports [the following arguments are required] with
    that option's name, and the program exits with status 2 without
    reading the configuration or running anything. *)
Theorem program_missing_required e ovs a dest ty d duration cwd st r :
  Forall (long_ok (parser_of e)) ovs ->
  a ∈ parser_of e -> kind a = AStore dest ty true d ->
  Forall (fun ov => lookup_option (parser_of e) ov.1 <> Some a) ovs ->
  program_sem e duration (render_long <$> ovs) cwd st r ->
  r = (Exit 2, st) /\
  exists req, parse_args (parser_of e) (render_long <$> ovs) = CliError (ErrRequired req) /\
    action_name a ∈ req.
Proof.
  intros Hok Ha Hk Hno Hsem.
  destruct (parse_args_longs_missing (parser_of e) ovs a dest ty d) as (req & Hp & Hin);
    try done; try (by destruct e; decide_by_eval).
  split; [by eapply program_sem_usage_error|eauto].
Qed.

Example program_missing_required_witness :
  program_sem AnnotateMP (fun _ => 1) (render_long <$> [("--out_dir", "out")]) "/w/p/scripts"
    scenario_state (Exit 2, scenario_state) /\
  exists req, parse_args (parser_of AnnotateMP) (render_long <$> [("--out_dir", "out")]) =
    CliError (ErrRequired req) /\ action_name in_dir_action ∈ req.
Proof.
  assert (Hs : program_sem AnnotateMP (fun _ => 1) (render_long <$> [("--out_dir", "out")])
                 "/w/p/scripts" scenario_state (Exit 2, scenario_state))
    by (eapply prog_usage_error; vm_compute; reflexivity).
  split; [exact Hs|].
  refine (proj2 (program_missing_required AnnotateMP [("--out_dir", "out")] in_dir_action
                   "in_dir" TStr VNone _ _ _ _ _ _ _ _ Hs));
    [repeat constructor; first [eexists; reflexivity | reflexivity]
    |decide_by_eval|reflexivity|decide_by_eval].
Defined.

(** The commands whose [Progress] line ([... is done.]) was printed. *)
Definition progress_lines (out : list out_line) : list string :=
  omap (fun l => match l with OEvent (Event _ (AProgress c)) => Some c | _ => None end) out.

Lemma progress_lines_jobs cmds tr :
  interleaving (map job_actions cmds) (map ev_action tr) -> progress_lines (map OEvent tr) ≡ₚ cmds.
Proof.
  intros Hi. apply interleaving_Permutation in Hi.
  assert (progress_lines (map OEvent tr) =
          omap (fun a => match a with AProgress c => Some c | _ => None end) (map ev_action tr)) as ->.
  { clear Hi. unfold progress_lines. induction tr as [|[t [c|c|c]] tr IH]; [done| | |];
      simpl; [exact IH|exact IH|f_equal; exact IH]. }
  rewrite (omap_Permutation _ _ _ Hi).
  clear Hi. induction cmds as [|c cmds IH]; [done|]. cbn. constructor. exact IH.
Qed.

(** ** Settings holding the list [[]] *)

Lemma has_type_str v : has_type TStr v = true -> (exists s, v = VStr s) \/ v = VNil.
Proof. destruct v; cbn; try discriminate; eauto. Qed.

Lemma has_type_int v : has_type TInt v = true -> (exists z, v = VInt z) \/ v = VNil.
Proof. destruct v; cbn; try discriminate; eauto. Qed.

Lemma parser_of_wf e : parser_wf (parser_of e).
Proof. destruct e; decide_by_eval. Qed.

Lemma ns_setting e argv m a dest ty req d :
  parse_args (parser_of e) argv = CliOk m -> a ∈ parser_of e -> kind a = AStore dest ty req d ->
  exists v, m !! dest = Some v /\ has_type ty v = true.
Proof. intros H. by apply (parse_args_ns_typed _ _ _ (parser_of_wf e) H). Qed.

Ltac in_parser := repeat first [apply list_elem_of_here | apply list_elem_of_further].

(** Every namespace [parse_args] returns is one [main] can run on, or
    stops on with a [TypeError]. *)
Lemma classify_ns_total e argv m : parse_args (parser_of e) argv = CliOk m -> is_Some (classify_ns e m).
Proof.
  intros H.
  destruct (ns_setting e argv m in_dir_action "in_dir" TStr true VNone H) as (vi & Hi & [[? ->]| ->]%has_type_str);
    [by destruct e; in_parser|done|..];
  (destruct (ns_setting e argv m out_dir_action "out_dir" TStr true VNone H) as (vo & Ho & [[? ->]| ->]%has_type_str);
    [by destruct e; in_parser|done|..]);
  (destruct (ns_setting e argv m num_proc_action "num_proc" TInt false (VInt 1) H) as (vn & Hn & [[? ->]| ->]%has_type_int);
    [by destruct e; in_parser|done|..]);
  (destruct (ns_setting e argv m start_idx_action "start_idx" TInt false (VInt 0) H) as (vs & Hs & [[? ->]| ->]%has_type_int);
    [by destruct e; in_parser|done|..]);
  (destruct (ns_setting e argv m end_idx_action "end_idx" TInt false (VInt 10000) H) as (vt & Ht & [[? ->]| ->]%has_type_int);
    [by destruct e; in_parser|done|..]);
  unfold classify_ns; rewrite Hi, Ho, Hn, Hs, Ht; cbn [mbind option_bind to_str];
  (destruct e; [|by eexists]);
  (destruct (ns_setting AnnotateMP argv m vep_action "vep_script" TStr false (VStr "vep") H) as (vv & Hv & [[? ->]| ->]%has_type_str);
    [in_parser|done|..]); rewrite Hv; by eexists.
Qed.

(** A run that [main] can start uses the integers of the namespace. *)
Lemma classify_typed_ints e m sc a :
  classify_ns e m = Some (Typed sc a) ->
  m !! "num_proc" = Some (VInt (num_proc a)) /\ m !! "start_idx" = Some (VInt (start_idx a)) /\
  m !! "end_idx" = Some (VInt (end_idx a)).
Proof.
  unfold classify_ns, mbind, option_bind, fmap, option_fmap, option_map.
  repeat case_match; intros; simplify_eq/=; auto.
Qed.

(** [main] up to a [TypeError] raises, prints nothing and takes no time. *)
Lemma fault_run_quiet f cwd st res st' :
  fault_run f cwd st = (res, st') ->
  (exists ex, res = inl ex) /\ m_out st' = m_out st /\ m_clock st' = m_clock st.
Proof.
  destruct f as [sc| |sc a]; unfold fault_run, mbind, py_mbind.
  1,2: unfold py_bind, load_conf, dict_getitem, py_ret, py_raise; repeat case_match; intros; simplify_eq; eauto.
  unfold py_bind at 1. destruct (main_prefix sc a cwd st) as [[ex|cmds] s1] eqn:Hp;
      apply main_prefix_quiet in Hp as [Ho Hc]; intros [= <- <-]; eauto.
Qed.

(** The spec's second scenario: ten inputs (listed in no particular
    order), the categorization script on four processes. *)
Definition scenario2_argv : list string := ["-i"; "in"; "-o"; "out"; "-p"; "4"].

Definition scenario2_state : mstate :=
  MState (<["in" := ["job7.vcf"; "job2.vcf"; "job9.vcf"; "job0.vcf"; "job5.vcf";
                     "job3.vcf"; "job8.vcf"; "job1.vcf"; "job6.vcf"; "job4.vcf"]]> ∅)
         {[ "/w/p/conf/cwas_paths.yaml" := {[ "categorize" := "cat.py" ]} ]} 0 [].

Definition scenario2_jobs : list string :=
  ["cat.py -i in/job0.vcf -o out/job0.cat_result.txt;";
   "cat.py -i in/job1.vcf -o out/job1.cat_result.txt;";
   "cat.py -i in/job2.vcf -o out/job2.cat_result.txt;";
   "cat.py -i in/job3.vcf -o out/job3.cat_result.txt;";
   "cat.py -i in/job4.vcf -o out/job4.cat_result.txt;";
   "cat.py -i in/job5.vcf -o out/job5.cat_result.txt;";
   "cat.py -i in/job6.vcf -o out/job6.cat_result.txt;";
   "cat.py -i in/job7.vcf -o out/job7.cat_result.txt;";
   "cat.py -i in/job8.vcf -o out/job8.cat_result.txt;";
   "cat.py -i in/job9.vcf -o out/job9.cat_result.txt;"].

(** Every run of scenario 2 returns normally; its output is the
    events of an interleaving of the ten jobs, then [Done]. *)
Lemma scenario2_run res st'' :
  program_sem CategorizeMP (fun _ => 1) scenario2_argv "/w/p/scripts" scenario2_state (res, st'') ->
  res = Returned /\ exists tr t, m_out st'' = map OEvent tr ++ [ODone t] /\
    interleaving (map job_actions scenario2_jobs) (map ev_action tr).
Proof.
  inversion 1 as [err Hp|Hp|m sc a res' st' Hp Ha Hm|m f res' st' Hp Ha Hf]; subst;
    vm_compute in Hp; try discriminate; injection Hp as <-; vm_compute in Ha; try discriminate.
  injection Ha as <- <-.
  apply (main_sem_returns _ _ _ _ _ ({[ "categorize" := "cat.py" ]} : gmap string string) "cat.py")
    in Hm as (-> & D & tr & t_end & Hr & _ & ->); [|reflexivity|reflexivity|simpl; lia].
  assert (Hw : window_cmds Categorize "cat.py" (Args "in" "out" 4 0 10000) (m_fs scenario2_state) =
               scenario2_jobs) by (vm_compute; reflexivity).
  rewrite Hw in Hr. destruct (d_sound D _ _ _ Hr) as [Hi _].
  split; [done|]. exists tr, t_end. split; [|done].
  rewrite finish_out, prefix_state_out. reflexivity.
Qed.

(** The program has a behaviour on every command line: a usage error
    or the help exit, or [main] on the settings read, which may hold the
    list [[]] an argument ["--"] gives.  [main] then raises on the first
    line that cannot use a [[]], or runs to the end. *)
Theorem program_total e duration argv cwd st : exists r, program_sem e duration argv cwd st r.
Proof.
  destruct (parse_args (parser_of e) argv) as [m| |err] eqn:H.
  - destruct (classify_ns_total e argv m H) as [[sc a|f] Hc].
    + destruct (main_sem_total sc duration a cwd st) as [[res st'] Hm]. eexists. by eapply prog_main.
    + destruct (fault_run f cwd st) as [res st'] eqn:Hf. eexists. by eapply prog_type_fault.
  - eexists. by apply prog_help.
  - eexists. by eapply prog_usage_error.
Qed.

(** C38: a [--num_proc], [--start_idx] or [--end_idx] given as ["--"]
    (the list [[]]) always ends the program with an exception, before
    any command runs and with nothing printed: the slice raises
    [TypeError] for a [[]] bound, and [[] == 1] is false, so
    [mp.Pool([])] raises [TypeError]. *)
Theorem program_list_int e duration argv cwd st m r :
  parse_args (parser_of e) argv = CliOk m ->
  m !! "num_proc" = Some VNil \/ m !! "start_idx" = Some VNil \/ m !! "end_idx" = Some VNil ->
  program_sem e duration argv cwd st r ->
  (exists ex, r.1 = Raised ex) /\ m_out r.2 = m_out st /\ m_clock r.2 = m_clock st.
Proof.
  intros Hp Hnil Hr.
  inversion Hr as [err Hp'|Hp'|m' sc a res st' Hp' Hc Hm|m' f res st' Hp' Hc Hf]; subst; try congruence;
    rewrite Hp in Hp'; injection Hp' as <-.
  - exfalso. apply classify_typed_ints in Hc as (Hn & Hs & Ht). naive_solver.
  - apply fault_run_quiet in Hf as ([ex ->] & Ho & Hk). cbn. eauto.
Qed.

(** [--num_proc=--] for the categorization script. *)
Definition dashdash_np_argv : list string := ["-i"; "in"; "-o"; "out"; "--num_proc=--"].

Example program_list_int_witness :
  exists m r, parse_args (parser_of CategorizeMP) dashdash_np_argv = CliOk m /\
    m !! "num_proc" = Some VNil /\
    program_sem CategorizeMP (fun _ => 1) dashdash_np_argv "/w/p/scripts" scenario2_state r /\
    r.1 = Raised (TypeError lt_msg) /\ m_out r.2 = m_out scenario2_state.
Proof.
  destruct (parse_args (parser_of CategorizeMP) dashdash_np_argv) as [m| |] eqn:Hp;
    [|vm_compute in Hp; discriminate..].
  pose proof Hp as Hp0. vm_compute in Hp. injection Hp as Hm.
  assert (Hnp : m !! "num_proc" = Some VNil) by (rewrite <- Hm; reflexivity).
  destruct (fault_run (PoolFault Categorize (Args "in" "out" 0 0 10000)) "/w/p/scripts" scenario2_state)
    as [res st1] eqn:Hf.
  assert (Hres : res = inl (TypeError lt_msg)) by (vm_compute in Hf; injection Hf as <- _; reflexivity).
  assert (Hr : program_sem CategorizeMP (fun _ => 1) dashdash_np_argv "/w/p/scripts" scenario2_state
                 (match res with inl ex => Raised ex | inr _ => Returned end, st1)).
  { eapply prog_type_fault; [exact Hp0|rewrite <- Hm; vm_compute; reflexivity|exact Hf]. }
  eexists _, _. split; [reflexivity|]. split; [exact Hnp|]. split; [exact Hr|].
  split; [by rewrite Hres|].
  exact (proj1 (proj2 (program_list_int _ _ _ _ _ _ _ Hp0 (or_introl Hnp) Hr))).
Defined.

(** The categorization script's namespace with [out_dir] [[]] and
    integer bounds: [main] stops at [os.makedirs]. *)
Lemma classify_categorize_out_nil m vi vn s t :
  m !! "in_dir" = Some vi -> has_type TStr vi = true -> m !! "out_dir" = Some VNil ->
  m !! "num_proc" = Some vn -> m !! "start_idx" = Some (VInt s) -> m !! "end_idx" = Some (VInt t) ->
  classify_ns CategorizeMP m = Some (Untyped MakedirsFault).
Proof.
  intros Hi Ti Ho Hn Hs Ht. unfold classify_ns. rewrite Hi, Ho, Hn, Hs, Ht.
  by destruct (has_type_str _ Ti) as [[? ->]| ->].
Qed.

Lemma fault_run_makedirs cwd st d tool :
  m_yaml st !! conf_path cwd = Some d -> d !! "categorize" = Some tool ->
  fault_run MakedirsFault cwd st = (inl (TypeError fspath_msg), st).
Proof.
  intros Hd Ht. unfold fault_run, mbind, py_mbind, py_bind, load_conf, dict_getitem. cbv beta.
  rewrite Hd. cbn [conf_key]. rewrite Ht. reflexivity.
Qed.

(** C21: the categorization script given [--out_dir=--] (the list
    [[]]) and integer bounds, with its configuration present, raises
    [TypeError] at [os.makedirs(args.out_dir)]: the state is unchanged,
    so no directory is created, nothing is printed and no command runs. *)
Theorem program_dashdash_out_dir duration argv cwd st m r d tool s t :
  parse_args (parser_of CategorizeMP) argv = CliOk m ->
  m !! "out_dir" = Some VNil -> m !! "start_idx" = Some (VInt s) -> m !! "end_idx" = Some (VInt t) ->
  m_yaml st !! conf_path cwd = Some d -> d !! "categorize" = Some tool ->
  program_sem CategorizeMP duration argv cwd st r ->
  r = (Raised (TypeError fspath_msg), st).
Proof.
  intros Hp Ho Hs Ht Hd Htool Hr.
  destruct (ns_setting _ _ _ in_dir_action "in_dir" TStr true VNone Hp) as (vi & Hi & Ti); [in_parser|done|].
  destruct (ns_setting _ _ _ num_proc_action "num_proc" TInt false (VInt 1) Hp) as (vn & Hn & _);
    [in_parser|done|].
  pose proof (classify_categorize_out_nil m vi vn s t Hi Ti Ho Hn Hs Ht) as Hc.
  inversion Hr as [err Hp'|Hp'|m' sc a res st' Hp' Hc' Hm|m' f res st' Hp' Hc' Hf]; subst;
    rewrite Hp in Hp'; try discriminate; injection Hp' as <-; rewrite Hc in Hc'; [discriminate|].
  injection Hc' as <-. rewrite (fault_run_makedirs cwd st d tool Hd Htool) in Hf. by injection Hf as <- <-.
Qed.

(** [--out_dir=--] for the categorization script. *)
Definition dashdash_out_argv : list string := ["-i"; "in"; "--out_dir=--"].

Example program_dashdash_out_dir_witness :
  exists m r, parse_args (parser_of CategorizeMP) dashdash_out_argv = CliOk m /\
    m !! "out_dir" = Some VNil /\
    program_sem CategorizeMP (fun _ => 1) dashdash_out_argv "/w/p/scripts" scenario2_state r /\
    r = (Raised (TypeError fspath_msg), scenario2_state).
Proof.
  destruct (parse_args (parser_of CategorizeMP) dashdash_out_argv) as [m| |] eqn:Hp;
    [|vm_compute in Hp; discriminate..].
  pose proof Hp as Hp0. vm_compute in Hp. injection Hp as Hm.
  destruct (program_total CategorizeMP (fun _ => 1) dashdash_out_argv "/w/p/scripts" scenario2_state)
    as [r Hr].
  exists m, r. split; [reflexivity|]. split; [by rewrite <- Hm|]. split; [exact Hr|].
  apply (program_dashdash_out_dir (fun _ => 1) dashdash_out_argv "/w/p/scripts" scenario2_state m r
           {[ "categorize" := "cat.py" ]} "cat.py" 0 10000);
    try (rewrite <- Hm; reflexivity); try reflexivity; exact Hr.
Defined.

(** [-h] is consumed before anything after it, and the help exit comes
    before the check of the required options. *)
Lemma parse_args_help_first e argv ts :
  classify (parser_of e) argv = inr ts -> parse_args (parser_of e) ("-h" :: argv) = CliHelp.
Proof. intros H. destruct e; cbn in H; unfold parse_args; cbn [classify parser_of]; rewrite H; reflexivity. Qed.

(** C31: a command line starting with [-h] ends the program with exit
    status 0 and no effect, whatever follows it (once each string is
    classified): missing required options and values [int()] refuses
    are not reported, since argparse's help action exits as soon as it
    is consumed. *)
Theorem program_help_first e duration argv cwd st ts r :
  classify (parser_of e) argv = inr ts ->
  program_sem e duration ("-h" :: argv) cwd st r -> r = (Exit 0, st).
Proof.
  intros Hc Hr. pose proof (parse_args_help_first e argv ts Hc) as Hh.
  inversion Hr; congruence.
Qed.

Example program_help_first_witness :
  exists ts, classify (parser_of AnnotateMP) ["-p"; "x"] = inr ts /\
  program_sem AnnotateMP (fun _ => 1) ["-h"; "-p"; "x"] "/w/p/scripts" scenario_state (Exit 0, scenario_state).
Proof.
  destruct (classify (parser_of AnnotateMP) ["-p"; "x"]) as [e|ts] eqn:Hc; [vm_compute in Hc; discriminate|].
  exists ts. split; [reflexivity|].
  destruct (program_total AnnotateMP (fun _ => 1) ["-h"; "-p"; "x"] "/w/p/scripts" scenario_state) as [r Hr].
  by rewrite <- (program_help_first _ _ _ _ _ _ r Hc Hr).
Defined.

End Program.
