(* ===== verification/LogText.v ===== *)
(** LogText: the text the scripts print.  [execute_cmd] prints
    [f'[{get_curr_time()}, CMD] {cmd}'] and
    [f'[{get_curr_time()}, Progress] {cmd} is done.'] (lines 62-65 of
    [src/scripts/annotate_mp.py]), and the categorization script ends
    with [f'[{get_curr_time()}, Progress] Done'] (line 60 of
    [categorize_mp.py]).  [print] adds a newline.  [get_curr_time] (of
    [utils], not among the sources) is a parameter: how a clock value
    is written.

    [read_log] is what a reader of the output does: it splits the text
    at newlines and parses each line of the spec's format.  The
    theorems show that it recovers the printed entries when neither
    timestamps nor commands hold a newline. *)

From stdpp Require Import base list strings gmap.
From Stdlib Require Import String Ascii Lia.
From S2P Require Import Prelude PyStr PyGlob JobBuilder Interleave Dispatcher Main Program.

#[local] Arguments String.append : simpl nomatch.
Local Open Scope string_scope.

Module LogText.
Import JobBuilder Interleave Dispatcher Main Program.

(** [f'[{ts}, CMD] {cmd}'] (line 63). *)
Definition cmd_line (ts c : string) : string := "[" ++ ts ++ ", CMD] " ++ c.

(** [f'[{ts}, Progress] {cmd} is done.'] (line 65). *)
Definition progress_line (ts c : string) : string := "[" ++ ts ++ ", Progress] " ++ c ++ " is done.".

(** [f'[{ts}, Progress] Done'] (line 60 of categorize_mp.py). *)
Definition done_line (ts : string) : string := "[" ++ ts ++ ", Progress] Done".

Definition nl : ascii := "010"%char.

(** [print(s)]: the line and a newline. *)
Definition print_line (s : string) : string := s ++ String nl "".

Section Render.
(** [get_curr_time()], the clock as text. *)
Variable get_curr_time : nat -> string.

(** The line printed for an output item; [os.system] prints nothing of
    the script's own. *)
Definition render (l : out_line) : option string :=
  match l with
  | OEvent (Event t (ACmd c)) => Some (cmd_line (get_curr_time t) c)
  | OEvent (Event _ (ASystem _)) => None
  | OEvent (Event t (AProgress c)) => Some (progress_line (get_curr_time t) c)
  | ODone t => Some (done_line (get_curr_time t))
  end.

(** Everything written to standard output, line after line. *)
Definition stdout_text (out : list out_line) : string :=
  foldr (fun s acc => print_line s ++ acc) "" (omap render out).

End Render.

(** ** Reading the log *)

(** A line of the spec's log format. *)
Inductive entry :=
| LCmd (ts c : string)
| LProgress (ts c : string)
| LDone (ts : string).

#[export] Instance entry_eq_dec : EqDecision entry.
Proof. solve_decision. Defined.

Fixpoint strip_prefix (p s : string) : option string :=
  match p, s with
  | EmptyString, _ => Some s
  | String a p', String b s' => if Ascii.eqb a b then strip_prefix p' s' else None
  | _, _ => None
  end.

Fixpoint strip_suffix (suf s : string) : option string :=
  if String.eqb s suf then Some ""
  else match s with
       | EmptyString => None
       | String c s' => String c <$> strip_suffix suf s'
       end.

(** The text before the first occurrence of [sep], and the text after it. *)
Fixpoint split_once (sep s : string) : option (string * string) :=
  match strip_prefix sep s with
  | Some r => Some ("", r)
  | None =>
      match s with
      | EmptyString => None
      | String c s' => (fun '(a, b) => (String c a, b)) <$> split_once sep s'
      end
  end.

Definition parse_line (l : string) : option entry :=
  r ← strip_prefix "[" l;
  '(ts, r) ← split_once ", " r;
  match strip_prefix "CMD] " r with
  | Some c => Some (LCmd ts c)
  | None =>
      r ← strip_prefix "Progress] " r;
      if String.eqb r "Done" then Some (LDone ts)
      else c ← strip_suffix " is done." r; Some (LProgress ts c)
  end.

(** [text.split('\n')]. *)
Fixpoint split_nl (s : string) : list string :=
  match s with
  | EmptyString => [""]
  | String c s' =>
      let ls := split_nl s' in
      if Ascii.eqb c nl then "" :: ls
      else match ls with
           | [] => [String c ""]
           | l :: ls' => String c l :: ls'
           end
  end.

Definition read_log (text : string) : list entry := omap parse_line (split_nl text).

(** The commands reported done. *)
Definition done_cmds (es : list entry) : list string :=
  omap (fun e => match e with LProgress _ c => Some c | _ => None end) es.

(** A character that does not occur in a string. *)
Definition free_of (x : ascii) (s : string) : Prop := x ∉ list_ascii_of_string s.

(** Timestamps the reader can delimit: no comma, no newline. *)
Definition timestamp_ok (ts : string) : Prop := free_of "," ts /\ free_of nl ts.

Definition act_cmd (a : action) : string :=
  match a with ACmd c | ASystem c | AProgress c => c end.

(** The command an output item mentions ([Done] mentions none). *)
Definition out_cmd (l : out_line) : string :=
  match l with OEvent e => act_cmd (ev_action e) | ODone _ => "" end.

(** The entry an output item should be read back as. *)
Definition entry_of (fmt : nat -> string) (l : out_line) : option entry :=
  match l with
  | OEvent (Event t (ACmd c)) => Some (LCmd (fmt t) c)
  | OEvent (Event _ (ASystem _)) => None
  | OEvent (Event t (AProgress c)) => Some (LProgress (fmt t) c)
  | ODone t => Some (LDone (fmt t))
  end.

(** ** Lemmas on the reader *)

Lemma free_of_app x a b : free_of x (a ++ b) <-> free_of x a /\ free_of x b.
Proof. unfold free_of. rewrite PyGlob.list_ascii_of_string_app, elem_of_app. tauto. Qed.

Lemma free_of_cons x c s : free_of x (String c s) <-> x <> c /\ free_of x s.
Proof. unfold free_of. cbn. rewrite elem_of_cons. tauto. Qed.

Lemma strip_prefix_app p s : strip_prefix p (p ++ s) = Some s.
Proof. induction p; cbn; [done|]. by rewrite Ascii.eqb_refl. Qed.

Lemma strip_prefix_Some p s r : strip_prefix p s = Some r -> s = p ++ r.
Proof.
  induction p as [|a p IH] in s |- *; cbn; [congruence|]. destruct s as [|b s]; [done|].
  destruct (Ascii.eqb_spec a b) as [->|]; [|done]. intros H. f_equal. by apply IH.
Qed.

Lemma strip_suffix_eq suf s :
  strip_suffix suf s =
  if String.eqb s suf then Some ""
  else match s with EmptyString => None | String c s' => String c <$> strip_suffix suf s' end.
Proof. by destruct s. Qed.

Lemma strip_suffix_app suf c : strip_suffix suf (c ++ suf) = Some c.
Proof.
  induction c as [|x c IH]; rewrite strip_suffix_eq; [by rewrite String.eqb_refl|].
  replace (String.eqb (String x c ++ suf) suf) with false.
  - cbn [String.append]. by rewrite IH.
  - symmetry. apply String.eqb_neq. intros E. apply (f_equal String.length) in E.
    cbn [String.append String.length] in E. rewrite str_length_app in E. lia.
Qed.

Lemma strip_suffix_Some suf s c : strip_suffix suf s = Some c -> s = c ++ suf.
Proof.
  induction s as [|x s IH] in c |- *; rewrite strip_suffix_eq.
  - by destruct (String.eqb_spec "" suf) as [<-|]; [intros [= <-]|].
  - destruct (String.eqb_spec (String x s) suf) as [<-|]; [by intros [= <-]|].
    destruct (strip_suffix suf s) as [c'|] eqn:E; [|done]. intros [= <-]. cbn. f_equal. by apply IH.
Qed.

Lemma split_once_eq sep s :
  split_once sep s =
  match strip_prefix sep s with
  | Some r => Some ("", r)
  | None => match s with
            | EmptyString => None
            | String c s' => (fun '(a, b) => (String c a, b)) <$> split_once sep s'
            end
  end.
Proof. by destruct s. Qed.

(** Without the first character of [sep] in [a], the first [sep]
    follows [a]. *)
Lemma split_once_app x sep a b :
  free_of x a -> split_once (String x sep) (a ++ String x sep ++ b) = Some (a, b).
Proof.
  induction a as [|c a IH]; intros Ha; rewrite split_once_eq.
  - cbn [String.append strip_prefix]. by rewrite Ascii.eqb_refl, strip_prefix_app.
  - apply free_of_cons in Ha as [Hxc Ha].
    change (String c a ++ ?r) with (String c (a ++ r)). cbn [strip_prefix].
    destruct (Ascii.eqb_spec x c); [congruence|]. by rewrite IH.
Qed.

Lemma split_once_Some sep s a b : split_once sep s = Some (a, b) -> s = a ++ sep ++ b.
Proof.
  induction s as [|c s IH] in a, b |- *; rewrite split_once_eq;
    destruct (strip_prefix sep _) as [r|] eqn:E; intros H; simplify_eq;
    try (cbn [String.append]; by apply strip_prefix_Some).
  destruct (split_once sep s) as [[a' b']|] eqn:E'; cbn in H; simplify_eq. cbn. f_equal. by apply IH.
Qed.

Lemma split_nl_print s rest : free_of nl s -> split_nl (print_line s ++ rest) = s :: split_nl rest.
Proof.
  unfold print_line. rewrite str_app_assoc. induction s as [|c s IH]; intros Hs; [reflexivity|].
  apply free_of_cons in Hs as [Hc Hs].
  change (String c s ++ ?r) with (String c (s ++ r)). cbn [split_nl]. rewrite IH by done.
  destruct (Ascii.eqb_spec c nl); [congruence|]. reflexivity.
Qed.

Lemma str_eqb_longer a b : String.length b < String.length a -> String.eqb a b = false.
Proof. intros H. apply String.eqb_neq. intros ->. lia. Qed.

(** Each printed line reads back as its entry. *)
Lemma parse_cmd_line ts c : free_of "," ts -> parse_line (cmd_line ts c) = Some (LCmd ts c).
Proof.
  intros Hts. unfold parse_line, cmd_line. rewrite strip_prefix_app. cbn [mbind option_bind].
  change (ts ++ ", CMD] " ++ c) with (ts ++ String "," " " ++ ("CMD] " ++ c)).
  rewrite split_once_app by done. cbn [mbind option_bind]. by rewrite strip_prefix_app.
Qed.

Lemma parse_progress_line ts c :
  free_of "," ts -> parse_line (progress_line ts c) = Some (LProgress ts c).
Proof.
  intros Hts. unfold parse_line, progress_line. rewrite strip_prefix_app. cbn [mbind option_bind].
  change (ts ++ ", Progress] " ++ c ++ " is done.")
    with (ts ++ String "," " " ++ ("Progress] " ++ (c ++ " is done."))).
  rewrite split_once_app by done. cbn [mbind option_bind]. rewrite strip_prefix_app.
  cbn [strip_prefix Ascii.eqb Bool.eqb]. cbn [mbind option_bind].
  rewrite str_eqb_longer by (rewrite str_length_app; cbn; lia).
  by rewrite strip_suffix_app.
Qed.

Lemma parse_done_line ts : free_of "," ts -> parse_line (done_line ts) = Some (LDone ts).
Proof.
  intros Hts. unfold parse_line, done_line. rewrite strip_prefix_app. cbn [mbind option_bind].
  change (ts ++ ", Progress] Done") with (ts ++ String "," " " ++ ("Progress] " ++ "Done")).
  rewrite split_once_app by done. reflexivity.
Qed.

Ltac free_of_lits :=
  repeat match goal with
  | |- free_of _ (_ ++ _) => apply free_of_app; split
  | |- free_of _ (String _ _) => apply free_of_cons; split; [done|]
  | |- free_of _ EmptyString => apply not_elem_of_nil
  end.

(** A printed line has no newline when its timestamp and command have
    none, and it reads back as the item's entry. *)
Lemma render_entry fmt l :
  (forall t, timestamp_ok (fmt t)) -> free_of nl (out_cmd l) ->
  match render fmt l with
  | Some s => free_of nl s /\ parse_line s = entry_of fmt l
  | None => entry_of fmt l = None
  end.
Proof.
  intros Hts Hc. destruct l as [[t [c|c|c]]|t]; cbn in Hc |- *; [| done | |];
    destruct (Hts t) as [Hcomma Hnl].
  - split; [unfold cmd_line; by free_of_lits|by apply parse_cmd_line].
  - split; [unfold progress_line; by free_of_lits|by apply parse_progress_line].
  - split; [unfold done_line; by free_of_lits|by apply parse_done_line].
Qed.

Lemma read_log_stdout_aux fmt out :
  (forall t, timestamp_ok (fmt t)) -> Forall (fun l => free_of nl (out_cmd l)) out ->
  read_log (stdout_text fmt out) = omap (entry_of fmt) out.
Proof.
  intros Hts. induction 1 as [|l out Hl Hout IH]; [reflexivity|].
  pose proof (render_entry fmt l Hts Hl) as Hr. unfold stdout_text. cbn [omap list_omap].
  destruct (render fmt l) as [s|]; cbn [foldr].
  - destruct Hr as [Hs Hp]. unfold read_log. rewrite split_nl_print by done.
    cbn [omap list_omap]. rewrite Hp. unfold read_log, stdout_text in IH. rewrite IH.
    by destruct (entry_of fmt l).
  - rewrite Hr. exact IH.
Qed.

Lemma done_cmds_entries fmt out : done_cmds (omap (entry_of fmt) out) = progress_lines out.
Proof.
  unfold done_cmds, progress_lines.
  induction out as [|[[t [c|c|c]]|t] out IH]; cbn [omap list_omap entry_of]; by rewrite ?IH.
Qed.

Lemma job_actions_cmds cmds : Forall (fun a => act_cmd a ∈ cmds) (List.concat (map job_actions cmds)).
Proof.
  induction cmds as [|c cmds IH]; cbn; [constructor|].
  repeat (constructor; [apply list_elem_of_here|]).
  eapply Forall_impl; [exact IH|]. intros a Ha. by apply list_elem_of_further.
Qed.

Lemma out_events_free cmds tr :
  interleaving (map job_actions cmds) (map ev_action tr) -> Forall (free_of nl) cmds ->
  Forall (fun l => free_of nl (out_cmd l)) (map OEvent tr).
Proof.
  intros Hi%interleaving_Permutation Hc.
  assert (Ha : Forall (fun a => act_cmd a ∈ cmds) (map ev_action tr)) by (rewrite Hi; apply job_actions_cmds).
  clear Hi. induction tr as [|e tr IH]; cbn in *; [constructor|].
  apply Forall_cons in Ha as [He Ha]. constructor; [|by apply IH].
  exact (proj1 (Forall_forall _ _) Hc _ He).
Qed.

(** ** Properties of the printed log *)

(** C39: whatever [get_curr_time] writes, if it writes no comma and no
    newline, and if no command holds a newline, reading the printed
    text back gives the printed entries, in order: the CMD line and
    the Progress line of every job and the final [Done]. *)
Theorem read_log_stdout fmt out :
  (forall t, timestamp_ok (fmt t)) -> Forall (fun l => free_of nl (out_cmd l)) out ->
  read_log (stdout_text fmt out) = omap (entry_of fmt) out.
Proof. apply read_log_stdout_aux. Qed.

Example read_log_stdout_witness :
  read_log (stdout_text (fun _ => "10:00:00")
              [OEvent (Event 0 (ACmd "v -i a.vcf;")); OEvent (Event 0 (ASystem "v -i a.vcf;"));
               OEvent (Event 3 (AProgress "v -i a.vcf;")); ODone 3]) =
  [LCmd "10:00:00" "v -i a.vcf;"; LProgress "10:00:00" "v -i a.vcf;"; LDone "10:00:00"].
Proof.
  assert (Hts : forall t, timestamp_ok ((fun _ : nat => "10:00:00") t)).
  { intros t. unfold timestamp_ok, free_of. split; decide_by_eval. }
  rewrite (read_log_stdout _ _ Hts); [reflexivity|].
  unfold free_of. decide_by_eval.
Defined.

(** C34: the spec's scenario 2 ([-i in -o out -p 4], ten inputs), on
    the text the program prints: whatever the schedule, reading the
    standard output back reports each of the ten commands done exactly
    once, in some order, and the last entry is [Done]. *)
Theorem scenario2_log fmt res st'' :
  (forall t, timestamp_ok (fmt t)) ->
  program_sem CategorizeMP (fun _ => 1) scenario2_argv "/w/p/scripts" scenario2_state (res, st'') ->
  res = Returned /\ done_cmds (read_log (stdout_text fmt (m_out st''))) ≡ₚ scenario2_jobs /\
  exists ts, last (read_log (stdout_text fmt (m_out st''))) = Some (LDone ts).
Proof.
  intros Hts H. destruct (scenario2_run _ _ H) as (-> & tr & t & -> & Hi). split; [done|].
  rewrite read_log_stdout_aux by
    (done || (apply Forall_app; split; [apply (out_events_free _ _ Hi); unfold free_of; decide_by_eval
                                       |repeat constructor; apply not_elem_of_nil])).
  rewrite omap_app. cbn [omap list_omap entry_of]. split; [|exists (fmt t); apply last_snoc].
  unfold done_cmds. rewrite omap_app. cbn [omap list_omap]. rewrite app_nil_r.
  fold (done_cmds (omap (entry_of fmt) (map OEvent tr))). rewrite done_cmds_entries.
  by apply progress_lines_jobs.
Qed.

Example scenario2_log_witness :
  exists st'', program_sem CategorizeMP (fun _ => 1) scenario2_argv "/w/p/scripts" scenario2_state
                 (Returned, st'') /\
               done_cmds (read_log (stdout_text (fun _ => "10:00:00") (m_out st''))) ≡ₚ scenario2_jobs.
Proof.
  destruct (main_sem_exists Categorize (fun _ => 1) (Args "in" "out" 4 0 10000) "/w/p/scripts"
              scenario2_state ({[ "categorize" := "cat.py" ]} : gmap string string) "cat.py")
    as [st'' Hm]; [reflexivity|reflexivity|simpl; lia|].
  assert (Hp : program_sem CategorizeMP (fun _ => 1) scenario2_argv "/w/p/scripts" scenario2_state
                 (Returned, st'')).
  { exact (prog_main CategorizeMP (fun _ => 1) scenario2_argv "/w/p/scripts" scenario2_state
             _ _ _ (inr tt) st'' (eq_refl _) (eq_refl _) Hm). }
  assert (Hts : forall t, timestamp_ok ((fun _ : nat => "10:00:00") t)).
  { intros t. unfold timestamp_ok, free_of. split; decide_by_eval. }
  exists st''. split; [exact Hp|].
  exact (proj1 (proj2 (scenario2_log _ Returned st'' Hts Hp))).
Defined.

End LogText.
